(** * Shannon: a shallow embedding of the core, LLM and scraper modules

    The development follows the layout of the Python sources:

    - [core/results.py]   : [Ok] / [Err] and [collect_results]
    - [core/types.py], [core/base.py] : [PaginatedResult], [get_paginated]
    - [core/events.py]    : the synchronous [EventBus]
    - [llm/prompts/templates.py] : [PromptTemplate]
    - [llm/cache/response_cache.py], [llm/client.py] : cache and client
    - [llm/extractors/base.py] : [BaseExtractor.extract]
    - [llm/processors/chunker.py] : [TextChunker]
    - [services/extraction_service.py] : [ExtractionService.extract_paper]
    - [Meta/python_modules/util.py] : [get_paper_urls]
    - [llm/config.py], [llm/extractors/section.py] and the remaining
      methods of the modules above: the registry and the headers, the
      maintenance of the cache, the section extractor, and how the
      service is built

    Python [int] is [Z]; [str] is [string] (8-bit code points); a [float]
    that the code only compares, adds, multiplies or divides on small
    decimal constants is read as the rational it denotes ([Q]); a [dict]
    keyed by strings is a [gmap string _] where order is irrelevant and an
    association list where the code depends on insertion order; a [set] is
    a [gset].  Exceptions are values of [exn] carried by [outcome].

    The first part holds the embedding, the second the words the
    statements use and the sample inputs, the third the theorems. *)

From Stdlib Require Import ZArith QArith Qround String Ascii List Lia Bool.
From stdpp Require Import base option list gmap strings pretty sorting.

Open Scope string_scope.
Open Scope list_scope.
Open Scope Z_scope.

(* ===================================================================== *)
(** * Part I.  The embedding                                              *)
(* ===================================================================== *)

(** ** Python exceptions and the error monad *)

Module py.

(** The exception classes the modelled code raises or catches.  All of
    them derive from Python's [Exception]. *)
Inductive exn : Type :=
| HTTPStatusError (status_code : Z) (msg : string)
| RequestError (msg : string)
| RuntimeError (msg : string)
| AttributeError (msg : string)
| TypeError (msg : string)
| IndexError (msg : string)
| ConnectionError (msg : string)
| FileNotFoundError (msg : string)
| ZeroDivisionError (msg : string)
| KeyError (msg : string)
| OtherException (msg : string).

(** [str(e)] *)
Definition str_exn (e : exn) : string :=
  match e with
  | HTTPStatusError _ m | RequestError m | RuntimeError m | AttributeError m
  | TypeError m | IndexError m | ConnectionError m | FileNotFoundError m
  | ZeroDivisionError m | KeyError m | OtherException m => m
  end.

(** A Python call either returns or raises. *)
Inductive outcome (A : Type) : Type :=
| Return (a : A)
| Raise (e : exn).
Arguments Return {A} a.
Arguments Raise {A} e.

Definition bind {A B} (m : outcome A) (k : A -> outcome B) : outcome B :=
  match m with
  | Return a => k a
  | Raise e => Raise e
  end.

(** Code that reads and writes a state [S] and may raise: the state at
    the point of the [raise] is kept, as Python keeps side effects. *)
Definition M (S A : Type) : Type := S -> outcome A * S.

Definition ret {S A} (a : A) : M S A := fun s => (Return a, s).

Definition raise {S A} (e : exn) : M S A := fun s => (Raise e, s).

Definition mbind {S A B} (m : M S A) (k : A -> M S B) : M S B :=
  fun s =>
    match m s with
    | (Return a, s') => k a s'
    | (Raise e, s') => (Raise e, s')
    end.

(** [try: m  except Exception as e: h e] *)
Definition try_except {S A} (m : M S A) (h : exn -> M S A) : M S A :=
  fun s =>
    match m s with
    | (Return a, s') => (Return a, s')
    | (Raise e, s') => h e s'
    end.

(** [for x in xs: body x]; an exception leaving [body] leaves the loop. *)
Fixpoint for_each {S X} (xs : list X) (body : X -> M S unit) : M S unit :=
  match xs with
  | [] => ret tt
  | x :: rest => mbind (body x) (fun _ => for_each rest body)
  end.

(** [x or y] on an optional integer: [None] and [0] are falsy. *)
Definition or_int (x : option Z) (y : Z) : Z :=
  match x with
  | Some v => if v =? 0 then y else v
  | None => y
  end.

(** [x or y] where [y] is optional as well. *)
Definition or_opt_int (x y : option Z) : option Z :=
  match x with
  | Some v => if v =? 0 then y else Some v
  | None => y
  end.

(** [len(s)] *)
Definition len (s : string) : Z := Z.of_nat (String.length s).

(** Slice bounds: a negative bound counts from the end, then both are
    clamped to [0, len]. *)
Definition clamp_index (n i : Z) : Z :=
  let j := if i <? 0 then i + n else i in
  Z.max 0 (Z.min n j).

(** [s[a:b]] *)
Definition slice (s : string) (a b : Z) : string :=
  let n := len s in
  let a' := clamp_index n a in
  let b' := clamp_index n b in
  substring (Z.to_nat a') (Z.to_nat (b' - a')) s.

(** [str.lower] on code points below 256. *)
Definition lower_char (c : ascii) : ascii :=
  let n := Z.of_N (N_of_ascii c) in
  if ((65 <=? n) && (n <=? 90) || (192 <=? n) && (n <=? 222) && negb (n =? 215))%bool
  then ascii_of_N (Z.to_N (n + 32)) else c.

Fixpoint lower (s : string) : string :=
  match s with
  | EmptyString => EmptyString
  | String c t => String (lower_char c) (lower t)
  end.

(** [s.startswith(p)] *)
Fixpoint startswith (p s : string) : bool :=
  match p, s with
  | EmptyString, _ => true
  | String a p', String b s' => Ascii.eqb a b && startswith p' s'
  | String _ _, EmptyString => false
  end.

(** [s[i:].startswith(p)] for [0 <= i]. *)
Fixpoint match_at (p s : string) (i : nat) : bool :=
  match i, s with
  | O, _ => startswith p s
  | S i', String _ s' => match_at p s' i'
  | S _, EmptyString => false
  end.

(** Downward scan used by [rfind]: the highest [i] with
    [lo <= i <= lo + n] at which [sep] occurs, as an index, else [-1]. *)
Fixpoint rfind_down (sep s : string) (lo : Z) (n : nat) : Z :=
  if match_at sep s (Z.to_nat (lo + Z.of_nat n)) then lo + Z.of_nat n
  else match n with
       | O => -1
       | S n' => rfind_down sep s lo n'
       end.

(** [s.rfind(sep, start, end)]: [end] is clamped to [0, len], [start]
    from below only, and a window shorter than [sep] holds no match. *)
Definition rfind (s sep : string) (start end_ : Z) : Z :=
  let n := len s in
  let a := Z.max 0 (if start <? 0 then start + n else start) in
  let b := clamp_index n end_ in
  let hi := b - len sep in
  if hi <? a then -1 else rfind_down sep s a (Z.to_nat (hi - a)).

End py.

Import py.

Notation "x <- m ;; k" := (mbind m (fun x => k))
  (at level 100, m at next level, right associativity, only parsing).

(** ** core/results.py *)

Module results.

Section Result.
Context {T E : Type}.

(** [Result = Union[Ok[T], Err[E]]] *)
Inductive Result : Type :=
| Ok (value : T)
| Err (error : E).

Definition is_ok (r : Result) : bool :=
  match r with Ok _ => true | Err _ => false end.

Definition is_err (r : Result) : bool :=
  match r with Ok _ => false | Err _ => true end.

End Result.
Arguments Result : clear implicits.

(** The [for] loop of [collect_results], threading the list [values]:
    an [Err] returns at once, an [Ok] appends its unwrapped value. *)
Fixpoint collect_loop {T E} (results : list (Result T E)) (values : list T)
  : Result (list T) E :=
  match results with
  | [] => Ok values
  | result :: rest =>
      match result with
      | Err error => Err error
      | Ok value => collect_loop rest (values ++ [value])
      end
  end.

Definition collect_results {T E} (results : list (Result T E))
  : Result (list T) E :=
  collect_loop results [].

End results.

(** ** core/types.py and core/base.py: pagination *)

Module base.

(** [PaginatedResult] (a frozen dataclass) *)
Record PaginatedResult (T : Type) : Type := mkPaginatedResult {
  items : list T;
  total : Z;
  page : Z;
  page_size : Z;
  total_pages : Z
}.
Arguments mkPaginatedResult {T}.
Arguments items {T}.
Arguments total {T}.
Arguments page {T}.
Arguments page_size {T}.
Arguments total_pages {T}.

Definition has_next {T} (r : PaginatedResult T) : bool :=
  page r <? total_pages r.

Definition has_previous {T} (r : PaginatedResult T) : bool :=
  page r >? 1.

Section Repository.
Context {Row T V : Type} `{EqDecision V}.

(** A [dict] of column filters; [None] and the empty dict add no WHERE. *)
Definition Filters : Type := option (list (string * V)).

(** What a concrete repository and its connection provide: the rows of
    [table_name], how a row reads a column, how the engine sorts for an
    ORDER BY expression, and [_row_to_entity]. *)
Record Repository : Type := mkRepository {
  table_rows : list Row;
  column : Row -> string -> option V;
  order_rows : string -> list Row -> list Row;
  row_to_entity : Row -> T
}.

(** [k = ?] for every key of the filters, joined by AND. *)
Definition row_matches (repo : Repository) (conds : list (string * V))
    (row : Row) : bool :=
  forallb (fun kv => bool_decide (column repo row (fst kv) = Some (snd kv)))
          conds.

Definition where_ (repo : Repository) (filters : Filters) : list Row :=
  match filters with
  | Some ((_ :: _) as conds) => filter (fun r => row_matches repo conds r = true) (table_rows repo)
  | _ => table_rows repo
  end.

(** [count(filters)]: SELECT COUNT( * ) with the same WHERE. *)
Definition count (repo : Repository) (filters : Filters) : Z :=
  Z.of_nat (length (where_ repo filters)).

(** The SELECT of [get_paginated] as it reaches the connection. *)
Record Query : Type := mkQuery {
  q_filters : Filters;
  q_order_by : option string;
  q_limit : Z;
  q_offset : Z
}.

(** SQLite: a negative LIMIT is no limit, a negative OFFSET is 0. *)
Definition execute (repo : Repository) (q : Query) : list Row :=
  let rows := where_ repo (q_filters q) in
  let rows := match q_order_by q with
              | Some ob => if String.eqb ob "" then rows else order_rows repo ob rows
              | None => rows
              end in
  let rows := drop (Z.to_nat (q_offset q)) rows in
  if q_limit q <? 0 then rows else take (Z.to_nat (q_limit q)) rows.

Definition paginated_query (page page_size : Z) (filters : Filters)
    (order_by : option string) : Query :=
  let offset := (page - 1) * page_size in
  mkQuery filters order_by page_size offset.

(** [get_paginated]; [//] by zero raises. *)
Definition get_paginated (repo : Repository) (page page_size : Z)
    (filters : Filters) (order_by : option string)
  : outcome (PaginatedResult T) :=
  let total := count repo filters in
  let q := paginated_query page page_size filters order_by in
  let items := map (row_to_entity repo) (execute repo q) in
  if page_size =? 0 then Raise (ZeroDivisionError "integer division or modulo by zero")
  else Return (mkPaginatedResult items total page page_size
                 ((total + page_size - 1) / page_size)).

End Repository.
Arguments Repository : clear implicits.
Arguments Filters : clear implicits.

(** [ceil(a / b)] over the rationals. *)
Definition ceil_div (a b : Z) : Z := Qceiling (inject_Z a / inject_Z b).

End base.

(** ** core/events.py: the event bus *)

Module events.

(** An event knows the name of its class ([BaseEvent.event_type]). *)
Class Event (Ev : Type) : Type := event_type : Ev -> string.

(** [EventHandler = Callable[[BaseEvent], None]].  A handler is a Python
    object; [h_id] stands for its identity.  What calling it does is
    given with the program ([Handlers] below): the code of a handler
    can reach the bus, which holds handlers in turn. *)
Record EventHandler : Type := mkHandler {
  h_id : nat
}.

(** [EventBus._subscribers : defaultdict(list)].  The lists are objects
    of their own: [clear()] empties the dictionary and leaves the lists
    it held as they are, out of the reach of [subscribe] and
    [unsubscribe] but not of a loop that is walking one of them.
    [detached] keeps the dictionaries emptied so far, oldest first. *)
Record EventBus : Type := mkEventBus {
  subscribers : gmap string (list EventHandler);
  detached : list (gmap string (list EventHandler))
}.

(** The number of [clear()] calls so far. *)
Definition cleared (bus : EventBus) : nat := length (detached bus).

(** [self._subscribers[key]] on a [defaultdict(list)]: a missing key is
    inserted with an empty list. *)
Definition getitem (bus : EventBus) (key : string) : list EventHandler * EventBus :=
  match subscribers bus !! key with
  | Some l => (l, bus)
  | None => ([], mkEventBus (<[key := []]> (subscribers bus)) (detached bus))
  end.

Definition subscribe (bus : EventBus) (etype : string) (handler : EventHandler) : EventBus :=
  let (l, bus') := getitem bus etype in
  mkEventBus (<[etype := l ++ [handler]]> (subscribers bus')) (detached bus').

(** [list.remove]: drops the first equal element. *)
Fixpoint remove_first (i : nat) (l : list EventHandler) : list EventHandler :=
  match l with
  | [] => []
  | h :: t => if Nat.eqb (h_id h) i then t else h :: remove_first i t
  end.

Definition unsubscribe (bus : EventBus) (etype : string) (handler : EventHandler) : EventBus :=
  let (l, bus') := getitem bus etype in
  if existsb (fun h => Nat.eqb (h_id h) (h_id handler)) l
  then mkEventBus (<[etype := remove_first (h_id handler) l]> (subscribers bus'))
         (detached bus')
  else bus'.

(** [self._subscribers.clear()] *)
Definition clear (bus : EventBus) : EventBus :=
  mkEventBus ∅ (detached bus ++ [subscribers bus]).

(** The handlers registered under a key, without touching the table. *)
Definition registered (bus : EventBus) (key : string) : list EventHandler :=
  default [] (subscribers bus !! key).

(** A list object of the dictionary: the key it was made under, and the
    number of [clear()] calls before. *)
Definition ListRef : Type := nat * string.

(** The list object that [self._subscribers[key]] gives. *)
Definition ref (bus : EventBus) (key : string) : ListRef := (cleared bus, key).

(** What a list object holds now. *)
Definition contents (bus : EventBus) (r : ListRef) : list EventHandler :=
  if Nat.eqb (fst r) (cleared bus) then registered bus (snd r)
  else match detached bus !! fst r with
       | Some table => default [] (table !! snd r)
       | None => []
       end.

Section EventBus.
Context {Ev W : Type} `{Event Ev}.

(** What a run leaves behind, and what the code of a handler can
    reach: the bus (there is one, it is a singleton), the application
    state, the handlers called so far (in call order, with their
    event; a handler that publishes adds to them), and the lines
    printed. *)
Record World : Type := mkWorld {
  event_bus : EventBus;
  app : W;
  calls : list (nat * Ev);
  stdout : list string
}.

(** The code of the handler objects: called with an event, a handler
    returns or raises. *)
Definition Handlers : Type := EventHandler -> Ev -> M World unit.

(** The evaluation of [self._subscribers[key]], for its effect on the
    dictionary. *)
Definition touch (key : string) (w : World) : World :=
  mkWorld (snd (getitem (event_bus w) key)) (app w) (calls w) (stdout w).

(** [handler(event)] *)
Definition call (code : Handlers) (handler : EventHandler) (event : Ev)
  : M World unit :=
  fun w =>
    code handler event
      (mkWorld (event_bus w) (app w) (calls w ++ [(h_id handler, event)]) (stdout w)).

(** [print(line)] *)
Definition print (line : string) : M World unit :=
  fun w => (Return tt, mkWorld (event_bus w) (app w) (calls w) (stdout w ++ [line])).

(** [for handler in <list>: try: handler(event)  except Exception as e:
    print(...)].  The loop holds the list object and a position: each
    round takes the handler that the list has at the position then,
    and the loop is over when the position has reached the end that
    the list has then.  [fuel] bounds the rounds; [None] means that it
    did not suffice. *)
Fixpoint deliver (code : Handlers) (prefix : string) (event : Ev) (r : ListRef)
    (fuel i : nat) (w : World) : option (outcome unit * World) :=
  match fuel with
  | O => None
  | S fuel' =>
      match contents (event_bus w) r !! i with
      | None => Some (Return tt, w)
      | Some handler =>
          match try_except (call code handler event)
                  (fun e => print (prefix +:+ str_exn e)) w with
          | (Return _, w') => deliver code prefix event r fuel' (S i) w'
          | (Raise e, w') => Some (Raise e, w')
          end
      end
  end.

(** [publish]: the loop over the list of the event's type, then the
    loop over the list of ["*"], which is looked up when the first
    loop is over. *)
Definition publish (code : Handlers) (event : Ev) (fuel : nat) (w : World)
  : option (outcome unit * World) :=
  let etype := event_type event in
  let w1 := touch etype w in
  match deliver code ("Event handler error for " +:+ etype +:+ ": ") event
          (ref (event_bus w1) etype) fuel 0 w1 with
  | Some (Return _, w2) =>
      let w3 := touch "*" w2 in
      deliver code "Wildcard handler error: " event (ref (event_bus w3) "*") fuel 0 w3
  | stopped => stopped
  end.


End EventBus.
Arguments World : clear implicits.
Arguments Handlers : clear implicits.

End events.

(** ** llm/prompts/templates.py *)

Module templates.

Record PromptTemplate : Type := mkPromptTemplate {
  name : string;
  template : string;
  description : string
}.

(** [str.replace(old, new)] for a non-empty [old]: occurrences are
    replaced from the left and do not overlap; [skip] counts the
    characters of an occurrence still to be dropped. *)
Fixpoint replace_from (old new s : string) (skip : nat) : string :=
  match s with
  | EmptyString => EmptyString
  | String c t =>
      match skip with
      | S k => replace_from old new t k
      | O =>
          if startswith old s
          then new +:+ replace_from old new t (String.length old - 1)
          else String c (replace_from old new t 0)
      end
  end.

Definition replace (s old new : string) : string := replace_from old new s 0.

(** [method(self, **kwargs)] called as [t.method( **d )]: the items of
    [d] are bound as keyword arguments, and [self] is bound already, so
    a key [self] is refused. *)
Definition keywords {A} (method : string) (kwargs : list (string * A))
  : outcome (list (string * A)) :=
  if existsb (String.eqb "self") (map fst kwargs)
  then Raise (TypeError ("PromptTemplate." +:+ method
                         +:+ "() got multiple values for argument 'self'"))
  else Return kwargs.

(** [render]: keyword arguments are substituted in the order given; the
    values arrive as their [str()]. *)
Definition render (t : PromptTemplate) (kwargs : list (string * string))
  : outcome string :=
  bind (keywords "render" kwargs) (fun kwargs =>
    Return (fold_left (fun result kv => replace result ("{" +:+ fst kv +:+ "}") (snd kv))
                      kwargs (template t))).

(** [\w] of a [str] pattern on code points below 256: alphanumerics and
    the underscore. *)
Definition is_word (c : ascii) : bool :=
  let n := Z.of_N (N_of_ascii c) in
  let between lo hi := ((lo <=? n) && (n <=? hi))%bool in
  (between 48 57 || between 65 90 || between 97 122 || (n =? 95)
   || (n =? 170) || (n =? 178) || (n =? 179) || (n =? 181)
   || (n =? 185) || (n =? 186) || between 188 190
   || between 192 214 || between 216 246 || between 248 255)%bool.

(** The longest prefix of word characters, and what follows it. *)
Fixpoint span_word (s : string) : string * string :=
  match s with
  | EmptyString => (EmptyString, EmptyString)
  | String c t =>
      if is_word c
      then let (w, r) := span_word t in (String c w, r)
      else (EmptyString, s)
  end.

(** [re.findall(r"\{(\w+)\}", s)]: scanning from the left, a match at
    an opening brace is the maximal run of word characters, if it is not
    empty and a closing brace follows it (a shorter run is followed by a
    word character, not by the brace); the scan resumes after the match,
    or one character further when there is none.  Each step consumes a
    character, so [fuel] above the length is never exhausted. *)
Fixpoint findall_vars (fuel : nat) (s : string) : list string :=
  match fuel with
  | O => []
  | S fuel' =>
      match s with
      | EmptyString => []
      | String c t =>
          if Ascii.eqb c "{"
          then match span_word t with
               | (String a w, String d r) =>
                   if Ascii.eqb d "}"
                   then String a w :: findall_vars fuel' r
                   else findall_vars fuel' t
               | _ => findall_vars fuel' t
               end
          else findall_vars fuel' t
      end
  end.

Definition get_required_variables (t : PromptTemplate) : gset string :=
  list_to_set (findall_vars (S (String.length (template t))) (template t)).

(** [validate_variables]: the keyword names are the provided set; the
    order of [list(required - provided)] is the set's own. *)
Definition validate_variables (t : PromptTemplate) (kwargs : list (string * string))
  : outcome (list string) :=
  bind (keywords "validate_variables" kwargs) (fun kwargs =>
    let required := get_required_variables t in
    let provided : gset string := list_to_set (map fst kwargs) in
    Return (elements (required ∖ provided))).

End templates.

(** ** core/types.py: the LLM value objects *)

Module types.

Inductive LLMRole : Type := SYSTEM | USER | ASSISTANT.

(** [LLMRole.value] *)
Definition role_value (r : LLMRole) : string :=
  match r with
  | SYSTEM => "system"
  | USER => "user"
  | ASSISTANT => "assistant"
  end.

Record LLMMessage : Type := mkLLMMessage {
  role : LLMRole;
  content : string
}.

(** [LLMMessage.to_dict] *)
Definition to_dict (m : LLMMessage) : list (string * string) :=
  [("role", role_value (role m)); ("content", content m)].

(** [TokenUsage]: a frozen dataclass with exactly these two fields. *)
Record TokenUsage : Type := mkTokenUsage {
  prompt_tokens : Z;
  completion_tokens : Z
}.

Definition total_tokens (u : TokenUsage) : Z :=
  prompt_tokens u + completion_tokens u.

(** [TokenUsage( **kwargs )]: the generated [__init__] accepts the field
    names only, and needs both. *)
Definition TokenUsage_init (kwargs : list (string * Z)) : outcome TokenUsage :=
  match List.find (fun kv => negb (String.eqb (fst kv) "prompt_tokens"
                                   || String.eqb (fst kv) "completion_tokens")) kwargs with
  | Some (k, _) =>
      Raise (TypeError ("TokenUsage.__init__() got an unexpected keyword argument '"
                        +:+ k +:+ "'"))
  | None =>
      match List.find (fun kv => String.eqb (fst kv) "prompt_tokens") kwargs,
            List.find (fun kv => String.eqb (fst kv) "completion_tokens") kwargs with
      | Some (_, p), Some (_, c) => Return (mkTokenUsage p c)
      | _, _ => Raise (TypeError "TokenUsage.__init__() missing required positional argument")
      end
  end.

(** [usage.<attr>] where [usage : Optional[TokenUsage]]. *)
Definition usage_getattr (usage : option TokenUsage) (attr : string) : outcome Z :=
  match usage with
  | None =>
      Raise (AttributeError ("'NoneType' object has no attribute '" +:+ attr +:+ "'"))
  | Some u =>
      if String.eqb attr "prompt_tokens" then Return (prompt_tokens u)
      else if String.eqb attr "completion_tokens" then Return (completion_tokens u)
      else if String.eqb attr "total_tokens" then Return (total_tokens u)
      else Raise (AttributeError ("'TokenUsage' object has no attribute '" +:+ attr +:+ "'"))
  end.

Record LLMResponse : Type := mkLLMResponse {
  r_content : string;
  r_model : string;
  r_usage : option TokenUsage;
  r_finish_reason : string;
  r_cached : bool
}.

Record CachedResponse : Type := mkCachedResponse {
  response : LLMResponse;
  created_at : Q;
  expires_at : option Q
}.

End types.

(** ** llm/config.py *)

Module config.

(** [LLMConfig]; [base_url] and [context_window] stand for what
    [get_base_url()] and the [context_window] property return. *)
Record LLMConfig : Type := mkLLMConfig {
  base_url : string;
  model : string;
  temperature : Q;
  max_tokens : Z;
  max_retries : Z;
  cache_enabled : bool;
  context_window : Z
}.

(** [get_default_config()]: the LM Studio backend and the dataclass
    defaults; every registered model has a context window of 8192. *)
Definition get_default_config : LLMConfig :=
  mkLLMConfig "http://localhost:1234/v1" "gpt-oss-20b" (7 # 10) 4096 3 true 8192.

End config.

(** ** llm/cache/response_cache.py and llm/client.py *)

Module llm.
Import types config.

(** Library functions the client calls: [hashlib.sha256(s.encode())
    .hexdigest()] and the formatting of a float inside an f-string. *)
Class Runtime : Type := mkRuntime {
  sha256_hexdigest : string -> string;
  str_float : Q -> string
}.

(** A row of the [llm_cache] table; [cache_key] is its primary key. *)
Record CacheRow : Type := mkCacheRow {
  response_content : string;
  row_model : string;
  input_tokens : option Z;
  output_tokens : option Z;
  finish_reason : option string;
  row_created_at : Q;
  row_expires_at : option Q
}.

(** The JSON body of a chat completion, as [response.json()] decodes it. *)
Record Choice : Type := mkChoice {
  message_content : string;
  choice_finish_reason : option string
}.

Record Body : Type := mkBody {
  choices : list Choice;
  body_model : option string;
  usage : gmap string Z            (* [data.get("usage", {})] *)
}.

(** The request payload. *)
Record Payload : Type := mkPayload {
  p_model : string;
  p_messages : list (list (string * string));
  p_temperature : Q;
  p_max_tokens : Z;
  p_stop : option (list string)
}.

(** What [self._http.post(...)], [raise_for_status()] and [json()] do
    to the [try] body: a decoded body, an [httpx.HTTPStatusError] for
    the response's status code, an [httpx.RequestError], or an
    exception of another class. *)
Inductive HttpResult : Type :=
| HttpJson (data : Body)
| HttpStatus (status_code : Z) (msg : string)
| HttpRequestFailed (msg : string)
| HttpOther (e : exn).

(** The backend answers the [n]-th POST (counting from 0). *)
Definition Backend : Type := nat -> Payload -> HttpResult.

Record ResponseCache : Type := mkResponseCache {
  default_ttl : option Z
}.

Record LLMClient : Type := mkLLMClient {
  _config : LLMConfig;
  _cache : option ResponseCache;
  _http : Backend
}.

(** What the client can observe or change. *)
Inductive Event : Type :=
| POST (payload : Payload)
| Sleep (seconds : Z)
| CacheGet (cache_key : string)
| CacheSet (cache_key : string).

Record World : Type := mkWorld {
  cache_rows : gmap string CacheRow;   (* the SQLite table *)
  now : Q;                             (* [time.time()] *)
  trace : list Event
}.

Definition log (ev : Event) : M World unit :=
  fun w => (Return tt, mkWorld (cache_rows w) (now w) (trace w ++ [ev])).

Definition is_post (ev : Event) : bool :=
  match ev with POST _ => true | _ => false end.

Definition is_cache_event (ev : Event) : bool :=
  match ev with CacheGet _ | CacheSet _ => true | _ => false end.

(** How many POSTs a trace holds. *)
Definition posts (t : list Event) : nat := length (List.filter is_post t).

(** [asyncio.sleep(seconds)] *)
Definition sleep (seconds : Z) : M World unit :=
  fun w => (Return tt,
            mkWorld (cache_rows w) (now w + inject_Z seconds)%Q
                    (trace w ++ [Sleep seconds])).

(** [x or "stop"] on an optional string. *)
Definition or_str (x : option string) (y : string) : string :=
  match x with
  | Some s => if String.eqb s "" then y else s
  | None => y
  end.

(** [ResponseCache.get] *)
Definition get (self : ResponseCache) (cache_key : string)
  : M World (option CachedResponse) :=
  mbind (log (CacheGet cache_key)) (fun _ w =>
    match cache_rows w !! cache_key with
    | Some row =>
        let live := match row_expires_at row with
                    | None => true
                    | Some t => negb (Qle_bool t (now w))
                    end in
        if live then
          match TokenUsage_init
                  [("input_tokens", or_int (input_tokens row) 0);
                   ("output_tokens", or_int (output_tokens row) 0)] with
          | Raise e => (Raise e, w)
          | Return u =>
              (Return (Some (mkCachedResponse
                               (mkLLMResponse (response_content row) (row_model row)
                                  (Some u) (or_str (finish_reason row) "stop") true)
                               (row_created_at row) (row_expires_at row))), w)
          end
        else (Return None, w)
    | None => (Return None, w)
    end).

(** [ResponseCache.set]: the parameter tuple is built, attribute by
    attribute, before the INSERT OR REPLACE runs. *)
Definition set (self : ResponseCache) (cache_key : string)
    (response : LLMResponse) (ttl : option Z) : M World unit :=
  mbind (log (CacheSet cache_key)) (fun _ w =>
    let ttl := or_opt_int ttl (default_ttl self) in
    let created_at := now w in
    let expires_at := match ttl with
                      | Some t => if t =? 0 then None
                                  else Some (created_at + inject_Z t)%Q
                      | None => None
                      end in
    match usage_getattr (r_usage response) "input_tokens" with
    | Raise e => (Raise e, w)
    | Return it =>
        match usage_getattr (r_usage response) "output_tokens" with
        | Raise e => (Raise e, w)
        | Return ot =>
            let row := mkCacheRow (r_content response) (r_model response)
                         (Some it) (Some ot) (Some (r_finish_reason response))
                         created_at expires_at in
            (Return tt, mkWorld (<[cache_key := row]> (cache_rows w)) (now w) (trace w))
        end
    end).

Section Client.
Context `{Runtime}.

(** [LLMClient.count_tokens] *)
Definition count_tokens (text : string) : Z := len text / 4.

(** [LLMClient._compute_cache_key] *)
Definition _compute_cache_key (self : LLMClient) (messages : list LLMMessage)
    (temperature : Q) : string :=
  let content := model (_config self) +:+ ":" +:+ str_float temperature +:+ ":" in
  let content := content +:+
    String.concat "|" (map (fun m => role_value (role m) +:+ ":" +:+ types.content m) messages) in
  sha256_hexdigest content.

(** [str(last_error)] in the final message. *)
Definition str_last_error (last_error : option exn) : string :=
  match last_error with
  | Some e => str_exn e
  | None => "None"
  end.

(** The body of the [try] once the response is decoded: build the
    [LLMResponse], store it when the request is deterministic. *)
Definition on_success (self : LLMClient) (use_cache : bool) (cache_key : string)
    (data : Body) : M World LLMResponse :=
  match choices data with
  | [] => raise (IndexError "list index out of range")
  | choice :: _ =>
      let usage_data := usage data in
      let llm_response :=
        mkLLMResponse (message_content choice)
          (default (model (_config self)) (body_model data))
          (if bool_decide (usage_data = ∅) then None
           else Some (mkTokenUsage (default 0 (usage_data !! "prompt_tokens"))
                                   (default 0 (usage_data !! "completion_tokens"))))
          (default "stop" (choice_finish_reason choice))
          false in
      match use_cache, _cache self with
      | true, Some cache =>
          mbind (set cache cache_key llm_response None) (fun _ => ret llm_response)
      | _, _ => ret llm_response
      end
  end.

(** [for attempt in range(max_retries)]: [remaining] iterations are
    left, [attempt] is the loop variable. *)
Fixpoint retry_loop (self : LLMClient) (payload : Payload) (use_cache : bool)
    (cache_key : string) (remaining : nat) (attempt : Z)
    (last_error : option exn) : M World LLMResponse :=
  match remaining with
  | O =>
      raise (RuntimeError ("Failed after " +:+ pretty (max_retries (_config self))
                           +:+ " retries: " +:+ str_last_error last_error))
  | S remaining' =>
      fun w =>
        let answer := _http self (posts (trace w)) payload in
        mbind (log (POST payload)) (fun _ =>
          match answer with
          | HttpJson data => on_success self use_cache cache_key data
          | HttpStatus status_code msg =>
              let e := HTTPStatusError status_code msg in
              if status_code >=? 500
              then mbind (sleep (2 ^ attempt)) (fun _ =>
                     retry_loop self payload use_cache cache_key remaining'
                                (attempt + 1) (Some e))
              else raise e
          | HttpRequestFailed msg =>
              let e := RequestError msg in
              mbind (sleep (2 ^ attempt)) (fun _ =>
                retry_loop self payload use_cache cache_key remaining'
                           (attempt + 1) (Some e))
          | HttpOther e => raise e
          end) w
  end.

(** [LLMClient.complete] *)
Definition complete (self : LLMClient) (messages : list LLMMessage)
    (temperature : option Q) (max_tokens : option Z)
    (stop : option (list string)) : M World LLMResponse :=
  let temperature := default (config.temperature (_config self)) temperature in
  let max_tokens := or_int max_tokens (config.max_tokens (_config self)) in
  let use_cache := (bool_decide (is_Some (_cache self)) && Qeq_bool temperature 0)%bool in
  let cache_key := _compute_cache_key self messages temperature in
  let request :=
    let payload := mkPayload (model (_config self)) (map to_dict messages)
                     temperature max_tokens
                     (match stop with Some (_ :: _) => stop | _ => None end) in
    retry_loop self payload use_cache cache_key
               (Z.to_nat (max_retries (_config self))) 0 None in
  match use_cache, _cache self with
  | true, Some cache =>
      mbind (get cache cache_key) (fun cached =>
        match cached with
        | Some cached =>
            ret (mkLLMResponse (r_content (response cached)) (r_model (response cached))
                   (r_usage (response cached)) (r_finish_reason (response cached)) true)
        | None => request
        end)
  | _, _ => request
  end.

End Client.

End llm.

(** ** llm/extractors/base.py *)

Module extractors.
Import types config templates llm.

(** The values a decoded LLM answer is made of ([dict[str, Any]]). *)
#[warnings="-register-all"]
Inductive pyval : Type :=
| VNone
| VBool (b : bool)
| VInt (z : Z)
| VStr (s : string)
| VList (l : list pyval)
| VDict (d : list (string * pyval)).

(** [bool(v)] *)
Definition truthy (v : pyval) : bool :=
  match v with
  | VNone => false
  | VBool b => b
  | VInt z => negb (z =? 0)
  | VStr s => negb (String.eqb s "")
  | VList l => match l with [] => false | _ => true end
  | VDict d => match d with [] => false | _ => true end
  end.

(** [d.get(k)] on the items of a dict. *)
Fixpoint dict_get {A} (d : list (string * A)) (k : string) : option A :=
  match d with
  | [] => None
  | (k', v) :: rest => if String.eqb k' k then Some v else dict_get rest k
  end.

(** [d[k] = v]: an existing key keeps its place. *)
Fixpoint dict_set {A} (d : list (string * A)) (k : string) (v : A) : list (string * A) :=
  match d with
  | [] => [(k, v)]
  | (k', v') :: rest =>
      if String.eqb k' k then (k, v) :: rest else (k', v') :: dict_set rest k v
  end.

(** [{**d, **extra}] *)
Definition dict_update {A} (d extra : list (string * A)) : list (string * A) :=
  fold_left (fun acc kv => dict_set acc (fst kv) (snd kv)) extra d.

Record ExtractionResult : Type := mkExtractionResult {
  extraction_type : string;
  success : bool;
  data : pyval;
  confidence : Q;
  raw_response : string;
  result_usage : option TokenUsage;
  errors : list string
}.

(** A concrete extractor: the abstract members of [BaseExtractor]
    ([extraction_type], [prompt_template], [_process_response]), the
    overridable [_get_expected_keys], and what [__init__] stores. *)
Record Extractor : Type := mkExtractor {
  _client : LLMClient;
  _system_prompt : PromptTemplate;
  x_extraction_type : string;
  prompt_template : PromptTemplate;
  _process_response : string -> outcome pyval;
  _get_expected_keys : list string
}.

(** [_build_messages] *)
Definition _build_messages (self : Extractor) (user_content : string)
    (system_override : option string) : list LLMMessage :=
  [ mkLLMMessage SYSTEM (or_str system_override (template (_system_prompt self)));
    mkLLMMessage USER user_content ].

(** [_calculate_confidence]; [.get] and [in] need a dict. *)
Definition _calculate_confidence (self : Extractor) (data : pyval) : outcome Q :=
  if negb (truthy data) then Return 0%Q
  else match data with
       | VDict d =>
           if truthy (default VNone (dict_get d "parse_error")) then Return 0%Q
           else
             let expected_keys := _get_expected_keys self in
             match expected_keys with
             | [] => Return (8 # 10)
             | _ =>
                 let present_keys :=
                   length (List.filter
                             (fun k => truthy (default VNone (dict_get d k)))
                             expected_keys) in
                 Return (inject_Z (Z.of_nat present_keys)
                         / inject_Z (Z.of_nat (length expected_keys)))%Q
             end
       | _ => Raise (AttributeError "object has no attribute 'get'")
       end.

(** [repr] of a list of identifiers, as the f-string shows [missing]. *)
Definition repr_names (l : list string) : string :=
  "[" +:+ String.concat ", " (map (fun s => "'" +:+ s +:+ "'") l) +:+ "]".

(** The unsuccessful result both failure paths of [extract] build. *)
Definition failed (self : Extractor) (errs : list string) : ExtractionResult :=
  mkExtractionResult (x_extraction_type self) false (VDict []) 0 "" None errs.

Section Extract.
Context `{Runtime}.

(** [BaseExtractor.extract]; the context values arrive as their
    [str()].  The two calls with [**template_vars] stand before the
    [try]: what they raise leaves [extract]. *)
Definition extract (self : Extractor) (content : string)
    (context : option (list (string * string))) : M World ExtractionResult :=
  let context := default [] context in
  let template_vars := dict_update [("content", content)] context in
  match validate_variables (prompt_template self) template_vars with
  | Raise e => raise e
  | Return ((_ :: _) as missing) =>
      ret (failed self ["Missing required variables: " +:+ repr_names missing])
  | Return [] =>
      match render (prompt_template self) template_vars with
      | Raise e => raise e
      | Return user_content =>
          let messages := _build_messages self user_content None in
          try_except
            (mbind (complete (_client self) messages (Some (1 # 10)) None None)
               (fun response =>
                  match _process_response self (r_content response) with
                  | Raise e => raise e
                  | Return data =>
                      match _calculate_confidence self data with
                      | Raise e => raise e
                      | Return c =>
                          ret (mkExtractionResult (x_extraction_type self) true data c
                                 (r_content response) (r_usage response) [])
                      end
                  end))
            (fun e => ret (failed self [str_exn e]))
      end
  end.

End Extract.

End extractors.

(** ** llm/processors/chunker.py *)

Module chunker.

(** The line feed, and the default separators. *)
Definition LF : string := String "010" EmptyString.

Record ChunkingConfig : Type := mkChunkingConfig {
  max_tokens : Z;
  overlap_tokens : Z;
  separator : string;
  fallback_separators : list string
}.

Definition default_config : ChunkingConfig :=
  mkChunkingConfig 4000 200 (LF +:+ LF) [LF; ". "; " "].

Record TextChunker : Type := mkTextChunker {
  _count_tokens : string -> Z;
  _config : ChunkingConfig
}.

Record ChunkInfo : Type := mkChunkInfo {
  index : Z;
  total_chunks : Z;
  start_char : Z;
  end_char : Z;
  token_count : Z;
  text : string
}.

(** The [while high - low > 100] loop of [_find_chunk_end].  The gap
    shrinks at every turn, so [fuel] of at least the first gap is never
    exhausted. *)
Fixpoint bisect (self : TextChunker) (text : string) (start max_tokens : Z)
    (fuel : nat) (low high : Z) : Z * Z :=
  if high - low >? 100 then
    match fuel with
    | O => (low, high)
    | S fuel' =>
        let mid := (low + high) / 2 in
        let tokens := _count_tokens self (slice text start mid) in
        if tokens <=? max_tokens
        then bisect self text start max_tokens fuel' mid high
        else bisect self text start max_tokens fuel' low mid
    end
  else (low, high).

(** The [for sep in ...] loop: the first separator found after [start]
    moves the candidate just behind it. *)
Fixpoint snap (text : string) (start candidate : Z) (seps : list string) : Z :=
  match seps with
  | [] => candidate
  | sep :: rest =>
      let sep_pos := rfind text sep start (candidate + len sep * 2) in
      if sep_pos >? start then sep_pos + len sep
      else snap text start candidate rest
  end.

Definition _find_chunk_end (self : TextChunker) (text : string)
    (start max_tokens : Z) : Z :=
  let '(low, high) :=
    bisect self text start max_tokens (Z.to_nat (len text - start))
           start (len text) in
  let candidate :=
    snap text start low
         (separator (_config self) :: fallback_separators (_config self)) in
  Z.min candidate (len text).

(** [int(x)]: truncation towards zero. *)
Definition int_of (x : Q) : Z :=
  if Qle_bool 0 x then Qfloor x else Qceiling x.

Definition _tokens_to_chars (self : TextChunker) (tokens : Z)
    (reference_text : string) : Z :=
  if String.eqb reference_text "" then tokens * 4
  else
    let ref_tokens := _count_tokens self reference_text in
    if ref_tokens =? 0 then tokens * 4
    else
      let chars_per_token := (inject_Z (len reference_text) / inject_Z ref_tokens)%Q in
      int_of (inject_Z tokens * chars_per_token)%Q.

(** The [while current_pos < len(text)] loop.  [None]: the loop is
    still running when [fuel] turns are over. *)
Fixpoint chunk_loop (self : TextChunker) (text : string) (max_tokens overlap : Z)
    (fuel : nat) (current_pos chunk_index : Z) (chunks : list ChunkInfo)
  : option (list ChunkInfo) :=
  if current_pos <? len text then
    match fuel with
    | O => None
    | S fuel' =>
        let chunk_end := _find_chunk_end self text current_pos max_tokens in
        let chunk_text := slice text current_pos chunk_end in
        let chunks :=
          chunks ++ [mkChunkInfo chunk_index 0 current_pos chunk_end
                       (_count_tokens self chunk_text) chunk_text] in
        let overlap_chars := _tokens_to_chars self overlap chunk_text in
        chunk_loop self text max_tokens overlap fuel'
                   (chunk_end - overlap_chars) (chunk_index + 1) chunks
    end
  else Some chunks.

(** [TextChunker.chunk] *)
Definition chunk (self : TextChunker) (text : string)
    (max_tokens overlap : option Z) (fuel : nat) : option (list ChunkInfo) :=
  let max_tokens := or_int max_tokens (chunker.max_tokens (_config self)) in
  let overlap := or_int overlap (overlap_tokens (_config self)) in
  let total_tokens := _count_tokens self text in
  if total_tokens <=? max_tokens
  then Some [mkChunkInfo 0 1 0 (len text) total_tokens text]
  else
    match chunk_loop self text max_tokens overlap fuel 0 0 [] with
    | None => None
    | Some chunks =>
        let total := Z.of_nat (length chunks) in
        Some (map (fun c => mkChunkInfo (index c) total (start_char c) (end_char c)
                              (token_count c) (chunker.text c)) chunks)
    end.

End chunker.

(** ** services/extraction_service.py *)

Module extraction_service.
Import results events types config templates llm extractors chunker.

(** The three event classes the service declares. *)
Inductive ServiceEvent : Type :=
| ExtractionStartedEvent (paper_id : string) (extraction_types : list string)
| ExtractionCompletedEvent (paper_id : string) (success : bool)
    (pages_created notes_created : Z)
| ExtractionProgressEvent (paper_id stage : string) (progress : Q)
    (message : string).

#[export] Instance service_event_type : events.Event ServiceEvent := fun e =>
  match e with
  | ExtractionStartedEvent _ _ => "ExtractionStartedEvent"
  | ExtractionCompletedEvent _ _ _ _ => "ExtractionCompletedEvent"
  | ExtractionProgressEvent _ _ _ _ => "ExtractionProgressEvent"
  end.

Record PaperExtractionInput : Type := mkInput {
  paper_id : string;
  pdf_path : string;
  title : string;
  extraction_types : list string
}.

Record Page : Type := mkPage {
  page_title : pyval;
  category : string;
  position : Z;
  suggested_content : pyval
}.

Record ExtractedPaper : Type := mkExtractedPaper {
  ep_title : string;
  summary : pyval;
  key_contributions : pyval;
  main_concepts : pyval;
  algorithms : pyval;
  suggested_tags : pyval;
  suggested_pages : list Page
}.

(** What lies outside the service: the backend's answer to GET /models,
    the file system, the PDF parser, and [str.title]. *)
Record Environment : Type := mkEnvironment {
  models_status : outcome Z;
  pdf_exists : string -> bool;
  pdf_parse : string -> outcome string;
  str_title : string -> string
}.

Record ExtractionService : Type := mkService {
  _config : LLMConfig;
  _client : LLMClient;
  _chunker : TextChunker;
  _paper_extractor : Extractor;
  _section_extractor : Extractor;
  env : Environment
}.

(** The state a run works on: the client's world and the events handed
    to the bus, in order. *)
Record SWorld : Type := mkSWorld {
  llm_world : llm.World;
  published : list ServiceEvent
}.

Definition lift {A} (m : M llm.World A) : M SWorld A :=
  fun w => match m (llm_world w) with
           | (r, lw) => (r, mkSWorld lw (published w))
           end.

(** [self._event_bus.publish(event)]; the bus never raises. *)
Definition publish (event : ServiceEvent) : M SWorld unit :=
  fun w => (Return tt, mkSWorld (llm_world w) (published w ++ [event])).

Definition _publish_progress (paper_id stage : string) (progress : Q)
    (message : string) : M SWorld unit :=
  publish (ExtractionProgressEvent paper_id stage progress message).

(** [LLMClient.health_check] *)
Definition check_backend_health (self : ExtractionService) : bool :=
  match models_status (env self) with
  | Return status_code => status_code =? 200
  | Raise _ => false
  end.

(** Attribute and item access on decoded values. *)
Definition py_get (v : pyval) (k : string) (dflt : pyval) : outcome pyval :=
  match v with
  | VDict d => Return (default dflt (dict_get d k))
  | _ => Raise (AttributeError "object has no attribute 'get'")
  end.

Definition py_items (v : pyval) : outcome (list (string * pyval)) :=
  match v with
  | VDict d => Return d
  | _ => Raise (AttributeError "object has no attribute 'items'")
  end.

Definition py_iter (v : pyval) : outcome (list pyval) :=
  match v with
  | VList l => Return l
  | VDict d => Return (map (fun kv => VStr (fst kv)) d)
  | VStr s => Return (map (fun c => VStr (String c EmptyString)) (list_ascii_of_string s))
  | _ => Raise (TypeError "object is not iterable")
  end.

(** [_deduplicate]: [seen] is the set of keys met so far. *)
Fixpoint _deduplicate (items : list pyval) (key : string) (seen : list string)
  : outcome (list pyval) :=
  match items with
  | [] => Return []
  | item :: rest =>
      bind (py_get item key (VStr "")) (fun v =>
        match v with
        | VStr s =>
            let item_key := lower s in
            if (negb (String.eqb item_key "")
                && negb (existsb (String.eqb item_key) seen))%bool
            then bind (_deduplicate rest key (item_key :: seen))
                      (fun r => Return (item :: r))
            else _deduplicate rest key seen
        | _ => Raise (AttributeError "object has no attribute 'lower'")
        end)
  end.

Fixpoint _deduplicate_pairs (pairs : list (string * pyval)) (seen : list string)
  : list (string * pyval) :=
  match pairs with
  | [] => []
  | (key, value) :: rest =>
      if existsb (String.eqb key) seen then _deduplicate_pairs rest seen
      else (key, value) :: _deduplicate_pairs rest (key :: seen)
  end.

(** [_generate_page_suggestions]: one page per section, concept and
    algorithm, numbered in that order. *)
Definition section_pages (self : ExtractionService) (sections_data : pyval)
  : list Page :=
  match sections_data with
  | VDict d =>
      imap (fun i kv =>
              mkPage (VStr (str_title (env self) (replace (fst kv) "_" " ")))
                     "section" (Z.of_nat i)
                     (match snd kv with VStr s => VStr s | _ => VStr "" end)) d
  | _ => []
  end.

Fixpoint entry_pages (category : string) (dflt_name field : string)
    (entries : list pyval) (position : Z) : outcome (list Page) :=
  match entries with
  | [] => Return []
  | entry :: rest =>
      bind (py_get entry "name" (VStr dflt_name)) (fun nm =>
      bind (py_get entry field (VStr "")) (fun body =>
      bind (entry_pages category dflt_name field rest (position + 1)) (fun r =>
        Return (mkPage nm category position body :: r))))
  end.

Definition _generate_page_suggestions (self : ExtractionService)
    (result : ExtractionResult) : outcome (list Page) :=
  bind (py_get (data result) "sections" (VDict [])) (fun sections_data =>
  let pages := section_pages self sections_data in
  bind (py_get (data result) "main_concepts" (VList [])) (fun cs =>
  bind (py_iter cs) (fun concepts =>
  bind (entry_pages "concept" "Concept" "definition" concepts
          (Z.of_nat (length pages))) (fun cpages =>
  bind (py_get (data result) "algorithms" (VList [])) (fun al =>
  bind (py_iter al) (fun algos =>
  bind (entry_pages "algorithm" "Algorithm" "purpose" algos
          (Z.of_nat (length pages + length cpages))) (fun apages =>
  Return (pages ++ cpages ++ apages)))))))).

(** [_result_to_model]: the keyword arguments are evaluated in order. *)
Definition _result_to_model (self : ExtractionService) (title : string)
    (result : ExtractionResult) : outcome ExtractedPaper :=
  bind (py_get (data result) "summary" (VStr "")) (fun summary =>
  bind (py_get (data result) "key_contributions" (VList [])) (fun kc =>
  bind (py_get (data result) "main_concepts" (VList [])) (fun mc =>
  bind (py_get (data result) "algorithms" (VList [])) (fun al =>
  bind (py_get (data result) "suggested_tags" (VList [])) (fun tags =>
  bind (_generate_page_suggestions self result) (fun pages =>
  Return (mkExtractedPaper title summary kc mc al tags pages))))))).

Section Service.
Context `{Runtime}.

(** [_extract_full] *)
Definition _extract_full (self : ExtractionService) (input_data : PaperExtractionInput)
    (content : string) : M SWorld ExtractionResult :=
  lift (extract (_paper_extractor self) content
                (Some [("title", title input_data)])).

(** The body of the [for i, chunk in enumerate(chunks)] loop, threading
    [all_sections] and [all_concepts]. *)
Definition chunk_step (self : ExtractionService) (input_data : PaperExtractionInput)
    (n : Z) (acc : list (string * pyval) * list pyval) (i : Z) (c : ChunkInfo)
  : M SWorld (list (string * pyval) * list pyval) :=
  _ <- _publish_progress (paper_id input_data) "extracting"
         ((3 # 10) + (5 # 10) * (inject_Z i / inject_Z n))%Q
         ("Processing chunk " +:+ pretty (i + 1) +:+ " of " +:+ pretty n +:+ "...") ;;
  result <- lift (extract (_section_extractor self) (chunker.text c)
                    (Some [("paper_title", title input_data);
                           ("section_title", "Part " +:+ pretty (index c + 1));
                           ("section_type", "content")])) ;;
  if success result then
    match py_get (data result) "sections" (VDict []) with
    | Raise e => raise e
    | Return secs =>
        match py_items secs with
        | Raise e => raise e
        | Return items =>
            match py_get (data result) "concepts" (VList []) with
            | Raise e => raise e
            | Return cs =>
                match py_iter cs with
                | Raise e => raise e
                | Return concepts => ret (fst acc ++ items, snd acc ++ concepts)
                end
            end
        end
    end
  else ret acc.

Fixpoint chunk_loop_from (self : ExtractionService) (input_data : PaperExtractionInput)
    (n : Z) (acc : list (string * pyval) * list pyval) (i : Z)
    (chunks : list ChunkInfo)
  : M SWorld (list (string * pyval) * list pyval) :=
  match chunks with
  | [] => ret acc
  | c :: rest =>
      acc' <- chunk_step self input_data n acc i c ;;
      chunk_loop_from self input_data n acc' (i + 1) rest
  end.

(** [_extract_chunked], once [chunk()] has returned [chunks]. *)
Definition merge_chunks (self : ExtractionService) (input_data : PaperExtractionInput)
    (chunks : list ChunkInfo) : M SWorld ExtractionResult :=
  acc <- chunk_loop_from self input_data (Z.of_nat (length chunks)) ([], []) 0 chunks ;;
  match _deduplicate (snd acc) "name" [] with
  | Raise e => raise e
  | Return concepts =>
      ret (mkExtractionResult "full_paper" true
             (VDict [("summary", VStr "");
                     ("key_contributions", VList []);
                     ("sections", VDict (_deduplicate_pairs (fst acc) []));
                     ("main_concepts", VList concepts);
                     ("algorithms", VList []);
                     ("suggested_tags", VList [])])
             (7 # 10) "" None [])
  end.

(** [_extract_chunked]; [None] when [chunk()] is still running after
    [fuel] turns of its loop. *)
Definition _extract_chunked (self : ExtractionService) (input_data : PaperExtractionInput)
    (content : string) (max_tokens : Z) (fuel : nat)
  : option (M SWorld ExtractionResult) :=
  match chunk (_chunker self) content (Some max_tokens) None fuel with
  | None => None
  | Some chunks => Some (merge_chunks self input_data chunks)
  end.

(** The end of the [try] body, from [if not result.success] on. *)
Definition finish (self : ExtractionService) (input_data : PaperExtractionInput)
    (result : ExtractionResult)
  : M SWorld (option (Result ExtractedPaper exn)) :=
  if negb (success result)
  then ret (Some (Err (OtherException ("Extraction failed: " +:+ repr_names (errors result)))))
  else
    _ <- _publish_progress (paper_id input_data) "finalizing" (9 # 10) "Building structure..." ;;
    match _result_to_model self (title input_data) result with
    | Raise e => raise e
    | Return extracted =>
        _ <- _publish_progress (paper_id input_data) "complete" 1 "Extraction complete" ;;
        _ <- publish (ExtractionCompletedEvent (paper_id input_data) true
                        (Z.of_nat (length (suggested_pages extracted))) 0) ;;
        ret (Some (Ok extracted))
    end.

(** The [try] body of [extract_paper]. *)
Definition extract_body (self : ExtractionService) (input_data : PaperExtractionInput)
    (fuel : nat) : M SWorld (option (Result ExtractedPaper exn)) :=
  if negb (check_backend_health self)
  then ret (Some (Err (ConnectionError
                        ("LLM backend not available at " +:+ base_url (_config self)
                         +:+ ". Please start LM Studio or llama.cpp server."))))
  else
    _ <- _publish_progress (paper_id input_data) "parsing" (1 # 10) "Parsing PDF..." ;;
    if negb (pdf_exists (env self) (pdf_path input_data))
    then ret (Some (Err (FileNotFoundError ("PDF not found: " +:+ pdf_path input_data))))
    else
      match pdf_parse (env self) (pdf_path input_data) with
      | Raise e => raise e
      | Return parsed_text =>
          _ <- _publish_progress (paper_id input_data) "analyzing" (2 # 10)
                 "Analyzing content..." ;;
          let total_tokens := count_tokens parsed_text in
          let max_tokens := context_window (_config self) - 4000 in
          if total_tokens >? max_tokens then
            _ <- _publish_progress (paper_id input_data) "chunking" (3 # 10)
                   ("Content too large (" +:+ pretty total_tokens
                    +:+ " tokens), processing in chunks...") ;;
            match _extract_chunked self input_data parsed_text max_tokens fuel with
            | None => ret None
            | Some run =>
                result <- run ;;
                finish self input_data result
            end
          else
            _ <- _publish_progress (paper_id input_data) "extracting" (4 # 10)
                   "Extracting paper structure..." ;;
            result <- _extract_full self input_data parsed_text ;;
            finish self input_data result
      end.

(** [ExtractionService.extract_paper].  The value is the [Result] the
    call returns, or [None] when the call is still inside [chunk()]
    after [fuel] turns. *)
Definition extract_paper (self : ExtractionService) (input_data : PaperExtractionInput)
    (fuel : nat) : M SWorld (option (Result ExtractedPaper exn)) :=
  _ <- publish (ExtractionStartedEvent (paper_id input_data)
                  (extraction_types input_data)) ;;
  try_except (extract_body self input_data fuel)
    (fun e =>
       _ <- publish (ExtractionCompletedEvent (paper_id input_data) false 0 0) ;;
       ret (Some (Err e))).

End Service.

(** The stages and progress fractions among the published events, in
    order. *)
Definition progress_of (evs : list ServiceEvent) : list (string * Q) :=
  omap (fun e => match e with
                 | ExtractionProgressEvent _ stage p _ => Some (stage, p)
                 | _ => None
                 end) evs.

(** The progress of a complete run of the full path, and of a complete
    run of the chunked path over [n] chunks. *)
Definition full_path : list (string * Q) :=
  [("parsing", 1 # 10); ("analyzing", 2 # 10); ("extracting", 4 # 10);
   ("finalizing", 9 # 10); ("complete", 1)]%Q.

Definition chunk_fraction (n : Z) (i : Z) : Q :=
  ((3 # 10) + (5 # 10) * (inject_Z i / inject_Z n))%Q.

Definition chunk_progress (n : nat) (i : nat) : string * Q :=
  ("extracting", chunk_fraction (Z.of_nat n) (Z.of_nat i)).

Definition chunked_path (n : nat) : list (string * Q) :=
  [("parsing", 1 # 10); ("analyzing", 2 # 10); ("chunking", 3 # 10)]%Q
  ++ map (chunk_progress n) (seq 0 n)
  ++ [("finalizing", 9 # 10); ("complete", 1)]%Q.

(** One progress event does not report less than another. *)
Definition progress_le (a b : string * Q) : Prop := (snd a <= snd b)%Q.

End extraction_service.

(** ** Meta/python_modules/util.py: the paper scraper *)

Module util.
Import chunker.

(** [\s] of a [str] pattern on code points below 256. *)
Definition is_space (c : ascii) : bool :=
  let n := Z.of_N (N_of_ascii c) in
  ((9 <=? n) && (n <=? 13) || (28 <=? n) && (n <=? 32)
   || (n =? 133) || (n =? 160))%bool.

Definition is_LF (c : ascii) : bool := Ascii.eqb c "010".

(** [\s*] followed by something that is not white space: the longest
    run is the only one that can be followed by a match. *)
Fixpoint skip_ws (s : string) : string :=
  match s with
  | EmptyString => EmptyString
  | String c t => if is_space c then skip_ws t else s
  end.

(** A literal under IGNORECASE: what follows it, if it is there. *)
Fixpoint expect_ci (lit s : string) : option string :=
  match lit, s with
  | EmptyString, _ => Some s
  | String a lit', String b s' =>
      if Ascii.eqb (lower_char a) (lower_char b) then expect_ci lit' s' else None
  | String _ _, EmptyString => None
  end.

(** [[^\s]+] greedy: the longest run without white space, and the rest. *)
Fixpoint span_nonspace (s : string) : string * string :=
  match s with
  | EmptyString => (EmptyString, EmptyString)
  | String c t =>
      if is_space c then (EmptyString, s)
      else let (w, r) := span_nonspace t in (String c w, r)
  end.

(** [\s*$] under MULTILINE: some prefix of the white space ahead ends
    at the end of the text or just before a line feed. *)
Fixpoint at_eol_after_ws (s : string) : bool :=
  match s with
  | EmptyString => true
  | String c t =>
      if is_LF c then true
      else if is_space c then at_eol_after_ws t
      else false
  end.

(** [https?://[^\s]+] against a whole run without white space. *)
Definition url_shape (tok : string) : bool :=
  match expect_ci "http" tok with
  | None => false
  | Some r =>
      let after_scheme r' :=
        match expect_ci "://" r' with
        | Some (String _ _) => true
        | _ => false
        end in
      match expect_ci "s" r with
      | Some r' => (after_scheme r' || after_scheme r)%bool
      | None => after_scheme r
      end
  end.

(** The pattern [\s*link\s*:\s*(https?://[^\s]+)\s*$] matched at the
    head of [s]; the value is group 1. *)
Definition match_here (s : string) : option string :=
  match expect_ci "link" (skip_ws s) with
  | None => None
  | Some s2 =>
      match skip_ws s2 with
      | String c s4 =>
          if Ascii.eqb c ":" then
            let (tok, rest) := span_nonspace (skip_ws s4) in
            if (url_shape tok && at_eol_after_ws rest)%bool then Some tok else None
          else None
      | EmptyString => None
      end
  end.

(** [re.search(pattern, content, re.MULTILINE | re.IGNORECASE)]: the
    start positions are tried from the left; [^] holds at the start of
    the text and after every line feed ([bol]). *)
Fixpoint search_from (bol : bool) (s : string) : option string :=
  match (if bol then match_here s else None) with
  | Some u => Some u
  | None =>
      match s with
      | EmptyString => None
      | String c t => search_from (is_LF c) t
      end
  end.

Definition search (content : string) : option string := search_from true content.

(** What reading [Paper.md] gives, and the [link] computed from it. *)
Definition link_of (read : outcome string) : string :=
  match read with
  | Return content =>
      match search content with
      | Some url => url
      | None => "NO LINK FOUND"
      end
  | Raise e => "ERROR READING FILE: " +:+ str_exn e
  end.

(** A directory: its base name, its files with what reading each one
    gives, and its subdirectories in the order [os.walk] descends. *)
#[warnings="-register-all"]
Inductive Dir : Type :=
| mkDir (name : string) (files : list (string * outcome string)) (subdirs : list Dir).

Definition dir_name (d : Dir) : string := match d with mkDir n _ _ => n end.
Definition dir_files (d : Dir) : list (string * outcome string) :=
  match d with mkDir _ f _ => f end.
Definition dir_subdirs (d : Dir) : list Dir := match d with mkDir _ _ s => s end.

(** [os.walk(top)], top-down: the directory itself, then each subtree. *)
Fixpoint walk (d : Dir) : list Dir :=
  match d with
  | mkDir _ _ subs => d :: concat (map walk subs)
  end.

Record PaperRecord : Type := mkPaperRecord {
  folder : string;
  url : string;
  downloaded : string
}.

(** The file named [Paper.md] among the entries, if there is one. *)
Fixpoint paper_md (files : list (string * outcome string)) : option (outcome string) :=
  match files with
  | [] => None
  | (n, r) :: rest => if String.eqb n "Paper.md" then Some r else paper_md rest
  end.

(** The configuration and file system [get_paper_urls] reads. *)
Record Files : Type := mkFiles {
  directories : option (gmap string string);  (* the [directories] section *)
  tree_at : string -> option Dir;             (* [os.path.isdir] and the tree *)
  pdf_present : string -> bool                (* the download for a folder *)
}.

(** The body of the [for dirpath, dirnames, filenames in os.walk] loop. *)
Definition visit (fs : Files) (d : Dir) : list PaperRecord :=
  match paper_md (dir_files d) with
  | Some read =>
      let subfolder_name := dir_name d in
      [mkPaperRecord subfolder_name (link_of read)
         (if pdf_present fs subfolder_name then "Yes" else "No")]
  | None => []
  end.

Definition scan (fs : Files) (root : Dir) : list PaperRecord :=
  concat (map (visit fs) (walk root)).

(** [get_paper_urls]; option names of a [ConfigParser] are compared in
    lower case. *)
Definition get_paper_urls (fs : Files) (directory_key : string)
  : outcome (list PaperRecord) :=
  match directories fs with
  | None => Raise (KeyError "directories")
  | Some section =>
      match section !! lower directory_key with
      | None => Return []
      | Some main_dir =>
          match tree_at fs main_dir with
          | None => Return []
          | Some root => Return (scan fs root)
          end
      end
  end.

(** The reading of the pattern line by line: the lines of a text, cut
    at the line feeds ... *)
Fixpoint lines (content : string) : list string :=
  match content with
  | EmptyString => [EmptyString]
  | String c t =>
      if is_LF c then EmptyString :: lines t
      else match lines t with
           | l :: ls => String c l :: ls
           | [] => [String c EmptyString]
           end
  end.

(** ... and the URL of the first line that, taken alone, is white space,
    [link], a colon, an http(s) URL and white space. *)
Fixpoint first_line_url (ls : list string) : option string :=
  match ls with
  | [] => None
  | l :: rest =>
      match match_here l with
      | Some u => Some u
      | None => first_line_url rest
      end
  end.

Definition spec_link_of (content : string) : string :=
  match first_line_url (lines content) with
  | Some u => u
  | None => "NO LINK FOUND"
  end.

(** A line that is only [link], or [link] and a colon, with white
    space around: the pattern, whose white space may be a line feed,
    can go on from such a line into the next ones. *)
Definition dangling (l : string) : bool :=
  match expect_ci "link" (skip_ws l) with
  | None => false
  | Some s2 =>
      match skip_ws s2 with
      | EmptyString => true
      | String c s4 =>
          if Ascii.eqb c ":"
          then match skip_ws s4 with EmptyString => true | _ => false end
          else false
      end
  end.

(** The lines in front of the first line that matches alone (all of
    them if none does). *)
Fixpoint before_match (ls : list string) : list string :=
  match ls with
  | [] => []
  | l :: rest =>
      match match_here l with
      | Some _ => []
      | None => l :: before_match rest
      end
  end.

Definition has_paper_md (d : Dir) : bool :=
  match paper_md (dir_files d) with Some _ => true | None => false end.

End util.

(** ** core/results.py: the methods of [Ok] and [Err], and [try_call] *)

Module result_methods.
Import results.

(** [unwrap]: [Ok] returns its value, [Err] raises its error (an
    [Exception], by the bound of [E]). *)
Definition unwrap {T} (r : Result T exn) : outcome T :=
  match r with
  | Ok value => Return value
  | Err error => Raise error
  end.

Definition unwrap_or {T E} (r : Result T E) (default : T) : T :=
  match r with
  | Ok value => value
  | Err _ => default
  end.

Definition map {T U E} (r : Result T E) (fn : T -> U) : Result U E :=
  match r with
  | Ok value => Ok (fn value)
  | Err error => Err error
  end.

Definition and_then {T U E} (r : Result T E) (fn : T -> Result U E) : Result U E :=
  match r with
  | Ok value => fn value
  | Err error => Err error
  end.

(** [try_call(fn, *exceptions)].  [fn] is what calling it gives; an
    exception class is what [isinstance(e, cls)] answers; no class
    given means [(Exception,)], which catches every [exn]. *)
Definition try_call {T} (fn : outcome T) (exceptions : list (exn -> bool))
  : outcome (Result T exn) :=
  match fn with
  | Return value => Return (Ok value)
  | Raise e =>
      match exceptions with
      | [] => Return (Err e)
      | _ => if existsb (fun cls => cls e) exceptions then Return (Err e) else Raise e
      end
  end.

End result_methods.

(** ** core/base.py: the other queries of [BaseRepository], and
    [BaseCRUDService] *)

Module crud.
Import base.

Section Repository.
Context {Row T V : Type} `{EqDecision V}.

(** [WHERE {id_column} = ?] *)
Definition has_id (repo : Repository Row T V) (id_column : string) (entity_id : V)
    (row : Row) : bool :=
  bool_decide (column repo row id_column = Some entity_id).

(** [get_by_id]: [fetchone()] is the first row selected, if any. *)
Definition get_by_id (repo : Repository Row T V) (id_column : string) (entity_id : V)
  : option T :=
  match List.filter (has_id repo id_column entity_id) (table_rows repo) with
  | row :: _ => Some (row_to_entity repo row)
  | [] => None
  end.

Definition get_all (repo : Repository Row T V) : list T :=
  List.map (row_to_entity repo) (table_rows repo).

(** [exists] *)
Definition exists_ (repo : Repository Row T V) (id_column : string) (entity_id : V)
  : bool :=
  match List.filter (has_id repo id_column entity_id) (table_rows repo) with
  | _ :: _ => true
  | [] => false
  end.

(** [delete]: the table without the selected rows, and
    [cursor.rowcount > 0]. *)
Definition delete (repo : Repository Row T V) (id_column : string) (entity_id : V)
  : bool * Repository Row T V :=
  let gone := List.filter (has_id repo id_column entity_id) (table_rows repo) in
  let kept := List.filter (fun row => negb (has_id repo id_column entity_id row))
                          (table_rows repo) in
  (Z.of_nat (length gone) >? 0,
   mkRepository kept (column repo) (order_rows repo) (row_to_entity repo)).

(** [BaseCRUDService.list]: a non-empty filter dict goes through the
    first page of 1000, no filter through [get_all]. *)
Definition list_ (repo : Repository Row T V) (filters : Filters V) : outcome (list T) :=
  match filters with
  | Some (_ :: _) =>
      bind (get_paginated repo 1 1000 filters None) (fun r => Return (items r))
  | _ => Return (get_all repo)
  end.

End Repository.

End crud.

(** ** llm/cache/response_cache.py: maintenance of the table *)

Module cache_admin.
Import types llm extractors.

(** [expires_at IS NOT NULL AND expires_at < ?] *)
Definition is_expired (t : Q) (row : CacheRow) : bool :=
  match row_expires_at row with
  | Some e => negb (Qle_bool t e)
  | None => false
  end.

(** [ResponseCache.delete] *)
Definition delete (self : ResponseCache) (cache_key : string) : M World bool :=
  fun w =>
    (Return (bool_decide (is_Some (cache_rows w !! cache_key))),
     mkWorld (stdpp.base.delete cache_key (cache_rows w)) (now w) (trace w)).

(** [ResponseCache.clear_expired]: [rowcount] is the number of rows
    deleted. *)
Definition clear_expired (self : ResponseCache) : M World Z :=
  fun w =>
    let gone := filter (fun kv => is_expired (now w) (snd kv) = true) (cache_rows w) in
    let kept := filter (fun kv => is_expired (now w) (snd kv) = false) (cache_rows w) in
    (Return (Z.of_nat (size gone)), mkWorld kept (now w) (trace w)).




End cache_admin.

(** ** llm/config.py: backends, the model registry, and
    [LLMClient._build_headers] *)

Module llm_config.
Import extractors.

Inductive LLMBackend : Type := LM_STUDIO | LLAMA_CPP | OPENROUTER.

Record ModelInfo : Type := mkModelInfo {
  mi_name : string;
  mi_context_window : Z;
  mi_description : string;
  recommended_for : list string
}.

Definition MODELS : list (string * ModelInfo) :=
  [("gpt-oss-20b",
    mkModelInfo "gpt-oss-20b" 8192 "GPT-OSS 20B - Default model for text extraction"
      ["extraction"; "summarization"; "general"]);
   ("gpt-oss-20b-q4_k_m",
    mkModelInfo "gpt-oss-20b-q4_k_m" 8192 "GPT-OSS 20B 4-bit quantized"
      ["extraction"; "summarization"]);
   ("gpt-oss-20b-q8_0",
    mkModelInfo "gpt-oss-20b-q8_0" 8192 "GPT-OSS 20B 8-bit quantized"
      ["extraction"; "summarization"])].

Record BackendConfig : Type := mkBackendConfig {
  bc_base_url : string;
  bc_api_key : option string;
  default_model : string;
  bc_timeout : Q;
  bc_max_retries : Z
}.

Definition BACKEND_DEFAULTS (backend : LLMBackend) : BackendConfig :=
  match backend with
  | LM_STUDIO => mkBackendConfig "http://localhost:1234/v1" None "gpt-oss-20b" 120 3
  | LLAMA_CPP => mkBackendConfig "http://localhost:8080/v1" None "gpt-oss-20b" 120 3
  | OPENROUTER =>
      mkBackendConfig "https://openrouter.ai/api/v1" (Some EmptyString)
        "gpt-oss/gpt-oss-20b" 120 3
  end.

(** The dataclass [LLMConfig] with all its fields. *)
Record LLMConfig : Type := mkLLMConfig {
  backend : LLMBackend;
  base_url : option string;
  api_key : option string;
  model : string;
  temperature : Q;
  max_tokens : Z;
  timeout : Q;
  max_retries : Z;
  cache_enabled : bool
}.

(** [if self.base_url: ...]: [None] and the empty string are falsy. *)
Definition get_base_url (self : LLMConfig) : string :=
  match base_url self with
  | Some u => if String.eqb u "" then bc_base_url (BACKEND_DEFAULTS (backend self)) else u
  | None => bc_base_url (BACKEND_DEFAULTS (backend self))
  end.

Definition get_api_key (self : LLMConfig) : option string :=
  match api_key self with
  | Some k => if String.eqb k "" then bc_api_key (BACKEND_DEFAULTS (backend self))
              else Some k
  | None => bc_api_key (BACKEND_DEFAULTS (backend self))
  end.

Definition get_model_info (self : LLMConfig) : ModelInfo :=
  default (mkModelInfo (model self) 8192 "Custom model" [])
          (dict_get MODELS (model self)).

Definition context_window (self : LLMConfig) : Z :=
  mi_context_window (get_model_info self).

Definition get_default_config : LLMConfig :=
  mkLLMConfig LM_STUDIO None None "gpt-oss-20b" (7 # 10) 4096 120 3 true.

(** [LLMClient._build_headers] *)
Definition _build_headers (config : LLMConfig) : list (string * string) :=
  let headers := [("Content-Type", "application/json")] in
  let headers :=
    match get_api_key config with
    | Some k => if String.eqb k "" then headers
                else dict_set headers "Authorization" ("Bearer " +:+ k)
    | None => headers
    end in
  match backend config with
  | OPENROUTER =>
      dict_set (dict_set headers "HTTP-Referer" "https://github.com/shannon")
               "X-Title" "Shannon"
  | _ => headers
  end.

(** What the client and the service read of a configuration. *)
Definition client_view (self : LLMConfig) : config.LLMConfig :=
  config.mkLLMConfig (get_base_url self) (model self) (temperature self)
    (max_tokens self) (max_retries self) (cache_enabled self) (context_window self).

(** [LLMClient(config, cache)]; [http] is the backend behind
    [httpx.AsyncClient]. *)
Definition LLMClient_init (config : option LLMConfig) (cache : option llm.ResponseCache)
    (http : llm.Backend) : llm.LLMClient :=
  llm.mkLLMClient (client_view (default get_default_config config)) cache http.

End llm_config.

(** ** llm/extractors/base.py: [_parse_markdown_response], and
    llm/extractors/section.py *)

Module markdown.
Import chunker util templates extractors.

(** [s.rstrip()], [s.strip()] and [s[n:]]; white space is that of
    [str.isspace] on code points below 256, the same set as [\s]. *)
Fixpoint rstrip (s : string) : string :=
  match s with
  | EmptyString => EmptyString
  | String c t =>
      match rstrip t with
      | EmptyString => if is_space c then EmptyString else String c EmptyString
      | String c' t' => String c (String c' t')
      end
  end.

Definition strip (s : string) : string := rstrip (skip_ws s).

Fixpoint drop_chars (n : nat) (s : string) : string :=
  match n, s with
  | O, _ => s
  | S n', String _ t => drop_chars n' t
  | S _, EmptyString => EmptyString
  end.

(** The variables of the loop of [_parse_markdown_response]. *)
Record ParseState : Type := mkParseState {
  sections : list (string * string);
  current_section : option string;
  current_content : list string
}.

(** [if current_section: sections[current_section] = ...]; [None] and
    the empty name are falsy. *)
Definition store (st : ParseState) : list (string * string) :=
  match current_section st with
  | Some name =>
      if String.eqb name "" then sections st
      else dict_set (sections st) name
             (strip (String.concat LF (current_content st)))
  | None => sections st
  end.

(** The body of [for line in response.split("\n")]. *)
Definition parse_line (st : ParseState) (line : string) : ParseState :=
  if startswith "## " line then
    mkParseState (store st)
      (Some (replace (lower (strip (drop_chars 3 line))) " " "_")) []
  else
    match current_section st with
    | Some name =>
        if String.eqb name "" then st
        else mkParseState (sections st) (current_section st)
               (current_content st ++ [line])
    | None => st
    end.

Definition _parse_markdown_response (response : string) : list (string * string) :=
  store (fold_left parse_line (lines response) (mkParseState [] None [])).

(** [SectionExtractor._extract_list] *)
Definition bullet (line : string) : option string :=
  let line := strip line in
  if (startswith "- " line || startswith "* " line)%bool
  then Some (strip (drop_chars 2 line))
  else None.

Definition _extract_list (text : string) : list string :=
  omap bullet (lines text).

(** [SectionExtractor._extract_concepts]: the same loop on the lines of
    the [concepts_introduced] section, with [###] headings, appending
    to a list. *)
Record ConceptState : Type := mkConceptState {
  concepts : list (string * string);
  current_name : option string;
  concept_content : list string
}.

Definition store_concept (st : ConceptState) : list (string * string) :=
  match current_name st with
  | Some name =>
      if String.eqb name "" then concepts st
      else concepts st ++ [(name, strip (String.concat LF (concept_content st)))]
  | None => concepts st
  end.

Definition concept_line (st : ConceptState) (line : string) : ConceptState :=
  if startswith "### " line then
    mkConceptState (store_concept st) (Some (strip (drop_chars 4 line))) []
  else
    match current_name st with
    | Some name =>
        if String.eqb name "" then st
        else mkConceptState (concepts st) (current_name st)
               (concept_content st ++ [line])
    | None => st
    end.

Definition _extract_concepts (sections : list (string * string))
  : list (string * string) :=
  let concepts_text := default EmptyString (dict_get sections "concepts_introduced") in
  store_concept (fold_left concept_line (lines concepts_text)
                   (mkConceptState [] None [])).

(** [SectionExtractor._process_response]; [_extract_formulas] is the
    regular-expression scan for LaTeX. *)
Definition _process_response (_extract_formulas : string -> list pyval)
    (response : string) : pyval :=
  let sections := _parse_markdown_response response in
  VDict
    [("raw_markdown", VStr response);
     ("sections", VDict (map (fun kv => (fst kv, VStr (snd kv))) sections));
     ("summary", VStr (default EmptyString (dict_get sections "summary")));
     ("key_points",
      VList (map VStr (_extract_list
                         (default EmptyString (dict_get sections "key_points")))));
     ("concepts",
      VList (map (fun c => VDict [("name", VStr (fst c)); ("definition", VStr (snd c))])
                 (_extract_concepts sections)));
     ("formulas", VList (_extract_formulas response))].

End markdown.

(** ** services/extraction_service.py: [ExtractionService.__init__] *)

Module service_init.
Import templates llm extractors chunker extraction_service llm_config.

(** The LLM fields of [Settings], and [Settings.get_llm_config]. *)
Record Settings : Type := mkSettings {
  llm_backend : LLMBackend;
  llm_base_url : option string;
  llm_api_key : option string;
  llm_model : string;
  llm_temperature : Q;
  llm_max_tokens : Z;
  llm_timeout : Q;
  llm_max_retries : Z;
  llm_cache_enabled : bool;
  llm_cache_ttl : option Z
}.

Definition get_llm_config (self : Settings) : LLMConfig :=
  mkLLMConfig (llm_backend self) (llm_base_url self) (llm_api_key self)
    (llm_model self) (llm_temperature self) (llm_max_tokens self)
    (llm_timeout self) (llm_max_retries self) (llm_cache_enabled self).

(** [TextChunker(token_counter, config=None)] *)
Definition TextChunker_init (token_counter : string -> Z)
    (config : option ChunkingConfig) : TextChunker :=
  mkTextChunker token_counter (default default_config config).

(** The module constants the extractor classes refer to, and the two
    scans they leave to [json] and [re]. *)
Record ExtractorParts : Type := mkExtractorParts {
  SYSTEM_ACADEMIC_EXPERT : PromptTemplate;
  SYSTEM_NOTE_WRITER : PromptTemplate;
  EXTRACT_PAPER_STRUCTURE : PromptTemplate;
  EXTRACT_SECTION_NOTES : PromptTemplate;
  _parse_json_response : string -> outcome pyval;
  _extract_formulas : string -> list pyval
}.

(** [PaperExtractor(client)] and [SectionExtractor(client)] *)
Definition PaperExtractor_init (parts : ExtractorParts) (client : LLMClient) : Extractor :=
  mkExtractor client (SYSTEM_ACADEMIC_EXPERT parts) "full_paper"
    (EXTRACT_PAPER_STRUCTURE parts) (_parse_json_response parts)
    ["summary"; "key_contributions"; "sections"; "main_concepts"; "suggested_tags"].

Definition SectionExtractor_init (parts : ExtractorParts) (client : LLMClient) : Extractor :=
  mkExtractor client (SYSTEM_NOTE_WRITER parts) "section"
    (EXTRACT_SECTION_NOTES parts)
    (fun response => Return (markdown._process_response (_extract_formulas parts) response))
    ["summary"; "key_points"].

(** [ExtractionService(paper_service, page_service, note_service,
    llm_config)]: the configuration given or the one of the settings,
    a cache without expiry when caching is enabled, the client, the
    chunker on the client's counter with the default configuration,
    and the two extractors. *)
Definition ExtractionService_init (settings : Settings) (llm_config : option LLMConfig)
    (http : Backend) (parts : ExtractorParts) (env : Environment)
  : ExtractionService :=
  let config := default (get_llm_config settings) llm_config in
  let cache := if cache_enabled config then Some (mkResponseCache None) else None in
  let client := LLMClient_init (Some config) cache http in
  mkService (client_view config) client
    (TextChunker_init count_tokens None)
    (PaperExtractor_init parts client) (SectionExtractor_init parts client) env.

End service_init.

(** ** llm/extractors/base.py: [BaseExtractor.validate] *)

Module extractor_checks.
Import extractors.

(** [result.success and result.confidence > 0.5] *)
Definition validate (result : ExtractionResult) : bool :=
  (success result && negb (Qle_bool (confidence result) (5 # 10)))%bool.

End extractor_checks.

(* ===================================================================== *)
(** * Part II.  Vocabulary of the statements, and sample inputs           *)
(* ===================================================================== *)

(** ** The LLM client *)

Section ClientVocabulary.
Import types config llm.
Context `{Runtime}.

(** The failures the loop retries, and the exception each one is. *)
Definition retryable (a : HttpResult) : bool :=
  match a with
  | HttpStatus status_code _ => status_code >=? 500
  | HttpRequestFailed _ => true
  | _ => false
  end.

Definition error_of (a : HttpResult) : option exn :=
  match a with
  | HttpStatus status_code msg => Some (HTTPStatusError status_code msg)
  | HttpRequestFailed msg => Some (RequestError msg)
  | HttpOther e => Some e
  | HttpJson _ => None
  end.

(** [k] attempts that failed and were followed by their backoff, the
    first of them being attempt number [a]. *)
Fixpoint backoff_trace (payload : Payload) (a : Z) (k : nat) : list Event :=
  match k with
  | O => []
  | S k' => POST payload :: Sleep (2 ^ a) :: backoff_trace payload (a + 1) k'
  end.

(** The answers to the POSTs a loop entered in world [w] will make. *)
Definition answer (self : LLMClient) (payload : Payload) (w : World) (i : nat)
  : HttpResult :=
  _http self (posts (trace w) + i)%nat payload.

(** The last error after [k] failures. *)
Definition last_error_after (self : LLMClient) (payload : Payload) (w : World)
    (last : option exn) (k : nat) : option exn :=
  match k with
  | O => last
  | S k' => error_of (answer self payload w k')
  end.

(** What [complete] computes before the loop. *)
Definition effective_temperature (self : LLMClient) (temperature : option Q) : Q :=
  default (config.temperature (_config self)) temperature.

Definition uses_cache (self : LLMClient) (temperature : option Q) : bool :=
  (bool_decide (is_Some (_cache self))
   && Qeq_bool (effective_temperature self temperature) 0)%bool.

Definition payload_of (self : LLMClient) (messages : list LLMMessage)
    (temperature : option Q) (max_tokens : option Z) (stop : option (list string))
  : Payload :=
  mkPayload (model (_config self)) (map to_dict messages)
    (effective_temperature self temperature)
    (or_int max_tokens (config.max_tokens (_config self)))
    (match stop with Some (_ :: _) => stop | _ => None end).

Definition key_of (self : LLMClient) (messages : list LLMMessage)
    (temperature : option Q) : string :=
  _compute_cache_key self messages (effective_temperature self temperature).

(** A row that [get] would find and still accept. *)
Definition live_row (w : World) (key : string) : bool :=
  match cache_rows w !! key with
  | Some row =>
      match row_expires_at row with
      | None => true
      | Some t => negb (Qle_bool t (now w))
      end
  | None => false
  end.

(** The world in which the request loop starts, when the call gets
    that far: a live cache row stops a deterministic request before. *)
Definition loop_entry (self : LLMClient) (messages : list LLMMessage)
    (temperature : option Q) (w : World) : option World :=
  if uses_cache self temperature then
    if live_row w (key_of self messages temperature) then None
    else Some (mkWorld (cache_rows w) (now w)
                 (trace w ++ [CacheGet (key_of self messages temperature)]))
  else Some w.

(** Without the cache branch, the loop only POSTs its payload and
    sleeps, and leaves the table alone. *)
Definition request_event (payload : Payload) (ev : Event) : Prop :=
  ev = POST payload \/ exists s, ev = Sleep s.

End ClientVocabulary.

(** ** Keyword arguments *)

(** The dict passed as [**kwargs] has the key [self]. *)
Definition binds_self {A} (kwargs : list (string * A)) : bool :=
  existsb (String.eqb "self") (map fst kwargs).

(** ** The extraction service *)

Section ProgressVocabulary.
Import extraction_service.

(** [m], run in [w], publishes events whose progress fractions are a
    prefix of [L]. *)
Definition emits_prefix {A} (m : M SWorld A) (w : SWorld) (L : list (string * Q))
  : Prop :=
  exists evs, published (snd (m w)) = published w ++ evs
              /\ progress_of evs `prefix_of` L.

(** The same, and the fractions are all of [L] when [m] returns. *)
Definition emits {A} (m : M SWorld A) (w : SWorld) (L : list (string * Q)) : Prop :=
  exists evs, published (snd (m w)) = published w ++ evs
              /\ progress_of evs `prefix_of` L
              /\ (forall a, fst (m w) = Return a -> progress_of evs = L).

(** The indices the chunk loop passes to its progress expression. *)
Definition indices (i : Z) (k : nat) : list Z :=
  map (fun j => i + Z.of_nat j) (seq 0 k).

End ProgressVocabulary.

(** ** The paper scraper *)

Section ScraperVocabulary.
Import chunker util.

(** A text without line feed, and what may follow a line. *)
Fixpoint no_lf (s : string) : bool :=
  match s with
  | EmptyString => true
  | String c t => (negb (is_LF c) && no_lf t)%bool
  end.

Definition line_end (rest : string) : Prop :=
  rest = EmptyString \/ exists more, rest = String "010" more.

(** The text whose lines are [ls]. *)
Fixpoint join (ls : list string) : string :=
  match ls with
  | [] => EmptyString
  | [l] => l
  | l :: ls' => l +:+ String "010" (join ls')
  end.

(** The reading of the pattern with white space that may be a line
    feed: the URL of the first line from whose start the pattern
    matches the text that begins there, this line and, where the match
    runs over line ends, the following ones. *)
Fixpoint first_match (ls : list string) : option string :=
  match ls with
  | [] => None
  | l :: rest =>
      match match_here (join (l :: rest)) with
      | Some u => Some u
      | None => first_match rest
      end
  end.

(** What the record of a directory must be.  Its folder is the
    directory's name.  If [Paper.md] could not be read, its URL is the
    error text.  Otherwise its URL is that of the first match, or the
    sentinel; and when no line in front of the first line that matches
    alone is dangling, that is the URL of the first line that matches
    alone, or the sentinel. *)
Definition record_of (d : Dir) (r : PaperRecord) : Prop :=
  folder r = dir_name d
  /\ match paper_md (dir_files d) with
     | None => False
     | Some (Raise e) => url r = "ERROR READING FILE: " +:+ str_exn e
     | Some (Return content) =>
         url r = default "NO LINK FOUND" (first_match (lines content))
         /\ (Forall (fun l => dangling l = false) (before_match (lines content)) ->
             url r = spec_link_of content)
     end.

End ScraperVocabulary.

(** ** The event bus *)

Section BusVocabulary.
Import events.
Context {Ev W : Type}.





End BusVocabulary.

(** ** Sample inputs *)

(** A table of five rows, three of them matching the filter, read in
    pages of two. *)
Definition demo_repo : base.Repository (list (string * Z)) (list (string * Z)) Z :=
  base.mkRepository
    [[("id", 1); ("k", 7)]; [("id", 2); ("k", 8)]; [("id", 3); ("k", 7)];
     [("id", 4); ("k", 7)]; [("id", 5); ("k", 9)]]
    (fun row c => snd <$> List.find (fun kv => String.eqb (fst kv) c) row)
    (fun _ rows => rows)
    (fun row => row).

(** Events that are their own type name; three handlers, subscribed as
    [h1] and [h2] to a type and [hw] to the wildcard. *)
#[export] Instance string_event : events.Event string := fun e => e.

Definition h1 : events.EventHandler := events.mkHandler 1.

Definition h2 : events.EventHandler := events.mkHandler 2.

Definition hw : events.EventHandler := events.mkHandler 3.

Definition demo_bus : events.EventBus :=
  events.subscribe
    (events.subscribe (events.subscribe (events.mkEventBus ∅ []) "T" h1) "*" hw)
    "T" h2.




(** A runtime whose hash is the identity. *)
Definition demo_runtime : llm.Runtime := llm.mkRuntime (fun s => s) (fun _ => "0.0").

(** A backend that answers 503, then refuses the connection, then
    answers 404; and one that always answers 503.  Neither client has
    a cache. *)
Definition flaky_client : llm.LLMClient :=
  llm.mkLLMClient config.get_default_config None
    (fun n _ => match n with
                | O => llm.HttpStatus 503 "Service Unavailable"
                | S O => llm.HttpRequestFailed "connection refused"
                | _ => llm.HttpStatus 404 "Not Found"
                end).

Definition down_client : llm.LLMClient :=
  llm.mkLLMClient config.get_default_config None
    (fun _ _ => llm.HttpStatus 503 "Service Unavailable").

Definition empty_world : llm.World := llm.mkWorld ∅ 0 [].

Definition hello : list types.LLMMessage := [types.mkLLMMessage types.USER "hi"].

(** A client with a cache, and a backend that answers every POST with
    one choice. *)
Definition answering_client : llm.LLMClient :=
  llm.mkLLMClient config.get_default_config (Some (llm.mkResponseCache None))
    (fun _ _ => llm.HttpJson
                  (llm.mkBody [llm.mkChoice "hello" (Some "stop")] None
                     {[ "prompt_tokens" := 3; "completion_tokens" := 1 ]})).

(** An extractor whose template needs [title] and [content], on the
    client that has a cache. *)
Definition demo_extractor : extractors.Extractor :=
  extractors.mkExtractor answering_client
    (templates.mkPromptTemplate "system" "You are an expert." "")
    "full_paper"
    (templates.mkPromptTemplate "paper" "Title: {title}. Text: {content}" "")
    (fun r => Return (extractors.VDict [("summary", extractors.VStr r)]))
    ["summary"].

(** The chunker as the service builds it (the client's counter, the
    default configuration), and one configured without overlap. *)
Definition service_chunker : chunker.TextChunker :=
  chunker.mkTextChunker llm.count_tokens chunker.default_config.

Definition no_overlap_chunker : chunker.TextChunker :=
  chunker.mkTextChunker llm.count_tokens
    (chunker.mkChunkingConfig 4000 0 (chunker.LF +:+ chunker.LF)
       [chunker.LF; ". "; " "]).

(** A service whose backend is healthy and answers every completion,
    and whose parser returns [text]; the chunker and the context
    window are left open. *)
Definition section_extractor : extractors.Extractor :=
  extractors.mkExtractor answering_client
    (templates.mkPromptTemplate "system" "You take notes." "")
    "section"
    (templates.mkPromptTemplate "section"
       "{paper_title} / {section_title} ({section_type}): {content}" "")
    (fun r => Return (extractors.VDict
                        [("sections", extractors.VDict [("summary", extractors.VStr r)]);
                         ("concepts", extractors.VList [])]))
    ["summary"].

Definition demo_service (chunker_ : chunker.TextChunker) (window : Z) (text : string)
  : extraction_service.ExtractionService :=
  extraction_service.mkService
    (config.mkLLMConfig "http://localhost:1234/v1" "gpt-oss-20b" (7 # 10) 4096 3
       true window)
    answering_client chunker_ demo_extractor section_extractor
    (extraction_service.mkEnvironment (Return 200) (fun _ => true)
       (fun _ => Return text) (fun s => s)).

Definition demo_input : extraction_service.PaperExtractionInput :=
  extraction_service.mkInput "p1" "paper.pdf" "T" ["full_paper"].

Definition demo_sworld : extraction_service.SWorld :=
  extraction_service.mkSWorld empty_world [].

Definition progress_published (svc : extraction_service.ExtractionService) (fuel : nat)
  : list (string * Q) :=
  extraction_service.progress_of
    (extraction_service.published
       (snd (extraction_service.extract_paper (H := demo_runtime) svc demo_input
               fuel demo_sworld))).

(** A vault with one folder, whose [Paper.md] splits the link over
    two lines; and a vault of four folders: a proper link line, no
    [Paper.md], a [Paper.md] without link, an unreadable [Paper.md]. *)
Definition split_link : string := "link:" +:+ chunker.LF +:+ "http://a.b".

Definition split_vault : util.Files :=
  util.mkFiles (Some {[ "papers" := "Papers" ]})
    (fun p => if String.eqb p "Papers"
              then Some (util.mkDir "Papers" []
                           [util.mkDir "Attention" [("Paper.md", Return split_link)] []])
              else None)
    (fun _ => false).

Definition demo_vault : util.Files :=
  util.mkFiles (Some {[ "papers" := "Papers" ]})
    (fun p => if String.eqb p "Papers"
              then Some (util.mkDir "Papers" [("README.md", Return "papers")]
                           [util.mkDir "Attention"
                              [("Paper.md",
                                Return ("# Attention" +:+ chunker.LF
                                        +:+ "  LINK:  https://example.org/paper.pdf  "
                                        +:+ chunker.LF +:+ "notes"))] [];
                            util.mkDir "Notes" [("notes.md", Return "link: http://x.y")] [];
                            util.mkDir "Draft" [("Paper.md", Return "no link here")] [];
                            util.mkDir "Locked"
                              [("Paper.md", Raise (OtherException "Permission denied"))] []])
              else None)
    (fun n => String.eqb n "Attention").

(** ** Vocabulary of the further properties *)

Section RepositoryVocabulary.
Import base.
Context {Row T V : Type} `{EqDecision V}.

(** The items of a page, and what the SELECT gives without LIMIT and
    OFFSET. *)
Definition page_items (repo : Repository Row T V) (page page_size : Z)
    (filters : Filters V) (order_by : option string) : list T :=
  match get_paginated repo page page_size filters order_by with
  | Return r => items r
  | Raise _ => []
  end.

(** The rows of the SELECT before LIMIT and OFFSET. *)
Definition ordered (repo : Repository Row T V) (filters : Filters V)
    (order_by : option string) : list Row :=
  match order_by with
  | Some ob => if String.eqb ob "" then where_ repo filters
               else order_rows repo ob (where_ repo filters)
  | None => where_ repo filters
  end.

Definition selected (repo : Repository Row T V) (filters : Filters V)
    (order_by : option string) : list T :=
  map (row_to_entity repo) (execute repo (mkQuery filters order_by (-1) 0)).

End RepositoryVocabulary.

(** How often the handler [i] is registered in a list. *)
Definition count_id (i : nat) (l : list events.EventHandler) : nat :=
  length (List.filter (fun h => Nat.eqb (events.h_id h) i) l).

(** [s.endswith(suffix)]: [suffix] is [s] or the end of its tail. *)
Fixpoint endswith (suffix s : string) : bool :=
  (String.eqb suffix s
   || match s with
      | EmptyString => false
      | String _ t => endswith suffix t
      end)%bool.

(** The separators [_find_chunk_end] tries, in order. *)
Definition separators (cfg : chunker.ChunkingConfig) : list string :=
  chunker.separator cfg :: chunker.fallback_separators cfg.

(** The texts of the chunks, one after the other. *)
Definition chunk_texts (chunks : list chunker.ChunkInfo) : string :=
  String.concat "" (map chunker.text chunks).

(** Every character of [s] is a word character. *)
Fixpoint all_word (s : string) : bool :=
  match s with
  | EmptyString => true
  | String c t => (templates.is_word c && all_word t)%bool
  end.

(** The placeholder [render] replaces for a key, and the occurrence of
    a string in another. *)
Definition placeholder (key : string) : string := "{" +:+ key +:+ "}".

Definition occurs (old s : string) : Prop :=
  exists pre post, s = pre +:+ old +:+ post.

(** The key [_deduplicate] compares items by: the lower-cased value of
    the field, when the item is a dict and the value a string. *)
Definition item_key (key : string) (item : extractors.pyval) : option string :=
  match extraction_service.py_get item key (extractors.VStr "") with
  | Return (extractors.VStr s) => Some (lower s)
  | _ => None
  end.

(** The events of a run before its closing event: progress only. *)
Definition is_progress (ev : extraction_service.ServiceEvent) : Prop :=
  match ev with
  | extraction_service.ExtractionProgressEvent _ _ _ _ => True
  | _ => False
  end.

Section ProtocolVocabulary.
Import results extraction_service.

(** [m], run in [w], publishes progress events only. *)
Definition quiet {A} (m : M SWorld A) (w : SWorld) : Prop :=
  exists evs, Forall is_progress evs
              /\ published (snd (m w)) = published w ++ evs.

(** The event that closes a successful [try] body. *)
Definition closing (pid : string)
    (r : outcome (option (Result ExtractedPaper exn))) : list ServiceEvent :=
  match r with
  | Return (Some (Ok extracted)) =>
      [ExtractionCompletedEvent pid true
         (Z.of_nat (length (suggested_pages extracted))) 0]
  | _ => []
  end.

(** [m] publishes progress events, and then the closing event exactly
    when it returns [Ok]. *)
Definition closes (pid : string)
    (m : M SWorld (option (Result ExtractedPaper exn))) (w : SWorld) : Prop :=
  exists evs, Forall is_progress evs
              /\ published (snd (m w)) = published w ++ evs ++ closing pid (fst (m w)).

End ProtocolVocabulary.

(** A text of 16772 characters: 4193 estimated tokens. *)
Definition long_paper : string :=
  string_of_list_ascii (repeat "a"%char (Z.to_nat 16772)).

Definition demo_settings : service_init.Settings :=
  service_init.mkSettings llm_config.LM_STUDIO None None "gpt-oss-20b" (7 # 10) 4096
    120 3 true None.

Definition demo_parts : service_init.ExtractorParts :=
  service_init.mkExtractorParts
    (templates.mkPromptTemplate "system" "You are an expert." "")
    (templates.mkPromptTemplate "system" "You take notes." "")
    (templates.mkPromptTemplate "paper" "Title: {title}. Text: {content}" "")
    (templates.mkPromptTemplate "section"
       "{paper_title} / {section_title} ({section_type}): {content}" "")
    (fun r => Return (extractors.VDict [("summary", extractors.VStr r)]))
    (fun _ => []).

Definition demo_env (text : string) : extraction_service.Environment :=
  extraction_service.mkEnvironment (Return 200) (fun _ => true)
    (fun _ => Return text) (fun s => s).

(** Concepts named twice, in different cases, and one without a name;
    and a result with a section, a concept and an algorithm. *)
Definition demo_concepts : list extractors.pyval :=
  [extractors.VDict [("name", extractors.VStr "Entropy")];
   extractors.VDict [("name", extractors.VStr "entropy")];
   extractors.VDict [("definition", extractors.VStr "unnamed")];
   extractors.VDict [("name", extractors.VStr "Channel")]].

Definition demo_result : extractors.ExtractionResult :=
  extractors.mkExtractionResult "full_paper" true
    (extractors.VDict
       [("sections", extractors.VDict [("key_points", extractors.VStr "- one")]);
        ("main_concepts",
         extractors.VList [extractors.VDict [("name", extractors.VStr "Entropy")]]);
        ("algorithms",
         extractors.VList [extractors.VDict [("name", extractors.VStr "Huffman")]])])
    (7 # 10) "" None [].

(** A text without white space. *)
Fixpoint no_space (s : string) : bool :=
  match s with
  | EmptyString => true
  | String c t => (negb (util.is_space c) && no_space t)%bool
  end.

(** A text without the blank character. *)
Fixpoint no_blank (s : string) : bool :=
  match s with
  | EmptyString => true
  | String c t => (negb (Ascii.eqb c " ") && no_blank t)%bool
  end.

Section MarkdownVocabulary.
Import markdown.

(** What the loop keeps true of its variables. *)
Definition section_ok (kv : string * string) : Prop :=
  fst kv <> EmptyString /\ no_blank (fst kv) = true /\ strip (snd kv) = snd kv.

Definition parse_inv (st : ParseState) : Prop :=
  NoDup (map fst (sections st))
  /\ Forall section_ok (sections st)
  /\ forall name, current_section st = Some name -> no_blank name = true.

End MarkdownVocabulary.

(* ===================================================================== *)
(** * Part III.  Properties                                               *)
(* ===================================================================== *)

(** ** collect_results *)

Section CollectResults.
Import results.
Context {T E : Type}.

Lemma collect_loop_all_ok (vs acc : list T) :
  collect_loop (map (@Ok T E) vs) acc = Ok (acc ++ vs).
Proof.
  revert acc; induction vs as [|v vs IH]; intros acc; simpl.
  - by rewrite app_nil_r.
  - rewrite IH. by rewrite <- app_assoc.
Qed.

Lemma collect_loop_first_err (vs acc : list T) (e : E) (post : list (Result T E)) :
  collect_loop (map (@Ok T E) vs ++ Err e :: post) acc = Err e.
Proof.
  revert acc; induction vs as [|v vs IH]; intros acc; simpl; [done | apply IH].
Qed.

(** Every list of results is either all [Ok], or splits at its first
    [Err]. *)
Lemma results_shape (rs : list (Result T E)) :
  (exists vs e post, rs = map (@Ok T E) vs ++ Err e :: post)
  \/ (exists vs, rs = map (@Ok T E) vs).
Proof.
  induction rs as [|r rs IH].
  - right. by exists [].
  - destruct r as [v|e].
    + destruct IH as [(vs & e & post & ->) | (vs & ->)].
      * left. by exists (v :: vs), e, post.
      * right. by exists (v :: vs).
    + left. by exists [], e, rs.
Qed.

(** C9.  For every list of results, either some element is an [Err]
    and [collect_results] returns [Err] of the error of the first one
    (the elements before it are all [Ok]), or every element is an [Ok]
    and it returns [Ok] of their values in input order. *)
Theorem collect_results_first_err_or_all_values (rs : list (Result T E)) :
  (exists vs e post,
      rs = map (@Ok T E) vs ++ Err e :: post /\ collect_results rs = Err e)
  \/ (exists vs, rs = map (@Ok T E) vs /\ collect_results rs = Ok vs).
Proof.
  destruct (results_shape rs) as [(vs & e & post & ->) | (vs & ->)].
  - left. exists vs, e, post. split; [done|]. apply collect_loop_first_err.
  - right. exists vs. split; [done|]. apply (collect_loop_all_ok vs []).
Qed.

End CollectResults.

(** The two usages of the docstring. *)
Example collect_results_docstring :
  results.collect_results (T := Z) (E := string)
    [results.Ok 1; results.Ok 2; results.Ok 3] = results.Ok [1; 2; 3]
  /\ results.collect_results
       [results.Ok 1; results.Err "oops"; results.Ok 3] = results.Err "oops".
Proof. split; reflexivity. Qed.

(** ** Pagination *)

Section Pagination.
Import base.

(** The integer expression of [get_paginated] is the ceiling of the
    quotient. *)
Lemma ceil_div_floor (t p : Z) : 1 <= p -> (t + p - 1) / p = ceil_div t p.
Proof.
  intros Hp. unfold ceil_div, Qceiling, Qfloor.
  destruct p as [|p|p]; try lia.
  unfold Qdiv, Qinv, Qmult, Qopp, inject_Z; simpl.
  rewrite Z.mul_1_r.
  set (d := Z.pos p) in *.
  assert (Hd : 0 < d) by (subst d; lia).
  symmetry. apply Z.opp_inj. rewrite Z.opp_involutive.
  symmetry.
  apply (Z.div_unique_pos _ _ _ (- t - d * - ((t + d - 1) / d))).
  - pose proof (Z.mul_div_le (t + d - 1) d Hd).
    pose proof (Z.mul_succ_div_gt (t + d - 1) d Hd). lia.
  - lia.
Qed.

Context {Row T V : Type} `{EqDecision V}.

(** C8.  For page >= 1 and page_size >= 1 the query carries the offset
    (page-1)*page_size, and the call returns a result whose total is
    the filtered row count, whose total_pages is the ceiling of
    total/page_size, whose has_next holds exactly when
    page < total_pages and whose has_previous holds exactly when
    page > 1. *)
Theorem get_paginated_pages (repo : Repository Row T V) (page page_size : Z)
    (filters : Filters V) (order_by : option string) :
  1 <= page -> 1 <= page_size ->
  q_offset (paginated_query page page_size filters order_by)
    = (page - 1) * page_size
  /\ exists r,
      get_paginated repo page page_size filters order_by = Return r
      /\ items r = map (row_to_entity repo)
                     (execute repo (paginated_query page page_size filters order_by))
      /\ total r = count repo filters
      /\ total_pages r = ceil_div (count repo filters) page_size
      /\ (has_next r = true <-> page < total_pages r)
      /\ (has_previous r = true <-> page > 1).
Proof.
  intros Hpage Hsize. split; [reflexivity|].
  unfold get_paginated.
  destruct (page_size =? 0) eqn:Hz; [lia|].
  eexists. split; [reflexivity|]. simpl.
  repeat split; try (by apply ceil_div_floor).
  - unfold has_next; simpl. lia.
  - unfold has_next; simpl. lia.
  - unfold has_previous; simpl. lia.
  - unfold has_previous; simpl. lia.
Qed.

End Pagination.

(** Page 2 of the three matching rows of [demo_repo], two per page. *)
Lemma get_paginated_pages_witness :
  1 <= 2 /\ 1 <= 2
  /\ exists r,
      base.get_paginated demo_repo 2 2 (Some [("k", 7)]) None = Return r
      /\ base.items r = [[("id", 4); ("k", 7)]]
      /\ base.total r = 3 /\ base.total_pages r = 2
      /\ base.has_next r = false /\ base.has_previous r = true.
Proof.
  split; [lia|]. split; [lia|].
  destruct (get_paginated_pages demo_repo 2 2 (Some [("k", 7)]) None)
    as (_ & r & Hr & _); [lia | lia |].
  exists r. split; [exact Hr|].
  vm_compute in Hr. injection Hr as <-. vm_compute. auto.
Defined.

(** ** The event bus *)

Section EventBusFacts.
Import events.
Context {Ev W : Type} `{Event Ev}.

(** Reading a key may add an empty entry, which registers nothing. *)
Lemma getitem_registered (bus : EventBus) (key : string) :
  fst (getitem bus key) = registered bus key
  /\ forall k, registered (snd (getitem bus key)) k = registered bus k.
Proof.
  unfold getitem, registered.
  destruct (subscribers bus !! key) as [l|] eqn:Hk; simpl.
  - done.
  - split; [done|]. intros k.
    destruct (decide (key = k)) as [->|Hne].
    + by rewrite lookup_insert_eq, Hk.
    + by rewrite lookup_insert_ne.
Qed.

Lemma getitem_cleared (bus : EventBus) (key : string) :
  cleared (snd (getitem bus key)) = cleared bus.
Proof. unfold getitem. by destruct (subscribers bus !! key). Qed.

(** The list object of a key holds the handlers registered under it. *)
Lemma contents_ref (bus : EventBus) (key : string) :
  contents bus (ref bus key) = registered bus key.
Proof. unfold contents, ref. simpl. by rewrite Nat.eqb_refl. Qed.







End EventBusFacts.




(** ** The LLM client: retries *)

Lemma posts_app (t1 t2 : list llm.Event) :
  llm.posts (t1 ++ t2) = (llm.posts t1 + llm.posts t2)%nat.
Proof. unfold llm.posts. by rewrite List.filter_app, length_app. Qed.

(** Counting the POSTs of a trace that ends in known events. *)
Ltac count_posts :=
  simpl; rewrite ?posts_app; unfold llm.posts; simpl;
  rewrite ?List.filter_app, ?length_app; simpl; lia.

Section ClientRetries.
Import types config llm.
Context `{Runtime}.

Lemma posts_backoff_trace (payload : Payload) (a : Z) (k : nat) :
  posts (backoff_trace payload a k) = k.
Proof.
  revert a; induction k as [|k IH]; intros a; [done|].
  simpl. unfold posts in *. simpl. by rewrite IH.
Qed.

Lemma backoff_trace_snoc (payload : Payload) (a : Z) (k : nat) :
  backoff_trace payload a (S k)
  = backoff_trace payload a k ++ [POST payload; Sleep (2 ^ (a + Z.of_nat k))].
Proof.
  revert a; induction k as [|k IH]; intros a.
  - simpl. by rewrite Z.add_0_r.
  - change (backoff_trace payload a (S (S k)))
      with (POST payload :: Sleep (2 ^ a) :: backoff_trace payload (a + 1) (S k)).
    rewrite IH. replace (a + 1 + Z.of_nat k) with (a + Z.of_nat (S k)) by lia.
    reflexivity.
Qed.

(** One failed, retried attempt. *)
Lemma retry_loop_step (self : LLMClient) (payload : Payload) (uc : bool)
    (key : string) (remaining : nat) (attempt : Z) (last : option exn)
    (w : World) (e : exn) :
  retryable (_http self (posts (trace w)) payload) = true ->
  error_of (_http self (posts (trace w)) payload) = Some e ->
  retry_loop self payload uc key (S remaining) attempt last w
  = retry_loop self payload uc key remaining (attempt + 1) (Some e)
      (mkWorld (cache_rows w) (now w + inject_Z (2 ^ attempt))%Q
               (trace w ++ [POST payload; Sleep (2 ^ attempt)])).
Proof.
  intros Hr He. simpl.
  destruct (_http self (posts (trace w)) payload) as [d|c m|m|x];
    simpl in Hr, He; try discriminate.
  - rewrite Hr. injection He as <-.
    unfold mbind, log, sleep; simpl. by rewrite <- app_assoc.
  - injection He as <-.
    unfold mbind, log, sleep; simpl. by rewrite <- app_assoc.
Qed.

(** [k] retryable failures in a row lead to attempt [k], after [k]
    backoffs. *)
Lemma retry_loop_skip (self : LLMClient) (payload : Payload) (uc : bool)
    (key : string) (k remaining : nat) (attempt : Z) (last : option exn)
    (w : World) :
  (forall i, (i < k)%nat -> retryable (answer self payload w i) = true) ->
  exists t,
    retry_loop self payload uc key (k + remaining) attempt last w
    = retry_loop self payload uc key remaining (attempt + Z.of_nat k)
        (last_error_after self payload w last k)
        (mkWorld (cache_rows w) t (trace w ++ backoff_trace payload attempt k)).
Proof.
  revert attempt last w. induction k as [|k IH]; intros attempt last w Hall.
  - exists (now w). simpl. rewrite Z.add_0_r, app_nil_r. by destruct w.
  - assert (H0 : retryable (answer self payload w 0) = true) by (apply Hall; lia).
    unfold answer in H0. rewrite Nat.add_0_r in H0.
    destruct (error_of (_http self (posts (trace w)) payload)) as [e|] eqn:He;
      [| by destruct (_http self (posts (trace w)) payload)].
    change (S k + remaining)%nat with (S (k + remaining)).
    rewrite (retry_loop_step _ _ _ _ _ _ _ _ e H0 He).
    set (w1 := mkWorld _ _ _).
    assert (Hp : posts (trace w1) = S (posts (trace w))).
    { subst w1; simpl. rewrite posts_app. unfold posts at 2; simpl. lia. }
    destruct (IH (attempt + 1) (Some e) w1) as [t Ht].
    { intros i Hi. unfold answer. rewrite Hp.
      replace (S (posts (trace w)) + i)%nat with (posts (trace w) + S i)%nat by lia.
      apply Hall. lia. }
    exists t. rewrite Ht. f_equal.
    + lia.
    + destruct k as [|k']; simpl.
      * unfold answer. by rewrite Nat.add_0_r.
      * unfold answer. rewrite Hp. do 2 f_equal. lia.
    + subst w1; simpl. by rewrite <- app_assoc.
Qed.

(** Whatever the backend answers, a loop of [remaining] turns makes at
    most [remaining] POSTs. *)
Lemma retry_loop_posts_bound (self : LLMClient) (payload : Payload) (uc : bool)
    (key : string) (remaining : nat) (attempt : Z) (last : option exn) (w : World) :
  (posts (trace (snd (retry_loop self payload uc key remaining attempt last w)))
   <= posts (trace w) + remaining)%nat.
Proof.
  revert attempt last w. induction remaining as [|n IH]; intros attempt last w.
  - simpl. lia.
  - simpl. unfold mbind at 1. unfold log at 1.
    set (w1 := mkWorld (cache_rows w) (now w) (trace w ++ [POST payload])).
    assert (Hp : posts (trace w1) = S (posts (trace w))).
    { subst w1; simpl. rewrite posts_app. unfold posts at 2; simpl. lia. }
    assert (Hsleep : forall s e,
      (posts (trace (snd (mbind (sleep s) (fun _ =>
          retry_loop self payload uc key n (attempt + 1) (Some e)) w1)))
       <= posts (trace w) + S n)%nat).
    { intros s e. unfold mbind, sleep.
      set (w2 := mkWorld _ _ _).
      assert (Hp2 : posts (trace w2) = S (posts (trace w))).
      { subst w2 w1; simpl. rewrite !posts_app. unfold posts; simpl. lia. }
      specialize (IH (attempt + 1) (Some e) w2). rewrite Hp2 in IH.
      destruct (retry_loop self payload uc key n (attempt + 1) (Some e) w2)
        as [[r|x] w3]; simpl in *; lia. }
    destruct (_http self (posts (trace w)) payload) as [d|c m|m|x].
    + unfold on_success.
      destruct (choices d) as [|ch chs]; [unfold raise; count_posts|].
      destruct uc, (_cache self) as [cache|]; try (unfold ret; count_posts).
      unfold mbind, set, log; simpl.
      repeat (match goal with
              | |- context [match usage_getattr ?u ?a with _ => _ end] =>
                  destruct (usage_getattr u a)
              end; simpl);
      count_posts.
    + destruct (c >=? 500); [apply Hsleep | unfold raise; count_posts].
    + apply Hsleep.
    + unfold raise; count_posts.
Qed.

(** The trace only grows, and a loop with a turn left starts by a POST. *)
Lemma retry_loop_extends (self : LLMClient) (payload : Payload) (uc : bool)
    (key : string) (remaining : nat) (attempt : Z) (last : option exn) (w : World) :
  exists rest,
    trace (snd (retry_loop self payload uc key remaining attempt last w))
    = trace w ++ rest
    /\ (remaining <> O -> exists rest', rest = POST payload :: rest').
Proof.
  revert attempt last w. induction remaining as [|n IH]; intros attempt last w.
  - exists []. simpl. rewrite app_nil_r. split; [done|]. intros []; done.
  - simpl. unfold mbind at 1. unfold log at 1.
    set (w1 := mkWorld (cache_rows w) (now w) (trace w ++ [POST payload])).
    assert (Hsleep : forall s e, exists rest,
      trace (snd (mbind (sleep s) (fun _ =>
          retry_loop self payload uc key n (attempt + 1) (Some e)) w1))
      = trace w ++ rest /\ (S n <> O -> exists rest', rest = POST payload :: rest')).
    { intros s e. unfold mbind, sleep.
      set (w2 := mkWorld _ _ _).
      destruct (IH (attempt + 1) (Some e) w2) as (rest & Hrest & _).
      destruct (retry_loop self payload uc key n (attempt + 1) (Some e) w2)
        as [[r|x] w3]; simpl in *; rewrite Hrest;
        (exists (POST payload :: Sleep s :: rest);
         split; [by rewrite <- !app_assoc | by eexists]). }
    destruct (_http self (posts (trace w)) payload) as [d|c m|m|x].
    + unfold on_success.
      destruct (choices d) as [|ch chs];
        [exists [POST payload]; split; [done | by eexists]|].
      destruct uc, (_cache self) as [cache|];
        try (exists [POST payload]; split; [done | by eexists]).
      unfold mbind, set, log; simpl.
      exists [POST payload; CacheSet key].
      repeat (match goal with
              | |- context [match usage_getattr ?u ?a with _ => _ end] =>
                  destruct (usage_getattr u a)
              end; simpl);
      (split; [by rewrite <- app_assoc | by eexists]).
    + destruct (c >=? 500); [apply Hsleep|].
      exists [POST payload]; split; [done | by eexists].
    + apply Hsleep.
    + exists [POST payload]; split; [done | by eexists].
Qed.

Lemma uses_cache_has_cache (self : LLMClient) (temperature : option Q) :
  uses_cache self temperature = true -> exists cache, _cache self = Some cache.
Proof.
  unfold uses_cache. intros Hc. apply andb_true_iff in Hc as [Hc _].
  apply bool_decide_eq_true in Hc. destruct Hc as [c Hc]. by exists c.
Qed.

Lemma complete_enters_loop (self : LLMClient) (messages : list LLMMessage)
    (temperature : option Q) (max_tokens : option Z) (stop : option (list string))
    (w w1 : World) :
  loop_entry self messages temperature w = Some w1 ->
  complete self messages temperature max_tokens stop w
  = retry_loop self (payload_of self messages temperature max_tokens stop)
      (uses_cache self temperature) (key_of self messages temperature)
      (Z.to_nat (max_retries (_config self))) 0 None w1.
Proof.
  unfold loop_entry, complete.
  fold (effective_temperature self temperature).
  fold (uses_cache self temperature).
  fold (key_of self messages temperature).
  fold (payload_of self messages temperature max_tokens stop).
  destruct (uses_cache self temperature) eqn:Huc.
  - destruct (uses_cache_has_cache _ _ Huc) as [cache ->].
    unfold live_row.
    intros Hentry. unfold mbind at 1, get, mbind at 1, log; simpl.
    destruct (cache_rows w !! key_of self messages temperature) as [row|].
    + destruct (match row_expires_at row with
                | Some t => negb (Qle_bool t (now w))
                | None => true
                end); [discriminate|].
      by injection Hentry as <-.
    + by injection Hentry as <-.
  - intros [= <-]. by destruct (_cache self).
Qed.

(** A live row makes [get] fail on the keyword names of [TokenUsage]:
    the call raises without a POST. *)
Lemma complete_live_row (self : LLMClient) (messages : list LLMMessage)
    (temperature : option Q) (max_tokens : option Z) (stop : option (list string))
    (w : World) :
  loop_entry self messages temperature w = None ->
  exists e,
    complete self messages temperature max_tokens stop w
    = (Raise (TypeError e),
       mkWorld (cache_rows w) (now w)
         (trace w ++ [CacheGet (key_of self messages temperature)])).
Proof.
  unfold loop_entry, complete.
  fold (effective_temperature self temperature).
  fold (uses_cache self temperature).
  fold (key_of self messages temperature).
  destruct (uses_cache self temperature) eqn:Huc; [|discriminate].
  destruct (uses_cache_has_cache _ _ Huc) as [cache ->].
  unfold live_row. intros Hentry.
  unfold mbind at 1, get, mbind at 1, log; simpl.
  destruct (cache_rows w !! key_of self messages temperature) as [row|];
    [|discriminate].
  destruct (match row_expires_at row with
            | Some t => negb (Qle_bool t (now w))
            | None => true
            end); [|discriminate].
  by eexists.
Qed.

End ClientRetries.

Section ClientRetryPolicy.
Import types config llm.
Context `{Runtime}.

(** A status below 500 is raised where it occurs. *)
Lemma retry_loop_client_error (self : LLMClient) (payload : Payload) (uc : bool)
    (key : string) (remaining : nat) (attempt : Z) (last : option exn)
    (w : World) (c : Z) (m : string) :
  _http self (posts (trace w)) payload = HttpStatus c m -> c < 500 ->
  retry_loop self payload uc key (S remaining) attempt last w
  = (Raise (HTTPStatusError c m),
     mkWorld (cache_rows w) (now w) (trace w ++ [POST payload])).
Proof.
  intros Hans Hc. simpl. rewrite Hans.
  destruct (c >=? 500) eqn:Hge; [lia|]. reflexivity.
Qed.

(** C3.  For every call of [complete]: at most [max_retries] POSTs are
    made; and when the call reaches its request loop,
    - after [k < max_retries] failures that were server statuses
      (>= 500) or request errors, each followed by a sleep of
      2^attempt seconds, a further POST is made;
    - a status below 500 at that attempt is raised at once, nothing
      following its POST;
    - when all [max_retries] attempts fail in the retried way, a
      [RuntimeError] is raised whose message carries the configured
      count and the last error. *)
Theorem complete_retry_policy (self : LLMClient) (messages : list LLMMessage)
    (temperature : option Q) (max_tokens : option Z) (stop : option (list string))
    (w : World) :
  let n := Z.to_nat (max_retries (_config self)) in
  let p := payload_of self messages temperature max_tokens stop in
  let run := complete self messages temperature max_tokens stop w in
  (posts (trace (snd run)) <= posts (trace w) + n)%nat
  /\ forall w1, loop_entry self messages temperature w = Some w1 ->
     (forall k, (k < n)%nat ->
        (forall i, (i < k)%nat -> retryable (answer self p w1 i) = true) ->
        (exists rest,
            trace (snd run) = trace w1 ++ backoff_trace p 0 k ++ POST p :: rest)
        /\ (forall c m, answer self p w1 k = HttpStatus c m -> c < 500 ->
            fst run = Raise (HTTPStatusError c m)
            /\ trace (snd run) = trace w1 ++ backoff_trace p 0 k ++ [POST p]))
     /\ ((forall i, (i < n)%nat -> retryable (answer self p w1 i) = true) ->
         fst run
         = Raise (RuntimeError
                    ("Failed after " +:+ pretty (max_retries (_config self))
                     +:+ " retries: "
                     +:+ str_last_error (last_error_after self p w1 None n)))
         /\ trace (snd run) = trace w1 ++ backoff_trace p 0 n).
Proof.
  intros n p run. split.
  - subst run.
    destruct (loop_entry self messages temperature w) as [w1|] eqn:Hentry.
    + rewrite (complete_enters_loop _ _ _ _ _ _ _ Hentry).
      pose proof (retry_loop_posts_bound self p (uses_cache self temperature)
                    (key_of self messages temperature) n 0 None w1) as Hb.
      fold p n. unfold loop_entry in Hentry.
      destruct (uses_cache self temperature).
      * destruct (live_row w _); [discriminate|]. injection Hentry as <-.
        simpl in Hb. rewrite posts_app in Hb. unfold posts at 3 in Hb. simpl in Hb. lia.
      * injection Hentry as <-. exact Hb.
    + destruct (complete_live_row _ messages _ max_tokens stop _ Hentry) as [e ->].
      count_posts.
  - intros w1 Hentry. subst run.
    rewrite (complete_enters_loop _ _ _ _ _ _ _ Hentry). fold p n.
    split.
    + intros k Hk Hfail.
      destruct (retry_loop_skip self p (uses_cache self temperature)
                  (key_of self messages temperature) k (n - k) 0 None w1 Hfail)
        as [t Hskip].
      replace (k + (n - k))%nat with n in Hskip by lia.
      rewrite Hskip. clear Hskip.
      set (w2 := mkWorld (cache_rows w1) t (trace w1 ++ backoff_trace p 0 k)).
      assert (Hp2 : posts (trace w2) = (posts (trace w1) + k)%nat).
      { subst w2; simpl. by rewrite posts_app, posts_backoff_trace. }
      split.
      * destruct (retry_loop_extends self p (uses_cache self temperature)
                    (key_of self messages temperature) (n - k) (0 + Z.of_nat k)
                    (last_error_after self p w1 None k) w2)
          as (rest & Hrest & Hfirst).
        destruct Hfirst as [rest' ->]; [lia|].
        exists rest'. rewrite Hrest. subst w2; simpl. by rewrite <- app_assoc.
      * intros c m Hans Hc.
        destruct (n - k)%nat as [|r] eqn:Hr; [lia|].
        unfold answer in Hans. rewrite <- Hp2 in Hans.
        rewrite (retry_loop_client_error _ _ _ _ _ _ _ _ _ _ Hans Hc).
        subst w2; simpl. split; [done|]. by rewrite <- app_assoc.
    + intros Hfail.
      destruct (retry_loop_skip self p (uses_cache self temperature)
                  (key_of self messages temperature) n 0 0 None w1 Hfail)
        as [t Hskip].
      rewrite Nat.add_0_r in Hskip. rewrite Hskip. by simpl.
Qed.

End ClientRetryPolicy.

(** The default configuration allows three attempts. *)
Example default_max_retries :
  config.max_retries config.get_default_config = 3.
Proof. reflexivity. Qed.

(** [flaky_client]: two backoffs (1 s, 2 s), three POSTs, and the 404
    is raised.  [down_client]: three POSTs, three backoffs, and the
    final [RuntimeError]. *)
Lemma complete_retry_policy_witness :
  (let run := llm.complete (H := demo_runtime) flaky_client hello None None None
                empty_world in
   let p := payload_of flaky_client hello None None None in
   fst run = Raise (HTTPStatusError 404 "Not Found")
   /\ llm.trace (snd run)
      = [llm.POST p; llm.Sleep 1; llm.POST p; llm.Sleep 2; llm.POST p])
  /\ (let run := llm.complete (H := demo_runtime) down_client hello None None None
                   empty_world in
      let p := payload_of down_client hello None None None in
      fst run = Raise (RuntimeError "Failed after 3 retries: Service Unavailable")
      /\ llm.trace (snd run)
         = [llm.POST p; llm.Sleep 1; llm.POST p; llm.Sleep 2; llm.POST p; llm.Sleep 4]).
Proof.
  split.
  - destruct (complete_retry_policy (H := demo_runtime) flaky_client hello
                None None None empty_world) as [_ Hloop].
    destruct (Hloop empty_world eq_refl) as [Hk _].
    destruct (Hk 2%nat) as [_ Hclient].
    + vm_compute. lia.
    + intros [|[|i]] Hi; [reflexivity | reflexivity | lia].
    + exact (Hclient 404 "Not Found" eq_refl eq_refl).
  - destruct (complete_retry_policy (H := demo_runtime) down_client hello
                None None None empty_world) as [_ Hloop].
    destruct (Hloop empty_world eq_refl) as [_ Hall].
    apply Hall. intros i _. reflexivity.
Defined.

(** ** The LLM client: the response cache *)

Section ClientCache.
Import types config llm.
Context `{Runtime}.

(** [TokenUsage] has no attribute [input_tokens]. *)
Lemma usage_getattr_input_tokens (u : option TokenUsage) :
  exists m, usage_getattr u "input_tokens" = Raise (AttributeError m).
Proof. destruct u; simpl; by eexists. Qed.

(** Storing a response fails before the INSERT: the table is as it was. *)
Lemma set_raises (cache : ResponseCache) (key : string) (r : LLMResponse)
    (ttl : option Z) (w : World) :
  exists m,
    set cache key r ttl w
    = (Raise (AttributeError m),
       mkWorld (cache_rows w) (now w) (trace w ++ [CacheSet key])).
Proof.
  unfold set, mbind, log; simpl.
  destruct (usage_getattr_input_tokens (r_usage r)) as [m ->]. by exists m.
Qed.

(** A deterministic request that finds no live row and whose first
    POST is answered: the answer is lost to an [AttributeError], and
    nothing is stored. *)
Lemma complete_deterministic_miss (self : LLMClient) (cache : ResponseCache)
    (messages : list LLMMessage) (max_tokens : option Z)
    (stop : option (list string)) (w : World) (data : Body) :
  _cache self = Some cache ->
  1 <= max_retries (_config self) ->
  _http self (posts (trace w))
        (payload_of self messages (Some 0%Q) max_tokens stop) = HttpJson data ->
  choices data <> [] ->
  live_row w (key_of self messages (Some 0%Q)) = false ->
  exists m,
    complete self messages (Some 0%Q) max_tokens stop w
    = (Raise (AttributeError m),
       mkWorld (cache_rows w) (now w)
         (trace w ++ [CacheGet (key_of self messages (Some 0%Q));
                      POST (payload_of self messages (Some 0%Q) max_tokens stop);
                      CacheSet (key_of self messages (Some 0%Q))])).
Proof.
  intros Hcache Hn Hans Hch Hlive.
  assert (Huc : uses_cache self (Some 0%Q) = true).
  { unfold uses_cache. rewrite Hcache. reflexivity. }
  assert (Hentry : loop_entry self messages (Some 0%Q) w
            = Some (mkWorld (cache_rows w) (now w)
                      (trace w ++ [CacheGet (key_of self messages (Some 0%Q))]))).
  { unfold loop_entry. by rewrite Huc, Hlive. }
  rewrite (complete_enters_loop _ _ _ max_tokens stop _ _ Hentry). rewrite Huc.
  destruct (Z.to_nat (max_retries (_config self))) as [|n] eqn:Hr; [lia|].
  simpl.
  assert (Hposts : posts (trace w ++ [CacheGet (key_of self messages (Some 0%Q))])
                   = posts (trace w)) by count_posts.
  rewrite Hposts, Hans.
  unfold mbind at 1, log at 1; simpl.
  unfold on_success. destruct (choices data) as [|ch chs]; [done|].
  rewrite Hcache. unfold mbind.
  match goal with
  | |- context [set cache ?k ?r None ?w0] =>
      destruct (set_raises cache k r None w0) as [m ->]
  end.
  exists m. simpl. by rewrite <- !app_assoc.
Qed.

(** C1 fails on the code.  A client with a cache, a backend that answers
    every POST, an empty (or expired) cache entry: two successive calls
    with the same messages at temperature 0.0 make two POSTs, both
    raise [AttributeError] instead of returning, and the table is left
    as it was, because [ResponseCache.set] reads
    [response.usage.input_tokens] where [TokenUsage] has
    [prompt_tokens]. *)
Theorem complete_temperature_zero_posts_twice (self : LLMClient)
    (cache : ResponseCache) (messages : list LLMMessage)
    (max_tokens : option Z) (stop : option (list string)) (w : World)
    (data : Body) :
  _cache self = Some cache ->
  1 <= max_retries (_config self) ->
  (forall n p, _http self n p = HttpJson data) ->
  choices data <> [] ->
  live_row w (key_of self messages (Some 0%Q)) = false ->
  let run1 := complete self messages (Some 0%Q) max_tokens stop w in
  let run2 := complete self messages (Some 0%Q) max_tokens stop (snd run1) in
  (exists m, fst run1 = Raise (AttributeError m))
  /\ (exists m, fst run2 = Raise (AttributeError m))
  /\ posts (trace (snd run2)) = (posts (trace w) + 2)%nat
  /\ cache_rows (snd run2) = cache_rows w.
Proof.
  intros Hcache Hn Hans Hch Hlive run1 run2.
  destruct (complete_deterministic_miss self cache messages max_tokens stop w data
              Hcache Hn (Hans _ _) Hch Hlive) as [m1 H1].
  subst run2 run1. rewrite H1. simpl.
  match goal with
  | |- context [complete self messages (Some 0%Q) max_tokens stop ?w1] =>
      destruct (complete_deterministic_miss self cache messages max_tokens stop w1 data
                  Hcache Hn (Hans _ _) Hch Hlive) as [m2 H2]
  end.
  rewrite H2. simpl.
  split; [by exists m1|]. split; [by exists m2|]. split; [count_posts | done].
Qed.

(** With a cache, a request at temperature 0.0 never returns a
    response, cached or not. *)
Lemma retry_loop_cached_never_returns (self : LLMClient) (cache : ResponseCache)
    (payload : Payload) (key : string) (remaining : nat) (attempt : Z)
    (last : option exn) (w : World) :
  _cache self = Some cache ->
  exists e, fst (retry_loop self payload true key remaining attempt last w) = Raise e.
Proof.
  intros Hcache. revert attempt last w.
  induction remaining as [|n IH]; intros attempt last w; [by eexists|].
  simpl. unfold mbind at 1, log at 1.
  set (w1 := mkWorld _ _ _).
  assert (Hsleep : forall s e, exists x,
    fst (mbind (sleep s) (fun _ =>
        retry_loop self payload true key n (attempt + 1) (Some e)) w1) = Raise x).
  { intros s e. unfold mbind, sleep. apply IH. }
  destruct (_http self (posts (trace w)) payload) as [d|c m|m|x].
  - unfold on_success. destruct (choices d) as [|ch chs]; [by eexists|].
    rewrite Hcache. unfold mbind.
    match goal with
    | |- context [set cache ?k ?r None ?w0] =>
        destruct (set_raises cache k r None w0) as [m ->]
    end. by eexists.
  - destruct (c >=? 500); [apply Hsleep | by eexists].
  - apply Hsleep.
  - by eexists.
Qed.

Lemma complete_deterministic_never_returns (self : LLMClient) (cache : ResponseCache)
    (messages : list LLMMessage) (temperature : option Q) (max_tokens : option Z)
    (stop : option (list string)) (w : World) :
  _cache self = Some cache ->
  Qeq_bool (effective_temperature self temperature) 0 = true ->
  exists e, fst (complete self messages temperature max_tokens stop w) = Raise e.
Proof.
  intros Hcache Ht.
  assert (Huc : uses_cache self temperature = true).
  { unfold uses_cache. rewrite Hcache, Ht. reflexivity. }
  destruct (loop_entry self messages temperature w) as [w1|] eqn:Hentry.
  - rewrite (complete_enters_loop _ _ _ max_tokens stop _ _ Hentry), Huc.
    by apply (retry_loop_cached_never_returns self cache).
  - destruct (complete_live_row _ _ _ max_tokens stop _ Hentry) as [e ->].
    by eexists.
Qed.

Lemma retry_loop_uncached (self : LLMClient) (payload : Payload) (key : string)
    (remaining : nat) (attempt : Z) (last : option exn) (w : World) :
  let run := retry_loop self payload false key remaining attempt last w in
  cache_rows (snd run) = cache_rows w
  /\ exists new, trace (snd run) = trace w ++ new
                 /\ Forall (request_event payload) new.
Proof.
  revert attempt last w. induction remaining as [|n IH]; intros attempt last w.
  - simpl. split; [done|]. exists []. by rewrite app_nil_r.
  - simpl. unfold mbind at 1 2, log at 1 2.
    set (w1 := mkWorld (cache_rows w) (now w) (trace w ++ [POST payload])).
    assert (Hpost : request_event payload (POST payload)) by (by left).
    assert (Hsleep : forall s e,
      let run := mbind (sleep s) (fun _ =>
          retry_loop self payload false key n (attempt + 1) (Some e)) w1 in
      cache_rows (snd run) = cache_rows w
      /\ exists new, trace (snd run) = trace w ++ new
                     /\ Forall (request_event payload) new).
    { intros s e. unfold mbind, sleep.
      set (w2 := mkWorld _ _ _).
      destruct (IH (attempt + 1) (Some e) w2) as (Hrows & new & Htr & Hall).
      split; [exact Hrows|].
      exists (POST payload :: Sleep s :: new). split.
      - rewrite Htr. subst w2 w1; simpl. by rewrite <- !app_assoc.
      - constructor; [exact Hpost|].
        constructor; [right; by eexists | exact Hall]. }
    assert (Hone : forall (r : outcome LLMResponse),
      cache_rows (snd (r, w1)) = cache_rows w
      /\ exists new, trace (snd (r, w1)) = trace w ++ new
                     /\ Forall (request_event payload) new).
    { intros r. split; [done|]. exists [POST payload]. split; [done|].
      constructor; [exact Hpost | constructor]. }
    destruct (_http self (posts (trace w)) payload) as [d|c m|m|x].
    + unfold on_success. destruct (choices d) as [|ch chs]; [apply Hone|].
      destruct (_cache self); apply Hone.
    + destruct (c >=? 500); [apply Hsleep | apply Hone].
    + apply Hsleep.
    + apply Hone.
Qed.

(** A request whose temperature is not 0.0 neither reads nor writes
    the cache, whether or not the client has one. *)
Lemma complete_bypasses_cache (self : LLMClient) (messages : list LLMMessage)
    (temperature : option Q) (max_tokens : option Z) (stop : option (list string))
    (w : World) :
  Qeq_bool (effective_temperature self temperature) 0 = false ->
  let run := complete self messages temperature max_tokens stop w in
  cache_rows (snd run) = cache_rows w
  /\ exists new,
      trace (snd run) = trace w ++ new
      /\ Forall (request_event (payload_of self messages temperature max_tokens stop)) new.
Proof.
  intros Ht.
  assert (Huc : uses_cache self temperature = false).
  { unfold uses_cache. rewrite Ht. apply andb_false_r. }
  assert (Hentry : loop_entry self messages temperature w = Some w).
  { unfold loop_entry. by rewrite Huc. }
  simpl. rewrite (complete_enters_loop _ _ _ max_tokens stop _ _ Hentry), Huc.
  apply retry_loop_uncached.
Qed.

End ClientCache.

(** The failing run on [answering_client], from an empty cache. *)
Lemma complete_temperature_zero_posts_twice_witness :
  let run1 := llm.complete (H := demo_runtime) answering_client hello (Some 0%Q)
                None None empty_world in
  let run2 := llm.complete (H := demo_runtime) answering_client hello (Some 0%Q)
                None None (snd run1) in
  (exists m, fst run1 = Raise (AttributeError m))
  /\ (exists m, fst run2 = Raise (AttributeError m))
  /\ llm.posts (llm.trace (snd run2)) = 2%nat
  /\ llm.cache_rows (snd run2) = ∅.
Proof.
  apply (complete_temperature_zero_posts_twice (H := demo_runtime) answering_client
           (llm.mkResponseCache None) hello None None empty_world
           (llm.mkBody [llm.mkChoice "hello" (Some "stop")] None
              {[ "prompt_tokens" := 3; "completion_tokens" := 1 ]})).
  - reflexivity.
  - vm_compute. discriminate.
  - reflexivity.
  - discriminate.
  - reflexivity.
Defined.

(** The same two calls at temperature 0.7: two POSTs, two responses,
    no cache event. *)
Example complete_temperature_07_twice :
  let run1 := llm.complete (H := demo_runtime) answering_client hello (Some (7 # 10)%Q)
                None None empty_world in
  let run2 := llm.complete (H := demo_runtime) answering_client hello (Some (7 # 10)%Q)
                None None (snd run1) in
  let p := payload_of answering_client hello (Some (7 # 10)%Q) None None in
  (exists r, fst run1 = Return r /\ types.r_cached r = false)
  /\ (exists r, fst run2 = Return r /\ types.r_cached r = false)
  /\ llm.trace (snd run2) = [llm.POST p; llm.POST p]
  /\ llm.cache_rows (snd run2) = ∅.
Proof.
  vm_compute. repeat split; eexists; split; reflexivity.
Qed.

(** ** Prompt templates *)

Section TemplateFacts.
Import templates.

Lemma span_word_length (s : string) :
  (String.length (snd (span_word s)) <= String.length s)%nat.
Proof.
  induction s as [|c t IH]; simpl; [lia|].
  destruct (is_word c); simpl; [|lia].
  destruct (span_word t) as [w r]; simpl in *. lia.
Qed.

(** The scan of [findall_vars] consumes a character at every step:
    any fuel above the length of the text gives the same matches. *)
Lemma findall_vars_fuel (f1 f2 : nat) (s : string) :
  (String.length s < f1)%nat -> (String.length s < f2)%nat ->
  findall_vars f1 s = findall_vars f2 s.
Proof.
  revert f2 s. induction f1 as [|f1 IH]; intros f2 s H1 H2; [lia|].
  destruct f2 as [|f2]; [lia|].
  destruct s as [|c t]; [done|]. simpl in H1, H2. simpl.
  pose proof (span_word_length t) as Hspan.
  destruct (Ascii.eqb c "{"); [|apply IH; lia].
  destruct (span_word t) as [w r]; simpl in Hspan.
  destruct w as [|a w]; [apply IH; lia|].
  destruct r as [|d r]; [apply IH; lia|]. simpl in Hspan.
  destruct (Ascii.eqb d "}"); [f_equal|]; apply IH; lia.
Qed.

(** The variables of a template with repeated, empty and malformed
    placeholders. *)
Example findall_vars_sample :
  findall_vars 100 "Title {title} body {content} {x_1} {} {a b} {{y}} {title}"
  = ["title"; "content"; "x_1"; "y"; "title"].
Proof. reflexivity. Qed.

End TemplateFacts.

(** ** The extractors *)

Section ExtractFacts.
Import types config templates llm extractors.
Context `{Runtime}.

Lemma dict_set_keys {A} (d : list (string * A)) (k : string) (v : A) (x : string) :
  x ∈ map fst (dict_set d k v) <-> x ∈ map fst d \/ x = k.
Proof.
  induction d as [|[k' v'] d IH]; simpl.
  - rewrite list_elem_of_singleton, elem_of_nil. tauto.
  - destruct (String.eqb_spec k' k) as [->|Hne]; simpl.
    + rewrite !elem_of_cons. tauto.
    + rewrite !elem_of_cons, IH. tauto.
Qed.

Lemma dict_update_keys {A} (d extra : list (string * A)) (x : string) :
  x ∈ map fst (dict_update d extra) <-> x ∈ map fst d \/ x ∈ map fst extra.
Proof.
  unfold dict_update. revert d.
  induction extra as [|[k v] extra IH]; intros d; simpl.
  - rewrite elem_of_nil. tauto.
  - rewrite IH, dict_set_keys, elem_of_cons. tauto.
Qed.

Lemma binds_self_iff {A} (kwargs : list (string * A)) :
  binds_self kwargs = true <-> "self" ∈ map fst kwargs.
Proof.
  unfold binds_self. induction (map fst kwargs) as [|k ks IH]; cbn [existsb].
  - rewrite elem_of_nil. split; [discriminate | tauto].
  - rewrite orb_true_iff, elem_of_cons, IH, String.eqb_eq. tauto.
Qed.

(** [content] is not [self]: the variables bind [self] exactly when
    the context does. *)
Lemma binds_self_template_vars (content : string) (context : list (string * string)) :
  binds_self (dict_update [("content", content)] context) = binds_self context.
Proof.
  apply eq_true_iff_eq. rewrite !binds_self_iff, dict_update_keys. simpl.
  rewrite list_elem_of_singleton. split; [|tauto]. by intros [|].
Qed.

Lemma keywords_self {A} (method : string) (kwargs : list (string * A)) :
  binds_self kwargs = true ->
  exists m, keywords method kwargs = Raise (TypeError m).
Proof. unfold keywords, binds_self. intros ->. by eexists. Qed.

Lemma keywords_plain {A} (method : string) (kwargs : list (string * A)) :
  binds_self kwargs = false -> keywords method kwargs = Return kwargs.
Proof. unfold keywords, binds_self. by intros ->. Qed.

(** The variables [extract] reports: required by the template, and
    neither [content] nor a key of the context. *)
Lemma missing_variables (t : PromptTemplate) (content : string)
    (context : list (string * string)) :
  binds_self context = false ->
  exists missing,
    validate_variables t (dict_update [("content", content)] context) = Return missing
    /\ forall v, v ∈ missing
        <-> v ∈ get_required_variables t /\ v <> "content" /\ v ∉ map fst context.
Proof.
  intros Hself. unfold validate_variables.
  rewrite keywords_plain by (by rewrite binds_self_template_vars). simpl.
  eexists. split; [reflexivity|]. intros v.
  rewrite elem_of_elements, elem_of_difference, elem_of_list_to_set,
    dict_update_keys.
  simpl. rewrite list_elem_of_singleton. tauto.
Qed.

(** With the key [self] in the context, the first of the two calls
    raises, before the [try] and before any request. *)
Lemma extract_binds_self (self : Extractor) (content : string)
    (context : option (list (string * string))) (w : World) :
  binds_self (default [] context) = true ->
  exists m, extract self content context w = (Raise (TypeError m), w).
Proof.
  intros Hself. unfold extract, validate_variables.
  destruct (keywords_self "validate_variables"
              (dict_update [("content", content)] (default [] context))) as [m ->];
    [by rewrite binds_self_template_vars|].
  by exists m.
Qed.

(** C5, amended.  If the task template requires a variable that is
    neither [content] nor a key of the context, and the context has no
    key [self], [extract] returns a result with success false, empty
    data, confidence 0.0, an empty raw response and one error message
    listing the missing names (this variable among them), and the
    client's world is untouched: no completion is requested.  If the
    context has the key [self], [extract] raises [TypeError], the
    variables being passed as keyword arguments to a method; the
    client's world is untouched then too. *)
Theorem extract_missing_variable (self : Extractor) (content : string)
    (context : option (list (string * string))) (w : World) (v : string) :
  v ∈ get_required_variables (prompt_template self) ->
  v <> "content" ->
  v ∉ map fst (default [] context) ->
  if binds_self (default [] context)
  then exists m, extract self content context w = (Raise (TypeError m), w)
  else
    exists result missing,
      extract self content context w = (Return result, w)
      /\ v ∈ missing
      /\ (forall x, x ∈ missing <->
            x ∈ get_required_variables (prompt_template self)
            /\ x <> "content" /\ x ∉ map fst (default [] context))
      /\ extraction_type result = x_extraction_type self
      /\ success result = false
      /\ data result = VDict []
      /\ (confidence result == 0)%Q
      /\ raw_response result = ""
      /\ errors result = ["Missing required variables: " +:+ repr_names missing].
Proof.
  intros Hreq Hc Hctx.
  destruct (binds_self (default [] context)) eqn:Hself;
    [by apply extract_binds_self|].
  destruct (missing_variables (prompt_template self) content (default [] context) Hself)
    as (missing & Hval & Hmissing).
  assert (Hv : v ∈ missing) by (by apply Hmissing).
  exists (failed self ["Missing required variables: " +:+ repr_names missing]), missing.
  split.
  - unfold extract. rewrite Hval.
    destruct missing as [|m ms]; [by apply elem_of_nil in Hv | reflexivity].
  - split; [exact Hv|]. split; [exact Hmissing|].
    by repeat split.
Qed.

(** C7.  Whatever the extractor, the content and the context, and
    whether or not the client has a cache: a run of [extract] leaves
    the cache table as it was, and every event it adds to the trace is
    a POST carrying temperature 0.1 or a backoff sleep; no cache read,
    no cache write. *)
Theorem extract_never_uses_cache (self : Extractor) (content : string)
    (context : option (list (string * string))) (w : World) :
  let run := extract self content context w in
  cache_rows (snd run) = cache_rows w
  /\ exists new,
      trace (snd run) = trace w ++ new
      /\ Forall (fun ev =>
                   is_cache_event ev = false
                   /\ forall p, ev = POST p -> (p_temperature p == 1 # 10)%Q) new.
Proof.
  simpl. unfold extract.
  assert (Hsame : cache_rows w = cache_rows w
            /\ exists new,
                trace w = trace w ++ new
                /\ Forall (fun ev =>
                     is_cache_event ev = false
                     /\ forall p, ev = POST p -> (p_temperature p == 1 # 10)%Q) new).
  { split; [done|]. exists []. by rewrite app_nil_r. }
  destruct (validate_variables _ _) as [[|m ms]|e]; [| exact Hsame | exact Hsame].
  destruct (render _ _) as [user_content|e]; [|exact Hsame].
  set (messages := _build_messages _ _ _).
  destruct (complete_bypasses_cache (_client self) messages (Some (1 # 10)%Q)
                None None w eq_refl) as (Hrows & new & Htr & Hall).
    unfold try_except, mbind.
    destruct (complete (_client self) messages (Some (1 # 10)%Q) None None w)
      as [[response|e] w1] eqn:Hrun; simpl in Hrows, Htr;
    (assert (Hw : cache_rows w1 = cache_rows w
                /\ exists new0, trace w1 = trace w ++ new0
                   /\ Forall (fun ev => is_cache_event ev = false
                        /\ forall p, ev = POST p -> (p_temperature p == 1 # 10)%Q) new0);
     [ split; [exact Hrows|]; exists new; split; [exact Htr|];
       eapply Forall_impl; [exact Hall|]; intros ev [->|[s ->]]; simpl;
       [ split; [done|]; intros p [= <-]; reflexivity
       | split; [done|]; intros p Hp; discriminate ] |]).
  - destruct (_process_response self (r_content response)) as [d|e]; simpl;
      [destruct (_calculate_confidence self d) as [c|e]; simpl|]; exact Hw.
  - simpl. exact Hw.
Qed.

End ExtractFacts.

(** [demo_extractor] run without a title, then with one. *)
Lemma extract_missing_variable_witness :
  exists result,
    extractors.extract (H := demo_runtime) demo_extractor "text" None empty_world
    = (Return result, empty_world)
    /\ extractors.success result = false
    /\ extractors.errors result = ["Missing required variables: ['title']"].
Proof.
  destruct (extract_missing_variable (H := demo_runtime) demo_extractor "text" None
              empty_world "title")
    as (result & missing & Hrun & _ & _ & _ & Hs & _ & _ & _ & He).
  - apply elem_of_list_to_set. vm_compute. apply list_elem_of_here.
  - discriminate.
  - simpl. apply not_elem_of_nil.
  - exists result. split; [exact Hrun|]. split; [exact Hs|].
    vm_compute in Hrun. injection Hrun as <-. reflexivity.
Defined.

Example extract_with_title :
  let run := extractors.extract (H := demo_runtime) demo_extractor "text"
               (Some [("title", "T")]) empty_world in
  (exists result, fst run = Return result /\ extractors.success result = true)
  /\ llm.trace (snd run)
     = [llm.POST (llm.mkPayload "gpt-oss-20b"
                    [[("role", "system"); ("content", "You are an expert.")];
                     [("role", "user"); ("content", "Title: T. Text: text")]]
                    (1 # 10) 4096 None)].
Proof. vm_compute. split; [eexists; split; reflexivity | reflexivity]. Qed.

(** C5 as stated fails here: [title] is required and is neither
    [content] nor a key of the context, yet with the key [self] in the
    context [extract] raises and returns no result at all. *)
Lemma extract_missing_variable_self_counterexample :
  "title" ∈ templates.get_required_variables (extractors.prompt_template demo_extractor)
  /\ ("title" ∉ map fst [("self", "x")])
  /\ extractors.extract (H := demo_runtime) demo_extractor "text"
       (Some [("self", "x")]) empty_world
     = (Raise (TypeError
          "PromptTemplate.validate_variables() got multiple values for argument 'self'"),
        empty_world)
  /\ ~ (exists result,
         fst (extractors.extract (H := demo_runtime) demo_extractor "text"
                (Some [("self", "x")]) empty_world) = Return result
         /\ extractors.success result = false).
Proof.
  split; [apply elem_of_list_to_set; vm_compute; apply list_elem_of_here|].
  split; [intros Hin; apply list_elem_of_singleton in Hin; discriminate|].
  split; [reflexivity|].
  intros (result & Hrun & _). vm_compute in Hrun. discriminate.
Qed.

(** ** The text chunker *)

Section ChunkerFacts.
Import chunker.

(** The binary search leaves its loop: with fuel for the first gap,
    it stops on a gap of at most 100. *)
Lemma bisect_exits (self : TextChunker) (text : string) (start max_tokens : Z)
    (fuel : nat) (low high : Z) :
  high - low <= Z.of_nat fuel ->
  let '(l, h) := bisect self text start max_tokens fuel low high in
  h - l <= 100.
Proof.
  revert low high. induction fuel as [|fuel IH]; intros low high Hfuel; simpl.
  - destruct (high - low >? 100) eqn:Hgap; lia.
  - destruct (high - low >? 100) eqn:Hgap; [|lia].
    pose proof (Z.div_mod (low + high) 2 ltac:(lia)) as Hdm.
    pose proof (Z.mod_pos_bound (low + high) 2 ltac:(lia)) as Hmod.
    destruct (_count_tokens self (slice text start ((low + high) / 2)) <=? max_tokens);
      apply IH; lia.
Qed.

Lemma find_chunk_end_le (self : TextChunker) (text : string) (start max_tokens : Z) :
  _find_chunk_end self text start max_tokens <= len text.
Proof.
  unfold _find_chunk_end.
  destruct (bisect _ _ _ _ _ _ _) as [low high]. apply Z.le_min_r.
Qed.

Lemma int_of_ge_1 (x : Q) : (1 <= x)%Q -> 1 <= int_of x.
Proof.
  intros Hx. unfold int_of.
  assert (H0 : Qle_bool 0 x = true).
  { apply Qle_bool_iff. eapply Qle_trans; [|exact Hx]. discriminate. }
  rewrite H0. change 1 with (Qfloor 1). by apply Qfloor_resp_le.
Qed.

(** With the client's counter ([len(text) // 4]) a positive overlap is
    at least one character, whatever the reference text. *)
Lemma tokens_to_chars_positive (cfg : ChunkingConfig) (tokens : Z) (ref : string) :
  1 <= tokens ->
  1 <= _tokens_to_chars (mkTextChunker llm.count_tokens cfg) tokens ref.
Proof.
  intros Ht. unfold _tokens_to_chars; simpl.
  destruct (String.eqb ref ""); [lia|].
  unfold llm.count_tokens.
  destruct (len ref / 4 =? 0) eqn:Hz; [lia|].
  assert (Hlen : 0 <= len ref) by (unfold len; lia).
  assert (Hr : 0 < len ref / 4).
  { pose proof (Z.div_pos (len ref) 4 Hlen ltac:(lia)). lia. }
  assert (Hle : len ref / 4 <= len ref).
  { pose proof (Z.mul_div_le (len ref) 4 ltac:(lia)). lia. }
  apply int_of_ge_1. apply Qmult_le_1_compat.
  - change 1%Q with (inject_Z 1). rewrite <- Zle_Qle. exact Ht.
  - apply Qle_shift_div_l.
    + change 0%Q with (inject_Z 0). rewrite <- Zlt_Qlt. exact Hr.
    + rewrite Qmult_1_l, <- Zle_Qle. exact Hle.
Qed.

(** Once inside the text, the loop stays inside: the next start is
    the chunk end, which is at most [len(text)], minus at least one. *)
Lemma chunk_loop_stuck (cfg : ChunkingConfig) (text : string) (max_tokens overlap : Z)
    (fuel : nat) (current_pos chunk_index : Z) (chunks : list ChunkInfo) :
  1 <= overlap ->
  current_pos < len text ->
  chunk_loop (mkTextChunker llm.count_tokens cfg) text max_tokens overlap fuel
             current_pos chunk_index chunks = None.
Proof.
  intros Hov. revert current_pos chunk_index chunks.
  induction fuel as [|fuel IH]; intros pos idx chunks Hpos; simpl.
  - destruct (pos <? len text) eqn:Hlt; [done | lia].
  - destruct (pos <? len text) eqn:Hlt; [|lia].
    apply IH.
    pose proof (find_chunk_end_le (mkTextChunker llm.count_tokens cfg) text pos max_tokens).
    pose proof (tokens_to_chars_positive cfg overlap
                  (slice text pos
                     (_find_chunk_end (mkTextChunker llm.count_tokens cfg) text pos max_tokens))
                  Hov).
    lia.
Qed.

(** C2 fails on the code.  With the counter the service wires in
    ([len(text) // 4]), a positive [max_tokens] and a positive effective
    overlap (the default 200 also replaces an explicit 0), a text that
    does not fit in one chunk keeps [chunk()] in its loop for ever:
    no number of turns brings the start position to the end of the
    text. *)
Theorem chunk_never_returns (cfg : ChunkingConfig) (text : string) (m : Z)
    (overlap : option Z) (fuel : nat) :
  0 < m ->
  1 <= or_int overlap (overlap_tokens cfg) ->
  m < llm.count_tokens text ->
  chunk (mkTextChunker llm.count_tokens cfg) text (Some m) overlap fuel = None.
Proof.
  intros Hm Hov Hbig. unfold chunk; simpl.
  destruct (m =? 0) eqn:Hz; [lia|].
  destruct (llm.count_tokens text <=? m) eqn:Hfit; [lia|].
  rewrite chunk_loop_stuck; [done | exact Hov |].
  unfold llm.count_tokens in Hbig.
  pose proof (Z.div_le_upper_bound (len text) 4 0 ltac:(lia)). lia.
Qed.

End ChunkerFacts.

(** Eight characters against a budget of one token, with the default
    configuration. *)
Lemma chunk_never_returns_witness :
  chunker.chunk service_chunker "aaaaaaaa" (Some 1) None 1000 = None.
Proof.
  apply (chunk_never_returns chunker.default_config "aaaaaaaa" 1 None 1000).
  - lia.
  - vm_compute. discriminate.
  - vm_compute. reflexivity.
Defined.

(** The first turns of that run: the chunk end is the start itself,
    the chunk is empty, and the start moves back by 800; from there
    the failed [rfind] (-1) lies after the negative start, so the end
    becomes 1, and the start moves back again. *)
Example chunk_first_turns :
  chunker._find_chunk_end service_chunker "aaaaaaaa" 0 1 = 0
  /\ chunker._tokens_to_chars service_chunker 200 "" = 800
  /\ chunker._find_chunk_end service_chunker "aaaaaaaa" (-800) 1 = 1
  /\ chunker._tokens_to_chars service_chunker 200 "a" = 800.
Proof. vm_compute. repeat split. Qed.

(** The paths on which [chunk()] does return: a text that fits, and,
    with no overlap configured, a text whose separators let every
    chunk end advance. *)
Example chunk_single :
  chunker.chunk service_chunker "a a a a" (Some 1) None 0
  = Some [chunker.mkChunkInfo 0 1 0 7 1 "a a a a"].
Proof. reflexivity. Qed.

Example chunk_no_overlap :
  chunker.chunk no_overlap_chunker "a a a a " (Some 1) None 10
  = Some [chunker.mkChunkInfo 0 4 0 2 0 "a ";
          chunker.mkChunkInfo 1 4 2 4 0 "a ";
          chunker.mkChunkInfo 2 4 4 6 0 "a ";
          chunker.mkChunkInfo 3 4 6 8 0 "a "].
Proof. vm_compute. reflexivity. Qed.

(** ** The extraction service: progress events *)

(** A list of rational constants is sorted: every comparison computes. *)
Ltac sorted_constants :=
  repeat match goal with
         | |- StronglySorted _ [] => apply SSorted_nil
         | |- StronglySorted _ (_ :: _) => apply SSorted_cons
         | |- Forall _ [] => apply List.Forall_nil
         | |- Forall _ (_ :: _) => apply List.Forall_cons
         | |- extraction_service.progress_le _ _ => unfold extraction_service.progress_le; simpl
         | |- (_ <= _)%Q => discriminate
         end.

Section ProgressFacts.
Import results events types config templates llm extractors chunker extraction_service.
Context `{Runtime}.

Lemma progress_of_app (l1 l2 : list ServiceEvent) :
  progress_of (l1 ++ l2) = progress_of l1 ++ progress_of l2.
Proof. apply omap_app. Qed.

Lemma emits_weaken {A} (m : M SWorld A) (w : SWorld) (L : list (string * Q)) :
  emits m w L -> emits_prefix m w L.
Proof. intros (evs & Hp & Hpre & _). by exists evs. Qed.

Lemma emits_ret {A} (a : A) (w : SWorld) : emits (ret a) w [].
Proof. exists []. simpl. rewrite app_nil_r. by repeat split. Qed.

Lemma emits_prefix_nil {A} (m : M SWorld A) (w : SWorld) (L : list (string * Q)) :
  snd (m w) = w -> emits_prefix m w L.
Proof.
  intros Hw. exists []. rewrite Hw, app_nil_r. split; [done|]. apply prefix_nil.
Qed.

Lemma emits_progress (pid stage : string) (p : Q) (msg : string) (w : SWorld) :
  emits (_publish_progress pid stage p msg) w [(stage, p)].
Proof. exists [ExtractionProgressEvent pid stage p msg]. by repeat split. Qed.

Lemma emits_publish_other (ev : ServiceEvent) (w : SWorld) :
  progress_of [ev] = [] -> emits (publish ev) w [].
Proof. intros Hev. exists [ev]. rewrite Hev. by repeat split. Qed.

Lemma emits_lift {A} (m : M llm.World A) (w : SWorld) : emits (lift m) w [].
Proof.
  exists []. unfold lift. destruct (m (llm_world w)) as [r lw]; simpl.
  rewrite app_nil_r. by repeat split.
Qed.

Lemma emits_bind {A B} (m : M SWorld A) (k : A -> M SWorld B) (w : SWorld)
    (L1 L2 : list (string * Q)) :
  emits m w L1 ->
  (forall a w', m w = (Return a, w') -> emits (k a) w' L2) ->
  emits (mbind m k) w (L1 ++ L2).
Proof.
  intros (evs1 & Hp1 & Hpre1 & Hret1) Hk. unfold emits, emits_prefix, mbind.
  destruct (m w) as [[a|e] w'] eqn:Hm; simpl in *.
  - destruct (Hk a w' eq_refl) as (evs2 & Hp2 & Hpre2 & Hret2).
    exists (evs1 ++ evs2). rewrite Hp2, Hp1, <- app_assoc. split; [done|].
    rewrite progress_of_app, (Hret1 a eq_refl). split.
    + by apply prefix_app.
    + intros b Hb. by rewrite (Hret2 b Hb).
  - exists evs1. split; [done|]. split; [by apply prefix_app_r | done].
Qed.

Lemma emits_prefix_bind {A B} (m : M SWorld A) (k : A -> M SWorld B) (w : SWorld)
    (L1 L2 : list (string * Q)) :
  emits m w L1 ->
  (forall a w', m w = (Return a, w') -> emits_prefix (k a) w' L2) ->
  emits_prefix (mbind m k) w (L1 ++ L2).
Proof.
  intros (evs1 & Hp1 & Hpre1 & Hret1) Hk. unfold emits, emits_prefix, mbind.
  destruct (m w) as [[a|e] w'] eqn:Hm; simpl in *.
  - destruct (Hk a w' eq_refl) as (evs2 & Hp2 & Hpre2).
    exists (evs1 ++ evs2). rewrite Hp2, Hp1, <- app_assoc. split; [done|].
    rewrite progress_of_app, (Hret1 a eq_refl). by apply prefix_app.
  - exists evs1. split; [done | by apply prefix_app_r].
Qed.

(** The [except] clause of [extract_paper] publishes a completion
    event, which carries no progress fraction. *)
Lemma emits_prefix_try {A} (m : M SWorld (option (Result A exn))) (pid : string)
    (w : SWorld) (L : list (string * Q)) :
  emits_prefix m w L ->
  emits_prefix
    (try_except m (fun e =>
       _ <- publish (ExtractionCompletedEvent pid false 0 0) ;; ret (Some (Err e))))
    w L.
Proof.
  intros (evs & Hp & Hpre). unfold emits_prefix, try_except.
  destruct (m w) as [[a|e] w'] eqn:Hm; simpl in *.
  - by exists evs.
  - exists (evs ++ [ExtractionCompletedEvent pid false 0 0]).
    unfold mbind, publish, ret; simpl. rewrite Hp, <- app_assoc.
    split; [done|]. rewrite progress_of_app; simpl. by rewrite app_nil_r.
Qed.

Lemma indices_S (i : Z) (k : nat) : indices i (S k) = i :: indices (i + 1) k.
Proof.
  unfold indices. simpl. rewrite Z.add_0_r. f_equal.
  rewrite <- seq_shift, map_map. apply map_ext. intros j. lia.
Qed.

Lemma emits_chunk_step (self : ExtractionService) (input_data : PaperExtractionInput)
    (n : Z) (acc : list (string * pyval) * list pyval) (i : Z) (c : ChunkInfo)
    (w : SWorld) :
  emits (chunk_step self input_data n acc i c) w [("extracting", chunk_fraction n i)].
Proof.
  unfold chunk_step.
  apply (emits_bind _ _ _ [("extracting", chunk_fraction n i)] []);
    [apply emits_progress|].
  intros _ w1 _.
  apply (emits_bind _ _ _ [] []); [apply emits_lift|].
  intros result w2 _.
  destruct (success result); [|apply emits_ret].
  destruct (py_get (data result) "sections" (VDict [])) as [secs|e];
    [|by exists []; simpl; rewrite app_nil_r].
  destruct (py_items secs) as [items|e];
    [|by exists []; simpl; rewrite app_nil_r].
  destruct (py_get (data result) "concepts" (VList [])) as [cs|e];
    [|by exists []; simpl; rewrite app_nil_r].
  destruct (py_iter cs) as [concepts|e];
    [apply emits_ret | by exists []; simpl; rewrite app_nil_r].
Qed.

Lemma emits_chunk_loop (self : ExtractionService) (input_data : PaperExtractionInput)
    (n : Z) (chunks : list ChunkInfo) (acc : list (string * pyval) * list pyval)
    (i : Z) (w : SWorld) :
  emits (chunk_loop_from self input_data n acc i chunks) w
        (map (fun j => ("extracting", chunk_fraction n j)) (indices i (length chunks))).
Proof.
  revert acc i w. induction chunks as [|c chunks IH]; intros acc i w.
  - apply emits_ret.
  - cbn [chunk_loop_from length]. rewrite indices_S. cbn [map].
    apply (emits_bind _ _ _ [("extracting", chunk_fraction n i)]);
      [apply emits_chunk_step|].
    intros acc' w' _. apply IH.
Qed.

Lemma emits_finish (self : ExtractionService) (input_data : PaperExtractionInput)
    (result : ExtractionResult) (w : SWorld) :
  emits_prefix (finish self input_data result) w
    [("finalizing", 9 # 10); ("complete", 1)]%Q.
Proof.
  unfold finish. destruct (negb (success result)).
  - apply emits_prefix_nil. done.
  - apply (emits_prefix_bind _ _ _ [("finalizing", 9 # 10)]%Q [("complete", 1%Q)]);
      [apply emits_progress|].
    intros _ w1 _.
    destruct (_result_to_model self (title input_data) result) as [extracted|e].
    + apply emits_weaken.
      apply (emits_bind _ _ _ [("complete", 1%Q)] []); [apply emits_progress|].
      intros _ w2 _.
      apply (emits_bind _ _ _ [] []); [by apply emits_publish_other|].
      intros _ w3 _. apply emits_ret.
    + apply emits_prefix_nil. done.
Qed.

Lemma indices_0 (k : nat) : indices 0 k = map Z.of_nat (seq 0 k).
Proof. unfold indices. apply map_ext. intros j. lia. Qed.

Lemma emits_merge_chunks (self : ExtractionService) (input_data : PaperExtractionInput)
    (chunks : list ChunkInfo) (w : SWorld) :
  emits (merge_chunks self input_data chunks) w
        (map (chunk_progress (length chunks)) (seq 0 (length chunks))).
Proof.
  unfold merge_chunks.
  rewrite <- (app_nil_r (map _ (seq 0 (length chunks)))).
  apply emits_bind.
  - unfold chunk_progress.
    rewrite <- (map_map Z.of_nat
                  (fun j => ("extracting", chunk_fraction (Z.of_nat (length chunks)) j))).
    rewrite <- indices_0. apply emits_chunk_loop.
  - intros acc w' _.
    destruct (_deduplicate (snd acc) "name" []) as [concepts|e];
      [apply emits_ret | by exists []; simpl; rewrite app_nil_r].
Qed.

(** The fractions published by the [try] body are a prefix of the
    full path, or of the chunked path over the chunks [chunk()]
    returned. *)
Lemma emits_extract_body (self : ExtractionService) (input_data : PaperExtractionInput)
    (fuel : nat) (w : SWorld) :
  emits_prefix (extract_body self input_data fuel) w full_path
  \/ exists n, emits_prefix (extract_body self input_data fuel) w (chunked_path n).
Proof.
  unfold extract_body, _extract_chunked.
  destruct (negb (check_backend_health self)).
  { left. by apply emits_prefix_nil. }
  destruct (negb (pdf_exists (env self) (pdf_path input_data))).
  { left. apply (emits_prefix_bind _ _ _ [("parsing", 1 # 10)]%Q _); [apply emits_progress|].
    intros _ w1 _. by apply emits_prefix_nil. }
  destruct (pdf_parse (env self) (pdf_path input_data)) as [parsed_text|e].
  2:{ left. apply (emits_prefix_bind _ _ _ [("parsing", 1 # 10)]%Q _); [apply emits_progress|].
      intros _ w1 _. by apply emits_prefix_nil. }
  destruct (count_tokens parsed_text >? context_window (_config self) - 4000).
  - destruct (chunk (_chunker self) parsed_text
                (Some (context_window (_config self) - 4000)) None fuel)
      as [chunks|].
    + right. exists (length chunks).
      apply (emits_prefix_bind _ _ _ [("parsing", 1 # 10)]%Q _); [apply emits_progress|].
      intros _ w1 _.
      apply (emits_prefix_bind _ _ _ [("analyzing", 2 # 10)]%Q _); [apply emits_progress|].
      intros _ w2 _.
      apply (emits_prefix_bind _ _ _ [("chunking", 3 # 10)]%Q _); [apply emits_progress|].
      intros _ w3 _.
      apply emits_prefix_bind; [apply emits_merge_chunks|].
      intros result w4 _. apply emits_finish.
    + right. exists O.
      apply (emits_prefix_bind _ _ _ [("parsing", 1 # 10)]%Q _); [apply emits_progress|].
      intros _ w1 _.
      apply (emits_prefix_bind _ _ _ [("analyzing", 2 # 10)]%Q _); [apply emits_progress|].
      intros _ w2 _.
      apply (emits_prefix_bind _ _ _ [("chunking", 3 # 10)]%Q _); [apply emits_progress|].
      intros _ w3 _. by apply emits_prefix_nil.
  - left.
    apply (emits_prefix_bind _ _ _ [("parsing", 1 # 10)]%Q _); [apply emits_progress|].
    intros _ w1 _.
    apply (emits_prefix_bind _ _ _ [("analyzing", 2 # 10)]%Q _); [apply emits_progress|].
    intros _ w2 _.
    apply (emits_prefix_bind _ _ _ [("extracting", 4 # 10)]%Q _); [apply emits_progress|].
    intros _ w3 _.
    apply (emits_prefix_bind _ _ _ [] _); [apply emits_lift|].
    intros result w4 _. apply emits_finish.
Qed.

(** The chunk fractions lie between 0.3 and 0.8 and grow with the
    chunk index. *)
Lemma chunk_fraction_bounds (n i : nat) :
  (i < n)%nat ->
  (3 # 10 <= chunk_fraction (Z.of_nat n) (Z.of_nat i))%Q
  /\ (chunk_fraction (Z.of_nat n) (Z.of_nat i) <= 8 # 10)%Q.
Proof.
  intros Hi. unfold chunk_fraction.
  assert (Hn : (0 < inject_Z (Z.of_nat n))%Q).
  { change 0%Q with (inject_Z 0). rewrite <- Zlt_Qlt. lia. }
  assert (H0 : (0 <= inject_Z (Z.of_nat i) / inject_Z (Z.of_nat n))%Q).
  { apply Qle_shift_div_l; [exact Hn|]. rewrite Qmult_0_l.
    change 0%Q with (inject_Z 0). rewrite <- Zle_Qle. lia. }
  assert (H1 : (inject_Z (Z.of_nat i) / inject_Z (Z.of_nat n) <= 1)%Q).
  { apply Qle_shift_div_r; [exact Hn|]. rewrite Qmult_1_l, <- Zle_Qle. lia. }
  split.
  - rewrite <- (Qplus_0_r (3 # 10)) at 1. apply Qplus_le_r.
    apply Qmult_le_0_compat; [discriminate | exact H0].
  - apply (Qle_trans _ ((3 # 10) + (5 # 10) * 1)%Q); [|discriminate].
    apply Qplus_le_r. apply Qmult_le_l; [reflexivity | exact H1].
Qed.

Lemma chunk_fraction_mono (n i j : nat) :
  (i <= j)%nat ->
  (chunk_fraction (Z.of_nat n) (Z.of_nat i) <= chunk_fraction (Z.of_nat n) (Z.of_nat j))%Q.
Proof.
  intros Hij. unfold chunk_fraction.
  apply Qplus_le_r. apply Qmult_le_l; [reflexivity|].
  unfold Qdiv. apply Qmult_le_compat_r.
  - rewrite <- Zle_Qle. lia.
  - apply Qinv_le_0_compat. change 0%Q with (inject_Z 0). rewrite <- Zle_Qle. lia.
Qed.

Lemma chunk_fractions_sorted (n a k : nat) :
  StronglySorted progress_le (map (chunk_progress n) (seq a k)).
Proof.
  revert a. induction k as [|k IH]; intros a; simpl; constructor.
  - apply IH.
  - apply Forall_forall. intros x Hx.
    apply list_elem_of_In, in_map_iff in Hx as (j & <- & Hj).
    apply in_seq in Hj. apply chunk_fraction_mono. lia.
Qed.

Lemma full_path_sorted : StronglySorted progress_le full_path.
Proof. unfold full_path. sorted_constants. Qed.

Lemma chunked_path_sorted (n : nat) : StronglySorted progress_le (chunked_path n).
Proof.
  unfold chunked_path.
  apply StronglySorted_app_2.
  - intros x1 x2 Hx1 Hx2. unfold progress_le.
    assert (H1 : (snd x1 <= 3 # 10)%Q).
    { repeat (apply elem_of_cons in Hx1 as [->|Hx1]; [discriminate|]).
      by apply elem_of_nil in Hx1. }
    eapply Qle_trans; [exact H1|].
    apply elem_of_app in Hx2 as [Hx2|Hx2].
    + apply list_elem_of_In, in_map_iff in Hx2 as (j & <- & Hj).
      apply in_seq in Hj. apply chunk_fraction_bounds. lia.
    + apply elem_of_cons in Hx2 as [->|Hx2]; [discriminate|].
      apply list_elem_of_singleton in Hx2 as ->. discriminate.
  - sorted_constants.
  - apply StronglySorted_app_2.
    + intros x1 x2 Hx1 Hx2. unfold progress_le.
      apply list_elem_of_In, in_map_iff in Hx1 as (j & <- & Hj).
      apply in_seq in Hj.
      destruct (chunk_fraction_bounds n j) as [_ Hhi]; [lia|].
      eapply Qle_trans; [exact Hhi|].
      apply elem_of_cons in Hx2 as [->|Hx2]; [discriminate|].
      apply list_elem_of_singleton in Hx2 as ->. discriminate.
    + apply chunk_fractions_sorted.
    + sorted_constants.
Qed.

Lemma prefix_sorted (l L : list (string * Q)) :
  l `prefix_of` L -> StronglySorted progress_le L -> StronglySorted progress_le l.
Proof. intros [k ->] HL. by apply StronglySorted_app_1_l in HL. Qed.

(** C6.  Within one call of [extract_paper], whatever the backend, the
    file system, the parser, the extractors and the chunker do, and
    however long [chunk()] is given: the progress events published
    form a prefix of parsing 0.1, analyzing 0.2, extracting 0.4,
    finalizing 0.9, complete 1.0 (full path) or of parsing 0.1,
    analyzing 0.2, chunking 0.3, then extracting 0.3 + 0.5*(i/n) for
    i = 0..n-1, then finalizing 0.9, complete 1.0 (chunked path over n
    chunks), and the fraction of every event is at most that of every
    later one. *)
Theorem extract_paper_progress_monotone (self : ExtractionService)
    (input_data : PaperExtractionInput) (fuel : nat) (w : SWorld) :
  exists new,
    published (snd (extract_paper self input_data fuel w)) = published w ++ new
    /\ (progress_of new `prefix_of` full_path
        \/ exists n, progress_of new `prefix_of` chunked_path n)
    /\ StronglySorted progress_le (progress_of new).
Proof.
  assert (Hrun : forall L,
    emits_prefix (extract_body self input_data fuel)
      (mkSWorld (llm_world w)
         (published w ++ [ExtractionStartedEvent (paper_id input_data)
                            (extraction_types input_data)])) L ->
    exists new,
      published (snd (extract_paper self input_data fuel w)) = published w ++ new
      /\ progress_of new `prefix_of` L).
  { intros L Hbody.
    apply (emits_prefix_try _ (paper_id input_data)) in Hbody.
    destruct Hbody as (evs & Hp & Hpre).
    exists (ExtractionStartedEvent (paper_id input_data) (extraction_types input_data)
            :: evs).
    unfold extract_paper, mbind at 1, publish at 1.
    rewrite Hp. simpl. by rewrite <- app_assoc. }
  destruct (emits_extract_body self input_data fuel
              (mkSWorld (llm_world w)
                 (published w ++ [ExtractionStartedEvent (paper_id input_data)
                                    (extraction_types input_data)])))
    as [Hfull | [n Hchunked]].
  - destruct (Hrun _ Hfull) as (new & Hp & Hpre).
    exists new. split; [exact Hp|]. split; [by left|].
    exact (prefix_sorted _ _ Hpre full_path_sorted).
  - destruct (Hrun _ Hchunked) as (new & Hp & Hpre).
    exists new. split; [exact Hp|]. split; [right; by exists n|].
    exact (prefix_sorted _ _ Hpre (chunked_path_sorted n)).
Qed.

End ProgressFacts.

(** Three runs of [demo_service].  A text within the budget: the full
    path. *)
Example progress_full_path :
  progress_published (demo_service service_chunker 8192 "short text") 0
  = extraction_service.full_path.
Proof. vm_compute. reflexivity. Qed.

(** A text over the budget, chunked without overlap into four chunks. *)
Example progress_chunked_path :
  progress_published (demo_service no_overlap_chunker 4001 "a a a a ") 10
  = extraction_service.chunked_path 4.
Proof. vm_compute. reflexivity. Qed.

(** The same text with the chunker the service builds: after the
    "chunking" event the call is still in [chunk()]. *)
Example progress_chunker_stuck :
  progress_published (demo_service service_chunker 4001 "a a a a ") 50
  = [("parsing", 1 # 10); ("analyzing", 2 # 10); ("chunking", 3 # 10)]%Q
  /\ fst (extraction_service.extract_paper (H := demo_runtime)
            (demo_service service_chunker 4001 "a a a a ") demo_input 50 demo_sworld)
     = Return None.
Proof. vm_compute. split; reflexivity. Qed.

(** ** The paper scraper *)

Section ScraperFacts.
Import chunker util.

Lemma lines_nonempty (s : string) : lines s <> [].
Proof.
  induction s as [|c t IH]; simpl; [done|].
  destruct (is_LF c); [done|]. by destruct (lines t).
Qed.

Lemma is_LF_true (c : ascii) : is_LF c = true -> c = "010"%char.
Proof. unfold is_LF. by intros ?%Ascii.eqb_eq. Qed.

Lemma join_lines (s : string) : join (lines s) = s.
Proof.
  induction s as [|c t IH]; simpl; [done|].
  pose proof (lines_nonempty t) as Hne.
  destruct (is_LF c) eqn:Hc.
  - apply is_LF_true in Hc as ->.
    destruct (lines t) as [|l ls]; [done|]. simpl in *. by rewrite IH.
  - destruct (lines t) as [|l ls]; [done|].
    destruct ls as [|l' ls]; simpl in *; by rewrite <- IH.
Qed.

Lemma lines_no_lf (s : string) : Forall (fun l => no_lf l = true) (lines s).
Proof.
  induction s as [|c t IH]; simpl.
  - by repeat constructor.
  - destruct (is_LF c) eqn:Hc.
    + by constructor.
    + destruct (lines t) as [|l ls]; [by repeat constructor; simpl; rewrite Hc|].
      inversion IH as [|? ? Hl Hls]; subst. constructor; [|done].
      simpl. by rewrite Hc, Hl.
Qed.

Lemma skip_ws_app_nonblank (l rest : string) :
  skip_ws l <> EmptyString -> skip_ws (l +:+ rest) = skip_ws l +:+ rest.
Proof.
  induction l as [|c t IH]; simpl; [done|].
  destruct (is_space c); [exact IH | done].
Qed.

Lemma skip_ws_app_blank (l rest : string) :
  skip_ws l = EmptyString -> skip_ws (l +:+ rest) = skip_ws rest.
Proof.
  induction l as [|c t IH]; simpl; [done|].
  destruct (is_space c); [exact IH | done].
Qed.

(** A literal without line feed cannot run over the end of a line. *)
Lemma expect_ci_app (lit s rest : string) :
  line_end rest ->
  no_lf lit = true ->
  expect_ci lit (s +:+ rest) = (fun r => r +:+ rest) <$> expect_ci lit s.
Proof.
  intros Hend. revert s. induction lit as [|a lit IH]; intros s Hlit; [done|].
  simpl in Hlit. apply andb_true_iff in Hlit as [Ha Hlit].
  destruct s as [|b s]; simpl.
  - destruct Hend as [->|[more ->]]; simpl; [done|].
    destruct (Ascii.eqb (lower_char a) (lower_char "010")) eqn:Heq; [|done].
    exfalso. apply Ascii.eqb_eq in Heq.
    assert (Hl : forall x, lower_char x = "010"%char -> x = "010"%char).
    { intros x. destruct x as [[] [] [] [] [] [] [] []]; vm_compute; congruence. }
    apply Hl in Heq. subst a. discriminate.
  - destruct (Ascii.eqb (lower_char a) (lower_char b)); [by apply IH | done].
Qed.

Lemma span_nonspace_app (s rest : string) :
  line_end rest ->
  span_nonspace (s +:+ rest)
  = (fst (span_nonspace s), snd (span_nonspace s) +:+ rest).
Proof.
  intros Hend. induction s as [|c t IH]; simpl.
  - destruct Hend as [->|[more ->]]; [done|]. reflexivity.
  - destruct (is_space c); [done|].
    rewrite IH. by destruct (span_nonspace t).
Qed.

Lemma span_nonspace_no_lf (s : string) :
  no_lf s = true -> no_lf (snd (span_nonspace s)) = true.
Proof.
  induction s as [|c t IH]; simpl; [done|].
  intros [Hc Ht]%andb_true_iff.
  destruct (is_space c); simpl; [by rewrite Hc, Ht|].
  specialize (IH Ht). by destruct (span_nonspace t).
Qed.

Lemma at_eol_app (r rest : string) :
  no_lf r = true -> line_end rest ->
  at_eol_after_ws (r +:+ rest) = at_eol_after_ws r.
Proof.
  intros Hr Hend. induction r as [|c t IH]; simpl.
  - destruct Hend as [->|[more ->]]; reflexivity.
  - simpl in Hr. apply andb_true_iff in Hr as [Hc Ht].
    apply negb_true_iff in Hc. rewrite Hc.
    destruct (is_space c); [by apply IH | done].
Qed.

Lemma skip_ws_no_lf (s : string) : no_lf s = true -> no_lf (skip_ws s) = true.
Proof.
  induction s as [|c t IH]; simpl; [done|].
  intros [Hc Ht]%andb_true_iff.
  destruct (is_space c); [by apply IH | simpl; by rewrite Hc, Ht].
Qed.

Lemma expect_ci_no_lf (lit s r : string) :
  no_lf s = true -> expect_ci lit s = Some r -> no_lf r = true.
Proof.
  revert s. induction lit as [|a lit IH]; intros s Hs; simpl.
  - by intros [= <-].
  - destruct s as [|b s]; [done|]. simpl in Hs.
    apply andb_true_iff in Hs as [_ Hs].
    destruct (Ascii.eqb (lower_char a) (lower_char b)); [by apply IH | done].
Qed.

(** On a line that is neither blank nor dangling, the pattern sees
    the same thing whether or not further lines follow. *)
Lemma match_here_app (l rest : string) :
  no_lf l = true -> line_end rest ->
  skip_ws l <> EmptyString -> dangling l = false ->
  match_here (l +:+ rest) = match_here l.
Proof.
  intros Hl Hend Hblank Hd. unfold match_here, dangling in *.
  rewrite (skip_ws_app_nonblank _ _ Hblank).
  rewrite (expect_ci_app "link" _ _ Hend eq_refl).
  pose proof (skip_ws_no_lf _ Hl) as Hl1.
  destruct (expect_ci "link" (skip_ws l)) as [s2|] eqn:Hlink; simpl; [|done].
  pose proof (expect_ci_no_lf _ _ _ Hl1 Hlink) as Hl2.
  pose proof (skip_ws_no_lf _ Hl2) as Hl3.
  destruct (skip_ws s2) as [|c s4] eqn:Hs2; [done|].
  rewrite skip_ws_app_nonblank by (by rewrite Hs2). rewrite Hs2. simpl.
  destruct (Ascii.eqb c ":"); [|done].
  simpl in Hl3. apply andb_true_iff in Hl3 as [_ Hl4].
  pose proof (skip_ws_no_lf _ Hl4) as Hl5.
  destruct (skip_ws s4) as [|c5 s5] eqn:Hs4; [done|].
  rewrite skip_ws_app_nonblank by (by rewrite Hs4). rewrite Hs4.
  rewrite (span_nonspace_app _ _ Hend).
  pose proof (span_nonspace_no_lf _ Hl5) as Hl6.
  destruct (span_nonspace (String c5 s5)) as [tok r]. simpl in *.
  by rewrite (at_eol_app _ _ Hl6 Hend).
Qed.

(** A blank line hands the pattern over to the next line. *)
Lemma match_here_blank (l more : string) :
  skip_ws l = EmptyString ->
  match_here l = None /\ match_here (l +:+ String "010" more) = match_here more.
Proof.
  intros Hblank. unfold match_here. rewrite Hblank. split; [done|].
  by rewrite (skip_ws_app_blank _ _ Hblank).
Qed.

(** Inside a line no further start position is tried. *)
Lemma search_inside_line (l : string) :
  no_lf l = true ->
  search_from false l = None
  /\ forall more, search_from false (l +:+ String "010" more) = search_from true more.
Proof.
  induction l as [|c t IH]; simpl; intros Hl; [done|].
  apply andb_true_iff in Hl as [Hc Ht]. apply negb_true_iff in Hc.
  rewrite Hc. by apply IH.
Qed.

Lemma search_line (l : string) :
  no_lf l = true ->
  search_from true l = match_here l
  /\ forall more,
      search_from true (l +:+ String "010" more)
      = match match_here (l +:+ String "010" more) with
        | Some u => Some u
        | None => search_from true more
        end.
Proof.
  intros Hl. destruct l as [|c t]; simpl.
  - split; [reflexivity|]. intros more. reflexivity.
  - simpl in Hl. apply andb_true_iff in Hl as [Hc Ht]. apply negb_true_iff in Hc.
    rewrite Hc. destruct (search_inside_line t Ht) as [Hnone Hmore]. split.
    + rewrite Hnone. by destruct (match_here (String c t)).
    + intros more. by rewrite Hmore.
Qed.

Lemma search_from_true_head (s : string) (u : string) :
  match_here s = Some u -> search_from true s = Some u.
Proof.
  intros Hm. destruct s as [|c t]; [by vm_compute in Hm|].
  change (search_from true (String c t))
    with (match match_here (String c t) with
          | Some u => Some u
          | None => search_from (is_LF c) t
          end).
  by rewrite Hm.
Qed.

(** A line that matches alone is neither blank nor dangling. *)
Lemma match_here_line (l u : string) :
  match_here l = Some u -> skip_ws l <> EmptyString /\ dangling l = false.
Proof.
  unfold match_here, dangling.
  destruct (skip_ws l) as [|c0 l0] eqn:Hl; [done|]. intros Hm. split; [done|].
  destruct (expect_ci "link" (String c0 l0)) as [s2|]; [|done].
  destruct (skip_ws s2) as [|c s4]; [done|].
  destruct (Ascii.eqb c ":"); [|done].
  destruct (skip_ws s4) as [|c5 s5] eqn:Hs4; [|done].
  by vm_compute in Hm.
Qed.

(** With no dangling line in front of the first line that matches
    alone, the search over the whole text finds the URL of that line. *)
Lemma search_lines (ls : list string) :
  ls <> [] ->
  Forall (fun l => no_lf l = true) ls ->
  Forall (fun l => dangling l = false) (before_match ls) ->
  search_from true (join ls) = first_line_url ls.
Proof.
  induction ls as [|l ls IH]; [done|]. intros _ Hlf Hd.
  inversion Hlf as [|? ? Hl Hlf']; subst.
  destruct ls as [|l' ls'].
  - simpl. destruct (search_line l Hl) as [-> _]. by destruct (match_here l).
  - change (join (l :: l' :: ls')) with (l +:+ String "010" (join (l' :: ls'))).
    change (first_line_url (l :: l' :: ls'))
      with (match match_here l with
            | Some u => Some u
            | None => first_line_url (l' :: ls')
            end).
    change (before_match (l :: l' :: ls'))
      with (match match_here l with
            | Some _ => []
            | None => l :: before_match (l' :: ls')
            end) in Hd.
    destruct (search_line l Hl) as [_ ->].
    destruct (match_here l) as [u|] eqn:Hm.
    + destruct (match_here_line l u Hm) as [Hblank Hdl].
      rewrite match_here_app; [| done | right; by eexists | done | done].
      by rewrite Hm.
    + inversion Hd as [|? ? Hdl Hd']; subst.
      specialize (IH ltac:(done) Hlf' Hd').
      destruct (skip_ws l) as [|c t] eqn:Hblank.
      * destruct (match_here_blank l (join (l' :: ls')) Hblank) as [_ ->].
        destruct (match_here (join (l' :: ls'))) as [u|] eqn:Hm'; [|exact IH].
        rewrite <- IH. symmetry. by apply search_from_true_head.
      * rewrite match_here_app; [| done | right; by eexists | by rewrite Hblank | done].
        by rewrite Hm, IH.
Qed.

(** The search over the whole text tries the start of each line in
    turn, against all the text that begins there. *)
Lemma search_first_match (ls : list string) :
  ls <> [] ->
  Forall (fun l => no_lf l = true) ls ->
  search_from true (join ls) = first_match ls.
Proof.
  induction ls as [|l ls IH]; [done|]. intros _ Hlf.
  inversion Hlf as [|? ? Hl Hlf']; subst.
  destruct ls as [|l' ls'].
  - simpl. destruct (search_line l Hl) as [-> _]. by destruct (match_here l).
  - change (first_match (l :: l' :: ls'))
      with (match match_here (join (l :: l' :: ls')) with
            | Some u => Some u
            | None => first_match (l' :: ls')
            end).
    change (join (l :: l' :: ls')) with (l +:+ String "010" (join (l' :: ls'))).
    destruct (search_line l Hl) as [_ ->].
    by rewrite IH.
Qed.

Lemma search_before_match (content : string) :
  Forall (fun l => dangling l = false) (before_match (lines content)) ->
  search content = first_line_url (lines content).
Proof.
  intros Hd. unfold search. rewrite <- (join_lines content) at 1.
  apply search_lines; [apply lines_nonempty | apply lines_no_lf | exact Hd].
Qed.

Lemma search_lines_of (content : string) :
  search content = first_match (lines content).
Proof.
  unfold search. rewrite <- (join_lines content) at 1.
  apply search_first_match; [apply lines_nonempty | apply lines_no_lf].
Qed.

End ScraperFacts.

Section ScraperRecords.
Import chunker util.

Lemma visit_records (fs : Files) (ds : list Dir) :
  Forall2 record_of (filter (fun d => has_paper_md d = true) ds)
          (concat (map (visit fs) ds)).
Proof.
  induction ds as [|d ds IH]; [constructor|].
  cbn [map concat]. rewrite filter_cons.
  assert (Hhas : has_paper_md d = match paper_md (dir_files d) with
                                  | Some _ => true
                                  | None => false
                                  end) by reflexivity.
  unfold visit at 1. revert Hhas.
  generalize (has_paper_md d).
  destruct (paper_md (dir_files d)) as [read|] eqn:Hp; intros b ->.
  - rewrite decide_True by done. cbn [app]. constructor; [|exact IH].
    split; [done|]. rewrite Hp. cbn [url].
    destruct read as [content|e]; [|reflexivity].
    unfold link_of, spec_link_of. split.
    + rewrite search_lines_of. by destruct (first_match (lines content)).
    + intros Hd. by rewrite (search_before_match _ Hd).
  - rewrite decide_False by done. exact IH.
Qed.

(** C10, amended.  Scanning the tree configured under a key yields one
    record for every directory that holds a [Paper.md], in the order of
    the walk, and none for the others; the record carries the
    directory's name.  Its URL is the error text when the file could
    not be read.  Otherwise it is the URL of the first match of the
    pattern from the start of a line, white space standing for line
    feeds too, so that a match may begin on a line that is blank or
    only [link] or [link:] and end on a later one; or
    ["NO LINK FOUND"] without such a match.  Whenever no line in front
    of the first line matching alone is only [link] or [link:], this
    is the URL of the first line matching alone, or the sentinel when
    none does. *)
Theorem get_paper_urls_records (fs : Files) (directory_key : string)
    (section : gmap string string) (main_dir : string) (root : Dir) :
  directories fs = Some section ->
  section !! lower directory_key = Some main_dir ->
  tree_at fs main_dir = Some root ->
  exists records,
    get_paper_urls fs directory_key = Return records
    /\ Forall2 record_of (filter (fun d => has_paper_md d = true) (walk root)) records.
Proof.
  intros Hsec Hkey Htree. exists (scan fs root). split.
  - unfold get_paper_urls. by rewrite Hsec, Hkey, Htree.
  - apply visit_records.
Qed.

End ScraperRecords.

(** C10 as stated fails here: no line of the file matches the
    pattern, yet the record carries a URL and not the sentinel. *)
Lemma get_paper_urls_split_link_counterexample :
  util.first_line_url (util.lines split_link) = None
  /\ util.get_paper_urls split_vault "papers"
     = Return [util.mkPaperRecord "Attention" "http://a.b" "No"]
  /\ ~ (exists r, util.get_paper_urls split_vault "papers" = Return [r]
                  /\ util.url r = util.spec_link_of split_link).
Proof.
  split; [reflexivity|]. split; [reflexivity|].
  intros (r & Hr & Hurl). vm_compute in Hr. injection Hr as <-.
  vm_compute in Hurl. discriminate.
Qed.

(** The records of [demo_vault]: the folder without [Paper.md] has
    none; the unreadable file gives the error text as URL. *)
Lemma get_paper_urls_records_witness :
  util.get_paper_urls demo_vault "Papers"
  = Return [util.mkPaperRecord "Attention" "https://example.org/paper.pdf" "Yes";
            util.mkPaperRecord "Draft" "NO LINK FOUND" "No";
            util.mkPaperRecord "Locked" "ERROR READING FILE: Permission denied" "No"].
Proof.
  destruct (get_paper_urls_records demo_vault "Papers" {[ "papers" := "Papers" ]}
              "Papers"
              (util.mkDir "Papers" [("README.md", Return "papers")]
                 [util.mkDir "Attention"
                    [("Paper.md",
                      Return ("# Attention" +:+ chunker.LF
                              +:+ "  LINK:  https://example.org/paper.pdf  "
                              +:+ chunker.LF +:+ "notes"))] [];
                  util.mkDir "Notes" [("notes.md", Return "link: http://x.y")] [];
                  util.mkDir "Draft" [("Paper.md", Return "no link here")] [];
                  util.mkDir "Locked"
                    [("Paper.md", Raise (OtherException "Permission denied"))] []]))
    as (records & Hrun & _).
  - reflexivity.
  - reflexivity.
  - reflexivity.
  - rewrite Hrun. vm_compute in Hrun. injection Hrun as <-. reflexivity.
Defined.

(** ** Strings *)

Lemma string_app_cons (c : ascii) (a b : string) :
  String c a +:+ b = String c (a +:+ b).
Proof. reflexivity. Qed.

Lemma string_app_nil_r (s : string) : s +:+ EmptyString = s.
Proof.
  induction s as [|c s IH]; [done|].
  change (String c (s +:+ EmptyString) = String c s). by rewrite IH.
Qed.

Lemma string_app_assoc (a b c : string) : (a +:+ b) +:+ c = a +:+ (b +:+ c).
Proof.
  induction a as [|x a IH]; [done|].
  change (String x ((a +:+ b) +:+ c) = String x (a +:+ (b +:+ c))). by rewrite IH.
Qed.

Lemma string_app_length (a b : string) :
  String.length (a +:+ b) = (String.length a + String.length b)%nat.
Proof.
  induction a as [|x a IH]; [done|].
  rewrite string_app_cons. simpl. by rewrite IH.
Qed.

(** ** More of core/results.py *)

Section ResultMethods.
Import results.
Context {T U V E : Type}.

Lemma collect_loop_acc (rs : list (Result T E)) (acc : list T) :
  collect_loop rs acc
  = result_methods.map (collect_loop rs []) (fun vs => acc ++ vs).
Proof.
  revert acc. induction rs as [|r rs IH]; intros acc; simpl.
  - by rewrite app_nil_r.
  - destruct r as [v|e]; [|done].
    rewrite (IH (acc ++ [v])), (IH [v]).
    destruct (collect_loop rs []) as [vs|e]; simpl; [|done].
    by rewrite <- app_assoc.
Qed.

(** X1.  Collecting a concatenation is collecting the first list and
    then, if that gave [Ok], the second: the first [Err] of either part
    wins and the values are appended in order. *)
Theorem collect_results_app (rs1 rs2 : list (Result T E)) :
  collect_results (rs1 ++ rs2)
  = result_methods.and_then (collect_results rs1) (fun a =>
      result_methods.map (collect_results rs2) (fun b => a ++ b)).
Proof.
  unfold collect_results.
  enough (Hacc : forall acc,
             collect_loop (rs1 ++ rs2) acc
             = result_methods.and_then (collect_loop rs1 acc) (fun a =>
                 result_methods.map (collect_loop rs2 []) (fun b => a ++ b)))
    by apply Hacc.
  induction rs1 as [|r rs1 IH]; intros acc; simpl.
  - apply collect_loop_acc.
  - destruct r as [v|e]; [apply IH | done].
Qed.

(** [and_then] chains as a monad with unit [Ok], and [map] is the
    chain with a step that cannot fail: regrouping a chain of fallible
    steps does not change its result. *)
Lemma and_then_laws (r : Result T E) (f : T -> Result U E) (g : U -> Result V E)
    (h : T -> U) :
  result_methods.and_then (result_methods.and_then r f) g
  = result_methods.and_then r (fun x => result_methods.and_then (f x) g)
  /\ result_methods.and_then r Ok = r
  /\ result_methods.map r h = result_methods.and_then r (fun x => Ok (h x))
  /\ result_methods.and_then (result_methods.map r h) g
     = result_methods.and_then r (fun x => g (h x)).
Proof. by destruct r. Qed.

End ResultMethods.

(** X2.  [try_call] followed by [unwrap] is the call itself: a caught
    exception is raised again by [unwrap], one that is not caught was
    never wrapped.  Without exception classes every exception is
    caught. *)
Theorem try_call_unwrap {T : Type} (fn : outcome T) (exceptions : list (exn -> bool)) :
  bind (result_methods.try_call fn exceptions) result_methods.unwrap = fn
  /\ exists r, result_methods.try_call fn [] = Return r.
Proof.
  split.
  - destruct fn as [v|e]; simpl; [done|].
    destruct exceptions as [|c cs]; [done|].
    by destruct (existsb _ _).
  - destruct fn; simpl; by eexists.
Qed.

(** ** More of core/base.py *)

Section Crud.
Import base.
Context {Row T V : Type} `{EqDecision V}.

#[local] Abbreviation Repo := (Repository Row T V).

Lemma selected_ordered (repo : Repo) (filters : Filters V) (order_by : option string) :
  selected repo filters order_by = map (row_to_entity repo) (ordered repo filters order_by).
Proof.
  unfold selected, execute, ordered; simpl.
  by destruct order_by as [ob|]; [destruct (String.eqb ob "")|].
Qed.

Lemma page_items_ordered (repo : Repo) (page page_size : Z) (filters : Filters V)
    (order_by : option string) :
  1 <= page -> 1 <= page_size ->
  page_items repo page page_size filters order_by
  = map (row_to_entity repo)
        (take (Z.to_nat page_size)
              (drop (Z.to_nat (page - 1) * Z.to_nat page_size)
                    (ordered repo filters order_by))).
Proof.
  intros Hp Hs. unfold page_items, get_paginated.
  destruct (page_size =? 0) eqn:Hz; [lia|]. simpl.
  unfold execute, ordered; simpl.
  destruct (page_size <? 0) eqn:Hneg; [lia|].
  replace (Z.to_nat ((page - 1) * page_size))
    with (Z.to_nat (page - 1) * Z.to_nat page_size)%nat
    by (rewrite Z2Nat.inj_mul; lia).
  by destruct order_by as [ob|]; [destruct (String.eqb ob "")|].
Qed.

Lemma ordered_length (repo : Repo) (filters : Filters V) (order_by : option string) :
  (forall ob rows, length (order_rows repo ob rows) = length rows) ->
  Z.of_nat (length (ordered repo filters order_by)) = count repo filters.
Proof.
  intros Hperm. unfold ordered, count.
  destruct order_by as [ob|]; [|done].
  destruct (String.eqb ob ""); [done|]. by rewrite Hperm.
Qed.

Lemma concat_pages {A} (l : list A) (n k : nat) :
  concat (map (fun i => take n (drop (i * n) l)) (seq 0 k)) = take (k * n) l.
Proof.
  induction k as [|k IH]; [done|].
  rewrite seq_S, map_app, concat_app, IH; simpl.
  rewrite app_nil_r, take_take_drop. f_equal. lia.
Qed.

(** X3.  Read page after page, the pages give every selected entity
    exactly once and in the order of the SELECT: the pages 1 to
    [total_pages] concatenate to the whole selection.  The engine's
    ORDER BY is assumed to keep the number of rows. *)
Theorem pages_cover_selection (repo : Repo) (page_size : Z) (filters : Filters V)
    (order_by : option string) (r : PaginatedResult T) :
  1 <= page_size ->
  (forall ob rows, length (order_rows repo ob rows) = length rows) ->
  get_paginated repo 1 page_size filters order_by = Return r ->
  concat (map (fun i => page_items repo (Z.of_nat i + 1) page_size filters order_by)
              (seq 0 (Z.to_nat (total_pages r))))
  = selected repo filters order_by.
Proof.
  intros Hs Hperm Hr.
  unfold get_paginated in Hr. destruct (page_size =? 0) eqn:Hz; [lia|].
  injection Hr as <-; simpl.
  pose proof (ordered_length repo filters order_by Hperm) as Hlen.
  set (k := Z.to_nat ((count repo filters + page_size - 1) / page_size)).
  rewrite (map_ext _ (fun i => map (row_to_entity repo)
                                 (take (Z.to_nat page_size)
                                    (drop (i * Z.to_nat page_size)
                                       (ordered repo filters order_by))))).
  2:{ intros i. rewrite page_items_ordered by lia.
      by replace (Z.to_nat (Z.of_nat i + 1 - 1)) with i by lia. }
  rewrite <- (map_map (fun i => take (Z.to_nat page_size)
                                  (drop (i * Z.to_nat page_size)
                                     (ordered repo filters order_by)))
                      (map (row_to_entity repo))).
  rewrite <- concat_map, concat_pages, selected_ordered. f_equal.
  apply take_ge.
  assert (Hc : 0 <= count repo filters) by (unfold count; lia).
  assert (Hk : count repo filters
               <= page_size * ((count repo filters + page_size - 1) / page_size)).
  { pose proof (Z.div_mod (count repo filters + page_size - 1) page_size ltac:(lia)).
    pose proof (Z.mod_pos_bound (count repo filters + page_size - 1) page_size ltac:(lia)).
    lia. }
  assert (0 <= (count repo filters + page_size - 1) / page_size)
    by (apply Z.div_pos; lia).
  subst k. nia.
Qed.

(** X4.  A page never holds more than [page_size] items; it is full
    whenever [has_next] holds, and empty beyond the last page. *)
Theorem page_sizes (repo : Repo) (page page_size : Z) (filters : Filters V)
    (order_by : option string) (r : PaginatedResult T) :
  1 <= page -> 1 <= page_size ->
  (forall ob rows, length (order_rows repo ob rows) = length rows) ->
  get_paginated repo page page_size filters order_by = Return r ->
  Z.of_nat (length (items r)) <= page_size
  /\ (has_next r = true -> Z.of_nat (length (items r)) = page_size)
  /\ (total_pages r < page -> items r = [])
  /\ (page <= total_pages r -> items r <> []).
Proof.
  intros Hp Hs Hperm Hr.
  pose proof (page_items_ordered repo page page_size filters order_by Hp Hs) as Hitems.
  unfold page_items in Hitems. rewrite Hr in Hitems.
  unfold get_paginated in Hr. destruct (page_size =? 0) eqn:Hz; [lia|].
  injection Hr as <-; simpl in *. rewrite !Hitems. clear Hitems.
  pose proof (ordered_length repo filters order_by Hperm) as Hlen.
  set (c := count repo filters) in *.
  assert (Hc : 0 <= c) by (subst c; unfold count; lia).
  pose proof (Z.div_mod (c + page_size - 1) page_size ltac:(lia)) as Hdm.
  pose proof (Z.mod_pos_bound (c + page_size - 1) page_size ltac:(lia)) as Hmod.
  set (L := ordered repo filters order_by) in *.
  set (tp := (c + page_size - 1) / page_size) in *.
  assert (Hoff : Z.of_nat (Z.to_nat (page - 1) * Z.to_nat page_size)
                 = (page - 1) * page_size) by nia.
  set (off := (Z.to_nat (page - 1) * Z.to_nat page_size)%nat) in *.
  unfold has_next; simpl.
  rewrite length_map, length_take, length_drop.
  repeat split.
  - lia.
  - intros Hn. apply Z.ltb_lt in Hn.
    assert (page * page_size <= tp * page_size - page_size) by nia.
    lia.
  - intros Hbeyond. rewrite drop_ge; [by rewrite take_nil|].
    assert (tp * page_size <= (page - 1) * page_size) by nia.
    lia.
  - intros Hin Hnil. apply (f_equal length) in Hnil.
    rewrite length_map, length_take, length_drop in Hnil. simpl in Hnil.
    assert ((page - 1) * page_size <= tp * page_size - page_size) by nia.
    lia.
Qed.

(** X5.  [BaseCRUDService.list] with a non-empty filter returns the
    first 1000 matching entities and no more, however many [count]
    reports; without a filter it returns every row. *)
Theorem list_caps_at_1000 (repo : Repo) (filters : Filters V) :
  exists l,
    crud.list_ repo filters = Return l
    /\ match filters with
       | Some (_ :: _) =>
           l = take 1000 (map (row_to_entity repo) (where_ repo filters))
           /\ Z.of_nat (length l) = Z.min 1000 (count repo filters)
       | _ => l = map (row_to_entity repo) (table_rows repo)
              /\ Z.of_nat (length l) = count repo filters
       end.
Proof.
  unfold crud.list_, count.
  destruct filters as [[|c cs]|]; simpl.
  - eexists; split; [done|]. unfold crud.get_all. by rewrite length_map.
  - eexists; split; [done|]. unfold execute; simpl.
    rewrite drop_0. split; [by rewrite firstn_map|].
    rewrite length_map, length_take. lia.
  - eexists; split; [done|]. unfold crud.get_all. by rewrite length_map.
Qed.

Lemma filter_other_id (repo : Repo) (id_column : string) (i j : V) (rows : list Row) :
  j <> i ->
  List.filter (crud.has_id repo id_column j)
    (List.filter (fun row => negb (crud.has_id repo id_column i row)) rows)
  = List.filter (crud.has_id repo id_column j) rows.
Proof.
  intros Hne. induction rows as [|row rows IH]; [done|]; simpl.
  destruct (crud.has_id repo id_column i row) eqn:Hi; simpl.
  - assert (Hj : crud.has_id repo id_column j row = false).
    { unfold crud.has_id in *. apply bool_decide_eq_true_1 in Hi.
      apply bool_decide_eq_false_2. congruence. }
    by rewrite Hj.
  - by rewrite IH.
Qed.

Lemma filter_same_id (repo : Repo) (id_column : string) (i : V) (rows : list Row) :
  List.filter (crud.has_id repo id_column i)
    (List.filter (fun row => negb (crud.has_id repo id_column i row)) rows) = [].
Proof.
  induction rows as [|row rows IH]; [done|]; simpl.
  destruct (crud.has_id repo id_column i row) eqn:Hrow; simpl; [done|].
  by rewrite Hrow.
Qed.

(** X6.  [delete] answers whether the id existed; afterwards the id is
    gone for [exists] and [get_by_id], and every other id is found as
    before.  [exists] holds exactly when [get_by_id] finds an entity. *)
Theorem delete_then_lookup (repo : Repo) (id_column : string) (i : V) :
  let deleted := fst (crud.delete repo id_column i) in
  let repo' := snd (crud.delete repo id_column i) in
  deleted = crud.exists_ repo id_column i
  /\ (crud.exists_ repo id_column i = true <-> is_Some (crud.get_by_id repo id_column i))
  /\ crud.exists_ repo' id_column i = false
  /\ crud.get_by_id repo' id_column i = None
  /\ forall j, j <> i ->
       crud.get_by_id repo' id_column j = crud.get_by_id repo id_column j
       /\ crud.exists_ repo' id_column j = crud.exists_ repo id_column j.
Proof.
  unfold crud.delete, crud.exists_, crud.get_by_id; simpl.
  set (repo' := mkRepository _ _ _ _).
  assert (Hid : forall j, crud.has_id repo' id_column j = crud.has_id repo id_column j)
    by done.
  rewrite Hid, filter_same_id.
  assert (Hother : forall j, j <> i ->
            List.filter (crud.has_id repo' id_column j)
              (List.filter (fun row => negb (crud.has_id repo id_column i row))
                 (table_rows repo))
            = List.filter (crud.has_id repo id_column j) (table_rows repo)).
  { intros j Hj. rewrite Hid. by apply filter_other_id. }
  destruct (List.filter (crud.has_id repo id_column i) (table_rows repo)) as [|row rows].
  - split; [done|]. split; [split; [done | by intros [? ?]]|].
    split; [done|]. split; [done|]. intros j Hj. by rewrite Hother.
  - split; [done|]. split; [split; [by eexists | done]|].
    split; [done|]. split; [done|]. intros j Hj. by rewrite Hother.
Qed.

End Crud.

(** Five rows, three selected, read in pages of two. *)
Lemma pages_cover_selection_witness :
  concat (map (fun i => page_items demo_repo (Z.of_nat i + 1) 2 (Some [("k", 7)]) None)
              (seq 0 2))
  = selected demo_repo (Some [("k", 7)]) None.
Proof.
  apply (pages_cover_selection demo_repo 2 (Some [("k", 7)]) None
           (base.mkPaginatedResult [[("id", 1); ("k", 7)]; [("id", 3); ("k", 7)]]
              3 1 2 2)).
  - lia.
  - reflexivity.
  - reflexivity.
Defined.

Lemma page_sizes_witness :
  exists r,
    base.get_paginated demo_repo 1 2 (Some [("k", 7)]) None = Return r
    /\ Z.of_nat (length (base.items r)) = 2
    /\ base.items r <> [].
Proof.
  exists (base.mkPaginatedResult [[("id", 1); ("k", 7)]; [("id", 3); ("k", 7)]] 3 1 2 2).
  destruct (page_sizes demo_repo 1 2 (Some [("k", 7)]) None
              (base.mkPaginatedResult [[("id", 1); ("k", 7)]; [("id", 3); ("k", 7)]]
                 3 1 2 2))
    as (_ & Hfull & _ & Hne).
  - lia.
  - lia.
  - reflexivity.
  - reflexivity.
  - split; [reflexivity|]. split; [apply Hfull; reflexivity | apply Hne; simpl; lia].
Defined.

(** ** More of the event bus *)

Section BusFacts.
Import events.
Context {Ev W : Type} `{Event Ev}.

#[local] Abbreviation Handler := EventHandler.
#[local] Abbreviation Bus := EventBus.

Lemma subscribe_registered (bus : Bus) (k : string) (h : Handler) (k' : string) :
  registered (subscribe bus k h) k'
  = if decide (k' = k) then registered bus k ++ [h] else registered bus k'.
Proof.
  unfold subscribe.
  pose proof (getitem_registered bus k) as [Hl Hb].
  destruct (getitem bus k) as [l bus']; simpl in *. subst l.
  unfold registered at 1; simpl.
  destruct (decide (k' = k)) as [->|Hne].
  - by rewrite lookup_insert_eq.
  - rewrite lookup_insert_ne by done. apply Hb.
Qed.

Lemma remove_first_absent (i : nat) (l : list Handler) :
  existsb (fun h => Nat.eqb (h_id h) i) l = false -> remove_first i l = l.
Proof.
  induction l as [|h l IH]; simpl; [done|].
  destruct (Nat.eqb (h_id h) i); simpl; [discriminate|].
  intros Hl. by rewrite IH.
Qed.

Lemma unsubscribe_registered (bus : Bus) (k : string) (h : Handler) (k' : string) :
  registered (unsubscribe bus k h) k'
  = if decide (k' = k) then remove_first (h_id h) (registered bus k)
    else registered bus k'.
Proof.
  unfold unsubscribe.
  pose proof (getitem_registered bus k) as [Hl Hb].
  destruct (getitem bus k) as [l bus']; simpl in *. subst l.
  destruct (existsb _ _) eqn:Hin.
  - unfold registered at 1; simpl.
    destruct (decide (k' = k)) as [->|Hne].
    + by rewrite lookup_insert_eq.
    + rewrite lookup_insert_ne by done. apply Hb.
  - rewrite Hb. destruct (decide (k' = k)) as [->|Hne]; [|done].
    by rewrite remove_first_absent.
Qed.

Lemma remove_first_last (l : list Handler) (h : Handler) :
  (forall h', h' ∈ l -> h_id h' <> h_id h) ->
  remove_first (h_id h) (l ++ [h]) = l.
Proof.
  induction l as [|a l IH]; intros Hl; simpl.
  - by rewrite Nat.eqb_refl.
  - destruct (Nat.eqb (h_id a) (h_id h)) eqn:Ha.
    + apply Nat.eqb_eq in Ha. destruct (Hl a); [apply list_elem_of_here | done].
    + rewrite IH; [done|]. intros h' Hh'. apply Hl. by apply list_elem_of_further.
Qed.

Lemma count_id_remove_first (i j : nat) (l : list Handler) :
  count_id j (remove_first i l)
  = (count_id j l - (if Nat.eqb j i then 1 else 0))%nat.
Proof.
  unfold count_id. induction l as [|h l IH]; simpl; [done|].
  destruct (Nat.eqb (h_id h) i) eqn:Hi.
  - apply Nat.eqb_eq in Hi. subst i.
    destruct (Nat.eqb j (h_id h)) eqn:Hj.
    + apply Nat.eqb_eq in Hj. subst j. rewrite Nat.eqb_refl. simpl. lia.
    + rewrite Nat.eqb_sym, Hj. lia.
  - simpl. destruct (Nat.eqb (h_id h) j) eqn:Hj; simpl.
    + apply Nat.eqb_eq in Hj. subst j. rewrite Hi in IH |- *. lia.
    + exact IH.
Qed.

(** X7.  Subscribing a handler that was not registered for the type
    and unsubscribing it again leaves every registration as it was. *)
Theorem unsubscribe_subscribe (bus : Bus) (k : string) (h : Handler) :
  (forall h', h' ∈ registered bus k -> h_id h' <> h_id h) ->
  forall k', registered (unsubscribe (subscribe bus k h) k h) k' = registered bus k'.
Proof.
  intros Hnew k'. rewrite unsubscribe_registered, !subscribe_registered.
  destruct (decide (k' = k)) as [->|Hne]; [|done].
  rewrite decide_True by done. by apply remove_first_last.
Qed.

(** X8.  [unsubscribe] removes one registration of the handler and no
    other: under the type, the handler is registered once less (not at
    all less when it was not registered), every other handler as often
    as before, and the other types are untouched. *)
Theorem unsubscribe_removes_one (bus : Bus) (k : string) (h : Handler) (j : nat) :
  count_id j (registered (unsubscribe bus k h) k)
  = (count_id j (registered bus k) - (if Nat.eqb j (h_id h) then 1 else 0))%nat
  /\ forall k', k' <> k -> registered (unsubscribe bus k h) k' = registered bus k'.
Proof.
  split.
  - rewrite unsubscribe_registered, decide_True by done.
    apply count_id_remove_first.
  - intros k' Hne. rewrite unsubscribe_registered. by rewrite decide_False.
Qed.


(** With nobody registered under the event's type or under ["*"],
    [publish] only reads the dictionary. *)
Lemma publish_nobody (code : Handlers Ev W) (event : Ev) (fuel : nat)
    (w : World Ev W) :
  registered (event_bus w) (event_type event) = [] ->
  registered (event_bus w) "*" = [] ->
  publish code event (S fuel) w
  = Some (Return tt, touch "*" (touch (event_type event) w)).
Proof.
  intros Ht Hw. unfold publish. cbn [deliver].
  destruct (getitem_registered (event_bus w) (event_type event)) as [_ Hreg1].
  rewrite contents_ref. cbn [touch event_bus] in *.
  rewrite Hreg1, Ht. cbn [lookup list_lookup].
  rewrite contents_ref. cbn [touch event_bus] in *.
  destruct (getitem_registered (snd (getitem (event_bus w) (event_type event))) "*")
    as [_ Hreg2].
  by rewrite Hreg2, Hreg1, Hw.
Qed.

(** After [clear] nothing is registered, and publishing calls no
    handler and prints nothing. *)
Lemma clear_silences_bus (code : Handlers Ev W) (event : Ev) (fuel : nat)
    (w : World Ev W) (k : string) :
  let cleared_w := mkWorld (clear (event_bus w)) (app w) (calls w) (stdout w) in
  registered (clear (event_bus w)) k = []
  /\ exists w',
      publish code event (S fuel) cleared_w = Some (Return tt, w')
      /\ calls w' = calls w
      /\ app w' = app w
      /\ stdout w' = stdout w.
Proof.
  split; [done|]. eexists. split; [by apply publish_nobody | done].
Qed.

End BusFacts.

(** [hw] is not registered under ["T"] in [demo_bus]. *)
Lemma unsubscribe_subscribe_witness :
  events.registered
    (events.unsubscribe (events.subscribe demo_bus "T" hw) "T" hw) "T"
  = events.registered demo_bus "T".
Proof.
  apply (unsubscribe_subscribe demo_bus "T" hw).
  intros h' Hh'. vm_compute in Hh'.
  apply elem_of_cons in Hh' as [->|Hh']; [discriminate|].
  apply elem_of_cons in Hh' as [->|Hh']; [discriminate|].
  by apply not_elem_of_nil in Hh'.
Defined.


(** ** More of the response cache *)

Section CacheFacts.
Import types llm.

(** X10.  The cache neither stores nor serves.  [set] raises
    [AttributeError] on the attribute names of [TokenUsage] and leaves
    the table as it was; [get] returns [None] when there is no live row
    and raises [TypeError] on the keyword names of [TokenUsage] when
    there is one; it never returns a response. *)
Theorem cache_never_stores_nor_serves (cache : ResponseCache) (key : string)
    (r : LLMResponse) (ttl : option Z) (w : World) :
  (exists m, fst (set cache key r ttl w) = Raise (AttributeError m))
  /\ cache_rows (snd (set cache key r ttl w)) = cache_rows w
  /\ (if live_row w key
      then exists m, fst (get cache key w) = Raise (TypeError m)
      else fst (get cache key w) = Return None)
  /\ cache_rows (snd (get cache key w)) = cache_rows w.
Proof.
  destruct (set_raises cache key r ttl w) as [m ->]; simpl.
  split; [by exists m|]. split; [done|].
  unfold live_row, get, mbind, log; simpl.
  destruct (cache_rows w !! key) as [row|]; [|done].
  destruct (match row_expires_at row with
            | Some t => negb (Qle_bool t (now w))
            | None => true
            end); [|done].
  simpl. split; [by eexists | done].
Qed.

Lemma live_not_expired (t : Q) (row : CacheRow) :
  match row_expires_at row with
  | Some e => negb (Qle_bool e t)
  | None => true
  end = true ->
  cache_admin.is_expired t row = false.
Proof.
  unfold cache_admin.is_expired. destruct (row_expires_at row) as [e|]; [|done].
  intros Hlive. apply negb_true_iff in Hlive. apply negb_false_iff.
  apply Qle_bool_iff.
  destruct (Qlt_le_dec e t) as [Hlt|Hle]; [|exact Hle].
  apply Qlt_le_weak in Hlt. apply Qle_bool_iff in Hlt. congruence.
Qed.

Lemma expired_not_live (t : Q) (row : CacheRow) :
  cache_admin.is_expired t row = true ->
  match row_expires_at row with
  | Some e => negb (Qle_bool e t)
  | None => true
  end = false.
Proof.
  intros Hexp.
  destruct (match row_expires_at row with
            | Some e => negb (Qle_bool e t)
            | None => true
            end) eqn:Hlive; [|done].
  apply live_not_expired in Hlive. congruence.
Qed.

Lemma size_expired_kept (t : Q) (m : gmap string CacheRow) :
  (size (filter (fun kv => cache_admin.is_expired t (snd kv) = true) m)
   + size (filter (fun kv => cache_admin.is_expired t (snd kv) = false) m)
   = size m)%nat.
Proof.
  rewrite <- (map_filter_union_complement
                (fun kv => cache_admin.is_expired t (snd kv) = true) m) at 3.
  rewrite map_size_disj_union by apply map_disjoint_filter_complement.
  f_equal. f_equal. apply map_filter_ext. intros i x _; simpl.
  by destruct (cache_admin.is_expired t x).
Qed.

(** X11.  [clear_expired] removes the rows whose expiry lies before
    now, reports how many, and changes nothing that [get] can see: the
    rows [get] would still accept are kept as they are, and a key is
    live after the call exactly when it was before. *)
Theorem clear_expired_keeps_live (cache : ResponseCache) (w : World) :
  let w' := snd (cache_admin.clear_expired cache w) in
  exists n,
    fst (cache_admin.clear_expired cache w) = Return n
    /\ Z.of_nat (size (cache_rows w')) = Z.of_nat (size (cache_rows w)) - n
    /\ (forall key row, cache_rows w' !! key = Some row <->
          cache_rows w !! key = Some row
          /\ cache_admin.is_expired (now w) row = false)
    /\ (forall key, live_row w key = true ->
          cache_rows w' !! key = cache_rows w !! key)
    /\ (forall key, live_row w' key = live_row w key).
Proof.
  unfold cache_admin.clear_expired; simpl.
  eexists. split; [reflexivity|].
  split.
  { pose proof (size_expired_kept (now w) (cache_rows w)). lia. }
  split.
  { intros key row. by rewrite map_lookup_filter_Some. }
  split.
  - intros key. unfold live_row.
    destruct (cache_rows w !! key) as [row|] eqn:Hrow; [|discriminate].
    intros Hlive. apply map_lookup_filter_Some. split; [done|]; simpl.
    by apply live_not_expired.
  - intros key. unfold live_row; simpl.
    destruct (cache_rows w !! key) as [row|] eqn:Hrow.
    + destruct (cache_admin.is_expired (now w) row) eqn:Hexp.
      * rewrite (proj2 (map_lookup_filter_None _ _ _)).
        -- symmetry. by apply expired_not_live.
        -- right. intros x Hx; simpl. congruence.
      * by rewrite (map_lookup_filter_Some_2 _ _ _ row).
    + rewrite (proj2 (map_lookup_filter_None _ _ _)); [done|]. by left.
Qed.

(** X12.  [delete] answers whether the key had a row; afterwards the
    key has none, [get] misses it, a second [delete] answers [False],
    and every other row is as before. *)
Theorem cache_delete_then_get (cache : ResponseCache) (key : string) (w : World) :
  let w' := snd (cache_admin.delete cache key w) in
  fst (cache_admin.delete cache key w)
  = Return (bool_decide (is_Some (cache_rows w !! key)))
  /\ cache_rows w' !! key = None
  /\ fst (get cache key w') = Return None
  /\ fst (cache_admin.delete cache key w') = Return false
  /\ forall k, k <> key -> cache_rows w' !! k = cache_rows w !! k.
Proof.
  unfold cache_admin.delete, get, mbind, log; simpl.
  rewrite lookup_delete_eq.
  repeat split; try done.
  intros k Hk. by rewrite lookup_delete_ne.
Qed.


End CacheFacts.

(** ** The configuration and the request headers *)

Section ConfigFacts.
Import extractors llm_config.

Lemma context_window_8192 (cfg : LLMConfig) : context_window cfg = 8192.
Proof.
  unfold context_window, get_model_info, MODELS. cbn -[String.eqb].
  destruct (String.eqb "gpt-oss-20b" (model cfg)); [done|].
  destruct (String.eqb "gpt-oss-20b-q4_k_m" (model cfg)); [done|].
  by destruct (String.eqb "gpt-oss-20b-q8_0" (model cfg)).
Qed.

(** X14.  Every configuration has a context window of 8192 tokens,
    whatever its model: the registry and the fallback for unknown
    models agree, so the service's budget is always 4192. *)
Theorem context_window_constant (cfg : LLMConfig) :
  context_window cfg = 8192
  /\ config.context_window (client_view cfg) - 4000 = 4192.
Proof.
  pose proof (context_window_8192 cfg) as Hw.
  split; [exact Hw|]. simpl. by rewrite Hw.
Qed.

(** X15.  The [Authorization] header is sent exactly when the
    configuration itself carries a non-empty api key: no backend default
    supplies one, so an OpenRouter client configured without a key sends
    none.  [Content-Type] is always sent, the OpenRouter headers for
    that backend only. *)
Theorem build_headers_authorization (cfg : LLMConfig) :
  dict_get (_build_headers cfg) "Authorization"
  = match api_key cfg with
    | Some k => if String.eqb k "" then None else Some ("Bearer " +:+ k)
    | None => None
    end
  /\ dict_get (_build_headers cfg) "Content-Type" = Some "application/json"
  /\ (dict_get (_build_headers cfg) "X-Title" = Some "Shannon"
      <-> backend cfg = OPENROUTER)
  /\ (dict_get (_build_headers cfg) "HTTP-Referer" = Some "https://github.com/shannon"
      <-> backend cfg = OPENROUTER).
Proof.
  unfold _build_headers, get_api_key.
  destruct cfg as [b u k m t mt to mr ce]; simpl.
  destruct b, k as [k|]; cbn -[String.eqb String.append];
    try (destruct (String.eqb k "") eqn:Hk; cbn -[String.eqb String.append];
         rewrite ?Hk);
    repeat split; try done; try discriminate.
Qed.

End ConfigFacts.

(** ** More of the text chunker *)

Section ChunkerMore.
Import chunker.

Lemma substring_all (s : string) : substring 0 (String.length s) s = s.
Proof. induction s as [|c s IH]; simpl; [done | by rewrite IH]. Qed.

Lemma substring_split (s : string) (a k1 k2 : nat) :
  substring a (k1 + k2) s = substring a k1 s +:+ substring (a + k1) k2 s.
Proof.
  revert a k1. induction s as [|c s IH]; intros a k1.
  - destruct a, k1, k2; reflexivity.
  - destruct a as [|a]; simpl.
    + destruct k1 as [|k1]; simpl; [done|].
      by rewrite (IH 0%nat k1).
    + apply IH.
Qed.

Lemma substring_past (s : string) (a k : nat) :
  (String.length s <= a)%nat -> substring a k s = EmptyString.
Proof.
  revert a. induction s as [|c s IH]; intros a Ha.
  - by destruct a, k.
  - destruct a as [|a]; simpl in *; [lia|]. apply IH. lia.
Qed.

Lemma substring_to_end (s : string) (k : nat) :
  (String.length s <= k)%nat -> substring 0 k s = s.
Proof.
  revert k. induction s as [|c s IH]; intros k Hk.
  - by destruct k.
  - destruct k as [|k]; simpl in *; [lia|]. rewrite IH; [done | lia].
Qed.

Lemma len_nonneg (s : string) : 0 <= len s.
Proof. unfold len. lia. Qed.

Lemma slice_whole (s : string) : slice s 0 (len s) = s.
Proof.
  unfold slice, clamp_index. pose proof (len_nonneg s).
  replace (0 <? 0) with false by done.
  destruct (len s <? 0) eqn:Hn; [lia|].
  replace (Z.to_nat (Z.max 0 (Z.min (len s) 0))) with 0%nat by lia.
  replace (Z.to_nat (Z.max 0 (Z.min (len s) (len s)) - Z.max 0 (Z.min (len s) 0)))
    with (String.length s) by (unfold len; lia).
  apply substring_all.
Qed.

(** From the start to a position at or behind the end: the text. *)
Lemma slice_prefix_all (s : string) (b : Z) : len s <= b -> slice s 0 b = s.
Proof.
  intros Hb. unfold slice, clamp_index. pose proof (len_nonneg s).
  replace (0 <? 0) with false by done.
  destruct (b <? 0) eqn:Hn; [lia|].
  replace (Z.to_nat (Z.max 0 (Z.min (len s) 0))) with 0%nat by lia.
  replace (Z.to_nat (Z.max 0 (Z.min (len s) b) - Z.max 0 (Z.min (len s) 0)))
    with (String.length s) by (unfold len in *; lia).
  apply substring_all.
Qed.

Lemma slice_nil (s : string) : slice s 0 0 = EmptyString.
Proof.
  unfold slice, clamp_index. pose proof (len_nonneg s).
  replace (0 <? 0) with false by done.
  replace (Z.to_nat (Z.max 0 (Z.min (len s) 0))) with 0%nat by lia.
  replace (Z.to_nat (Z.max 0 (Z.min (len s) 0) - Z.max 0 (Z.min (len s) 0)))
    with 0%nat by lia.
  by destruct s.
Qed.

Lemma slice_app (s : string) (a b c : Z) :
  0 <= a -> a <= b -> b <= c ->
  slice s a b +:+ slice s b c = slice s a c.
Proof.
  intros Ha Hab Hbc. unfold slice, clamp_index. pose proof (len_nonneg s) as Hn.
  destruct (a <? 0) eqn:Ea; [lia|].
  destruct (b <? 0) eqn:Eb; [lia|].
  destruct (c <? 0) eqn:Ec; [lia|].
  set (a' := Z.max 0 (Z.min (len s) a)).
  set (b' := Z.max 0 (Z.min (len s) b)).
  set (c' := Z.max 0 (Z.min (len s) c)).
  replace (Z.to_nat (c' - a')) with (Z.to_nat (b' - a') + Z.to_nat (c' - b'))%nat
    by lia.
  rewrite substring_split. f_equal. f_equal. lia.
Qed.

Lemma startswith_same_length (p s : string) :
  startswith p s = true -> String.length p = String.length s -> p = s.
Proof.
  revert s. induction p as [|a p IH]; intros [|b s]; simpl; try done.
  intros Hps Hlen. apply andb_true_iff in Hps as [Hab Hps].
  apply Ascii.eqb_eq in Hab. subst b. f_equal. apply IH; [done | lia].
Qed.

Lemma startswith_length (p s : string) :
  startswith p s = true -> (String.length p <= String.length s)%nat.
Proof.
  revert s. induction p as [|a p IH]; intros [|b s]; simpl; try done; try lia.
  intros Hps. apply andb_true_iff in Hps as [_ Hps]. apply IH in Hps. lia.
Qed.

Lemma match_at_endswith (sep s : string) (i : nat) :
  match_at sep s i = true ->
  (i + String.length sep = String.length s)%nat ->
  endswith sep s = true.
Proof.
  revert s. induction i as [|i IH]; intros s Hm Hlen.
  - assert (Hst : startswith sep s = true) by (by destruct s).
    rewrite (startswith_same_length sep s Hst Hlen).
    destruct s; simpl; by rewrite ?String.eqb_refl, ?Ascii.eqb_refl.
  - destruct s as [|c s]; [done|]. simpl in *.
    rewrite (IH s Hm) by lia. apply orb_true_r.
Qed.

Lemma rfind_down_eq (sep s : string) (lo : Z) (n : nat) :
  rfind_down sep s lo n
  = if match_at sep s (Z.to_nat (lo + Z.of_nat n)) then lo + Z.of_nat n
    else match n with
         | O => -1
         | S n' => rfind_down sep s lo n'
         end.
Proof. by destruct n. Qed.

Lemma rfind_down_spec (sep s : string) (lo : Z) (n : nat) :
  rfind_down sep s lo n = -1
  \/ (lo <= rfind_down sep s lo n <= lo + Z.of_nat n
      /\ match_at sep s (Z.to_nat (rfind_down sep s lo n)) = true).
Proof.
  induction n as [|n IH]; rewrite rfind_down_eq.
  - destruct (match_at sep s (Z.to_nat (lo + Z.of_nat 0))) eqn:Hm; [|by left].
    right. split; [lia | done].
  - destruct (match_at sep s (Z.to_nat (lo + Z.of_nat (S n)))) eqn:Hm.
    + right. split; [lia | done].
    + destruct IH as [IH | [IH1 IH2]]; [by left|]. right. split; [lia | done].
Qed.

(** A match of [rfind] lies inside the text, separator included. *)
Lemma rfind_spec (s sep : string) (start end_ : Z) :
  rfind s sep start end_ = -1
  \/ (0 <= rfind s sep start end_
      /\ rfind s sep start end_ + len sep <= len s
      /\ match_at sep s (Z.to_nat (rfind s sep start end_)) = true).
Proof.
  unfold rfind. pose proof (len_nonneg s) as Hn.
  set (a := Z.max 0 (if start <? 0 then start + len s else start)).
  set (b := clamp_index (len s) end_).
  assert (Hb : b <= len s) by (subst b; unfold clamp_index; lia).
  destruct (b - len sep <? a) eqn:Hw; [by left|].
  destruct (rfind_down_spec sep s a (Z.to_nat (b - len sep - a))) as [->|[Hp Hm]];
    [by left|].
  right. split; [lia|]. split; [lia | done].
Qed.

Lemma match_at_length (sep s : string) (i : nat) :
  match_at sep s i = true -> (i + String.length sep <= String.length s)%nat.
Proof.
  revert s. induction i as [|i IH]; intros s Hm.
  - assert (Hst : startswith sep s = true) by (by destruct s).
    apply startswith_length in Hst. lia.
  - destruct s as [|c s]; [done|]. simpl in *. apply IH in Hm. lia.
Qed.

(** The candidate after the separator loop: not before [start], and
    before the end of a text that does not end in a separator. *)
Lemma snap_bounds (text : string) (start candidate : Z) (seps : list string) :
  0 <= start -> start <= candidate ->
  start <= snap text start candidate seps
  /\ (candidate < len text ->
      (forall sep, sep ∈ seps -> endswith sep text = false) ->
      snap text start candidate seps < len text).
Proof.
  intros Hs Hc. induction seps as [|sep seps IH]; simpl; [lia|].
  destruct (rfind text sep start (candidate + len sep * 2) >? start) eqn:Hfound.
  - pose proof (len_nonneg sep).
    split; [lia|]. intros _ Hends.
    destruct (rfind_spec text sep start (candidate + len sep * 2))
      as [Hnone | (Hp & Hle & Hm)]; [lia|].
    destruct (decide (rfind text sep start (candidate + len sep * 2) + len sep
                      = len text)) as [Heq|Hne]; [|lia].
    pose proof (Hends sep (list_elem_of_here _ _)) as Hno.
    rewrite (match_at_endswith sep text _ Hm) in Hno; [discriminate|].
    unfold len in *. lia.
  - destruct IH as [IH1 IH2]. split; [done|].
    intros Hlt Hends. apply IH2; [done|].
    intros sep' Hin. apply Hends. by apply list_elem_of_further.
Qed.

Lemma bisect_bounds (self : TextChunker) (text : string) (start max_tokens : Z)
    (fuel : nat) (low high : Z) :
  low <= fst (bisect self text start max_tokens fuel low high)
  /\ (low < high -> fst (bisect self text start max_tokens fuel low high) < high).
Proof.
  revert low high. induction fuel as [|fuel IH]; intros low high; simpl.
  - destruct (high - low >? 100); simpl; lia.
  - destruct (high - low >? 100) eqn:Hgap; simpl; [|lia].
    pose proof (Z.div_mod (low + high) 2 ltac:(lia)) as Hdm.
    pose proof (Z.mod_pos_bound (low + high) 2 ltac:(lia)) as Hmod.
    destruct (_count_tokens self (slice text start ((low + high) / 2)) <=? max_tokens).
    + destruct (IH ((low + high) / 2) high) as [IH1 IH2]. split; [lia|].
      intros _. apply IH2. lia.
    + destruct (IH low ((low + high) / 2)) as [IH1 IH2]. split; [lia|].
      intros _. assert (low < (low + high) / 2) by lia. specialize (IH2 ltac:(lia)). lia.
Qed.

(** A chunk does not end before it starts, nor behind the text; and
    it ends before the end of a text that does not end in a
    separator. *)
Lemma find_chunk_end_bounds (self : TextChunker) (text : string) (start max_tokens : Z) :
  0 <= start -> start < len text ->
  start <= _find_chunk_end self text start max_tokens <= len text
  /\ ((forall sep, sep ∈ separators (_config self) -> endswith sep text = false) ->
      _find_chunk_end self text start max_tokens < len text).
Proof.
  intros Hs Hlt. unfold _find_chunk_end.
  pose proof (bisect_bounds self text start max_tokens
                (Z.to_nat (len text - start)) start (len text)) as [Hlo Hhi].
  destruct (bisect _ _ _ _ _ _ _) as [low high]; cbn [fst] in *.
  specialize (Hhi Hlt).
  destruct (snap_bounds text start low
              (separator (_config self) :: fallback_separators (_config self))
              Hs Hlo) as [Hs1 Hs2].
  split; [lia|]. intros Hends. specialize (Hs2 Hhi Hends). lia.
Qed.

(** No overlap asked for is no overlap in characters. *)
Lemma tokens_to_chars_zero (self : TextChunker) (ref : string) :
  _tokens_to_chars self 0 ref = 0.
Proof.
  unfold _tokens_to_chars.
  destruct (String.eqb ref ""); [done|].
  destruct (_count_tokens self ref =? 0); [done|].
  unfold int_of.
  set (q := (inject_Z 0 * (inject_Z (len ref) / inject_Z (_count_tokens self ref)))%Q).
  assert (Hq : (q == 0)%Q) by (subst q; apply Qmult_0_l).
  assert (Hle : Qle_bool 0 q = true) by (apply Qle_bool_iff; rewrite Hq; apply Qle_refl).
  rewrite Hle. by rewrite Hq.
Qed.

Lemma chunk_loop_no_separator (self : TextChunker) (text : string) (max_tokens : Z)
    (fuel : nat) (current_pos chunk_index : Z) (chunks : list ChunkInfo) :
  (forall sep, sep ∈ separators (_config self) -> endswith sep text = false) ->
  0 <= current_pos -> current_pos < len text ->
  chunk_loop self text max_tokens 0 fuel current_pos chunk_index chunks = None.
Proof.
  intros Hends. revert current_pos chunk_index chunks.
  induction fuel as [|fuel IH]; intros pos idx chunks Hpos Hlt; simpl.
  - destruct (pos <? len text) eqn:E; [done | lia].
  - destruct (pos <? len text) eqn:E; [|lia].
    rewrite tokens_to_chars_zero.
    destruct (find_chunk_end_bounds self text pos max_tokens Hpos Hlt) as [Hb Hend].
    specialize (Hend Hends).
    apply IH; lia.
Qed.

(** X16.  Without overlap, [chunk()] can only return on a text that
    ends in a separator.  On any other non-empty text that does not fit
    in one chunk, every chunk ends before the end of the text, the next
    one starts there, and the loop never exits, whatever the token
    counter. *)
Theorem chunk_no_overlap_never_returns (self : TextChunker) (text : string)
    (max_tokens overlap : option Z) (fuel : nat) :
  or_int overlap (overlap_tokens (_config self)) = 0 ->
  text <> EmptyString ->
  or_int max_tokens (chunker.max_tokens (_config self)) < _count_tokens self text ->
  (forall sep, sep ∈ separators (_config self) -> endswith sep text = false) ->
  chunk self text max_tokens overlap fuel = None.
Proof.
  intros Hov Htext Hbig Hends. unfold chunk. rewrite Hov.
  destruct (_count_tokens self text <=? _) eqn:Hfit; [lia|].
  rewrite chunk_loop_no_separator; [done | done | lia |].
  destruct text; [done|]. unfold len; simpl. lia.
Qed.

Lemma concat_empty_cons (a : string) (l : list string) :
  String.concat EmptyString (a :: l) = a +:+ String.concat EmptyString l.
Proof. destruct l; simpl; [by rewrite string_app_nil_r | done]. Qed.

Lemma concat_texts_snoc (chunks : list ChunkInfo) (c : ChunkInfo) :
  chunk_texts (chunks ++ [c]) = chunk_texts chunks +:+ chunker.text c.
Proof.
  unfold chunk_texts. induction chunks as [|a chunks IH].
  - done.
  - change (String.concat EmptyString
              (chunker.text a :: map chunker.text (chunks ++ [c]))
            = String.concat EmptyString (chunker.text a :: map chunker.text chunks)
              +:+ chunker.text c).
    by rewrite !concat_empty_cons, IH, string_app_assoc.
Qed.

Lemma chunk_loop_covers (self : TextChunker) (text : string) (max_tokens : Z)
    (fuel : nat) (current_pos chunk_index : Z) (acc chunks : list ChunkInfo) :
  0 <= current_pos ->
  chunk_texts acc = slice text 0 current_pos ->
  chunk_loop self text max_tokens 0 fuel current_pos chunk_index acc = Some chunks ->
  chunk_texts chunks = text.
Proof.
  revert current_pos chunk_index acc.
  induction fuel as [|fuel IH]; intros pos idx acc Hpos Hacc; simpl.
  - destruct (pos <? len text) eqn:E; [done|].
    intros [= <-]. rewrite Hacc. apply slice_prefix_all. lia.
  - destruct (pos <? len text) eqn:E.
    + rewrite tokens_to_chars_zero.
      destruct (find_chunk_end_bounds self text pos max_tokens Hpos ltac:(lia))
        as [Hb _].
      apply IH; [lia|].
      rewrite concat_texts_snoc; simpl. rewrite Hacc, Z.sub_0_r.
      apply slice_app; lia.
    + intros [= <-]. rewrite Hacc. apply slice_prefix_all. lia.
Qed.

Lemma map_texts (total : Z) (chunks : list ChunkInfo) :
  chunk_texts
    (map (fun c => mkChunkInfo (index c) total (start_char c) (end_char c)
                     (token_count c) (chunker.text c)) chunks)
  = chunk_texts chunks.
Proof. unfold chunk_texts. by rewrite map_map. Qed.

(** X17.  Without overlap, whenever [chunk()] returns, the chunks cut
    the text without loss or repetition: their texts, one after the
    other, are the input. *)
Theorem chunk_no_overlap_covers (self : TextChunker) (text : string)
    (max_tokens overlap : option Z) (fuel : nat) (chunks : list ChunkInfo) :
  or_int overlap (overlap_tokens (_config self)) = 0 ->
  chunk self text max_tokens overlap fuel = Some chunks ->
  chunk_texts chunks = text.
Proof.
  intros Hov. unfold chunk. rewrite Hov.
  destruct (_count_tokens self text <=? _).
  - by intros [= <-].
  - destruct (chunk_loop _ _ _ _ _ _ _ _) as [cs|] eqn:Hloop; [|done].
    intros [= <-]. rewrite map_texts.
    eapply (chunk_loop_covers self text _ fuel 0 0 []); [lia | | exact Hloop].
    symmetry. apply slice_nil.
Qed.

Lemma chunk_loop_shape (self : TextChunker) (text : string) (max_tokens overlap : Z)
    (fuel : nat) (current_pos chunk_index : Z) (acc chunks : list ChunkInfo) :
  chunk_loop self text max_tokens overlap fuel current_pos chunk_index acc = Some chunks ->
  exists new,
    chunks = acc ++ new
    /\ Forall (fun c => chunker.text c = slice text (start_char c) (end_char c)
                        /\ token_count c = _count_tokens self (chunker.text c)
                        /\ end_char c <= len text) new
    /\ map index new = map (fun i => chunk_index + Z.of_nat i) (seq 0 (length new)).
Proof.
  revert current_pos chunk_index acc.
  induction fuel as [|fuel IH]; intros pos idx acc; simpl.
  - destruct (pos <? len text); [done|]. intros [= <-].
    exists []. by rewrite app_nil_r.
  - destruct (pos <? len text).
    + intros Hloop. apply IH in Hloop as (new & -> & Hall & Hidx).
      eexists (_ :: new). rewrite <- app_assoc. split; [reflexivity|].
      split.
      * constructor; [|exact Hall]. simpl. split; [done|]. split; [done|].
        apply find_chunk_end_le.
      * simpl. rewrite Hidx. f_equal; [lia|].
        rewrite <- seq_shift, map_map. apply map_ext. intros i. lia.
    + intros [= <-]. exists []. by rewrite app_nil_r.
Qed.

(** X18.  Whenever [chunk()] returns, the chunks are numbered from 0
    in order and each carries their number as [total_chunks]; a chunk's
    text is the slice of the input between its [start_char] and
    [end_char], its [token_count] is the counter's value on that text,
    and no chunk ends behind the input. *)
Theorem chunk_result_shape (self : TextChunker) (text : string)
    (max_tokens overlap : option Z) (fuel : nat) (chunks : list ChunkInfo) :
  chunk self text max_tokens overlap fuel = Some chunks ->
  Forall (fun c => total_chunks c = Z.of_nat (length chunks)
                   /\ chunker.text c = slice text (start_char c) (end_char c)
                   /\ token_count c = _count_tokens self (chunker.text c)
                   /\ end_char c <= len text) chunks
  /\ map index chunks = map Z.of_nat (seq 0 (length chunks)).
Proof.
  unfold chunk.
  destruct (_count_tokens self text <=? _).
  - intros [= <-]. split; [|done].
    constructor; [|done]. simpl. by rewrite slice_whole.
  - destruct (chunk_loop _ _ _ _ _ _ _ _) as [cs|] eqn:Hloop; [|done].
    intros [= <-].
    apply chunk_loop_shape in Hloop as (new & -> & Hall & Hidx).
    rewrite app_nil_l, length_map. split.
    + apply Forall_map. eapply Forall_impl; [exact Hall|]. simpl.
      by intros c (Ht & Hc & He).
    + rewrite map_map; simpl. rewrite (map_ext _ index) by done.
      rewrite Hidx. apply map_ext. intros i. lia.
Qed.

End ChunkerMore.

(** A text without any separator, and one that ends in a blank. *)
Lemma chunk_no_overlap_never_returns_witness :
  chunker.chunk no_overlap_chunker "aaaaaaaa" (Some 1) None 1000 = None.
Proof.
  apply (chunk_no_overlap_never_returns no_overlap_chunker "aaaaaaaa" (Some 1) None 1000).
  - reflexivity.
  - discriminate.
  - vm_compute. reflexivity.
  - intros sep Hsep. vm_compute in Hsep.
    repeat (apply elem_of_cons in Hsep as [->|Hsep]; [reflexivity|]).
    by apply not_elem_of_nil in Hsep.
Defined.

Lemma chunk_no_overlap_covers_witness :
  exists chunks,
    chunker.chunk no_overlap_chunker "a a a a " (Some 1) None 10 = Some chunks
    /\ length chunks = 4%nat
    /\ chunk_texts chunks = "a a a a ".
Proof.
  eexists. split; [vm_compute; reflexivity|]. split; [reflexivity|].
  apply (chunk_no_overlap_covers no_overlap_chunker "a a a a " (Some 1) None 10).
  - reflexivity.
  - vm_compute. reflexivity.
Defined.

Lemma chunk_result_shape_witness :
  exists chunks,
    chunker.chunk no_overlap_chunker "a a a a " (Some 1) None 10 = Some chunks
    /\ map chunker.index chunks = [0; 1; 2; 3]
    /\ Forall (fun c => chunker.total_chunks c = 4) chunks.
Proof.
  eexists. split; [vm_compute; reflexivity|].
  destruct (chunk_result_shape no_overlap_chunker "a a a a " (Some 1) None 10 _
              ltac:(vm_compute; reflexivity)) as [Hall Hidx].
  split; [exact Hidx|].
  eapply Forall_impl; [exact Hall|]. by intros c (Ht & _).
Defined.

(** ** More of the prompt templates *)

Section TemplateMore.
Import templates.

Lemma occurs_cons (old s : string) (c : ascii) :
  occurs old s -> occurs old (String c s).
Proof. intros (pre & post & ->). by exists (String c pre), post. Qed.

Lemma occurs_app (old p s : string) : occurs old s -> occurs old (p +:+ s).
Proof.
  intros Hs. induction p as [|c p IH]; [done|].
  rewrite string_app_cons. by apply occurs_cons.
Qed.

Lemma placeholder_app (v rest : string) :
  placeholder v +:+ rest = String "{" (v +:+ String "}" rest).
Proof.
  unfold placeholder.
  change (String "{" ((v +:+ "}") +:+ rest) = String "{" (v +:+ String "}" rest)).
  by rewrite string_app_assoc.
Qed.

Lemma span_word_spec (s : string) :
  s = fst (span_word s) +:+ snd (span_word s)
  /\ all_word (fst (span_word s)) = true.
Proof.
  induction s as [|c s [IH1 IH2]]; simpl; [done|].
  destruct (is_word c) eqn:Hc; [|done].
  destruct (span_word s) as [w r]; simpl in *.
  rewrite string_app_cons, <- IH1, Hc. done.
Qed.

(** The run of word characters of a text does not reach into what
    follows it behind a character that is not one. *)
Lemma span_word_app (a : string) (x : ascii) (rest : string) :
  is_word x = false ->
  span_word (a +:+ String x rest)
  = (fst (span_word a), snd (span_word a) +:+ String x rest).
Proof.
  intros Hx. induction a as [|c a IH].
  - change (span_word (String x rest) = (EmptyString, String x rest)).
    simpl. by rewrite Hx.
  - rewrite string_app_cons. simpl. destruct (is_word c); [|done].
    rewrite IH. by destruct (span_word a).
Qed.

Lemma span_word_all_word (v : string) :
  all_word v = true -> span_word v = (v, EmptyString).
Proof.
  induction v as [|c v IH]; simpl; [done|].
  intros Hv. apply andb_true_iff in Hv as [-> Hv]. by rewrite IH.
Qed.

Lemma findall_vars_sound (fuel : nat) (s v : string) :
  v ∈ findall_vars fuel s ->
  v <> EmptyString /\ all_word v = true /\ occurs (placeholder v) s.
Proof.
  revert s. induction fuel as [|fuel IH]; intros s; simpl.
  - by intros ?%elem_of_nil.
  - destruct s as [|c t]; [by intros ?%elem_of_nil|].
    assert (Hskip : v ∈ findall_vars fuel t ->
                    v <> EmptyString /\ all_word v = true
                    /\ occurs (placeholder v) (String c t)).
    { intros (Hne & Hw & Hocc)%IH. split; [done|]. split; [done|].
      by apply occurs_cons. }
    destruct (Ascii.eqb_spec c "{") as [->|Hc]; [|exact Hskip].
    destruct (span_word_spec t) as [Ht Hw].
    destruct (span_word t) as [w r]; simpl in Ht, Hw.
    destruct w as [|a w]; [exact Hskip|].
    destruct r as [|d r]; [exact Hskip|].
    destruct (Ascii.eqb_spec d "}") as [->|Hd]; [|exact Hskip].
    intros [->|Hin]%elem_of_cons.
    + split; [done|]. split; [done|].
      exists EmptyString, r.
      change (String "{" t = placeholder (String a w) +:+ r).
      by rewrite placeholder_app, Ht.
    + apply IH in Hin as (Hne & Hvw & Hocc). split; [done|]. split; [done|].
      rewrite Ht.
      apply (occurs_app _ (String "{" (String a w +:+ "}"))) in Hocc.
      by rewrite string_app_cons, string_app_assoc in Hocc.
Qed.

Lemma findall_vars_complete (fuel : nat) (pre v post : string) :
  v <> EmptyString -> all_word v = true ->
  (String.length (pre +:+ String "{" (v +:+ String "}" post)) < fuel)%nat ->
  v ∈ findall_vars fuel (pre +:+ String "{" (v +:+ String "}" post)).
Proof.
  intros Hne Hw. revert pre.
  induction fuel as [|fuel IH]; intros pre Hfuel; [lia|].
  assert (Hopen : is_word "{" = false) by reflexivity.
  assert (Hclose : is_word "}" = false) by reflexivity.
  destruct pre as [|c pre].
  - change (v ∈ findall_vars (S fuel) (String "{" (v +:+ String "}" post))).
    simpl. rewrite span_word_app, span_word_all_word by done. simpl.
    destruct v as [|a v]; [done|]. apply list_elem_of_here.
  - rewrite string_app_cons in Hfuel |- *. simpl in Hfuel.
    assert (Hskip : v ∈ findall_vars fuel (pre +:+ String "{" (v +:+ String "}" post)))
      by (apply IH; lia).
    simpl. destruct (Ascii.eqb c "{"); [|exact Hskip].
    rewrite span_word_app by done.
    destruct (span_word_spec pre) as [Hpre _].
    destruct (span_word pre) as [w r]; simpl in Hpre |- *.
    destruct w as [|a w]; [exact Hskip|].
    destruct r as [|d r]; [exact Hskip|].
    rewrite string_app_cons.
    destruct (Ascii.eqb d "}"); [|exact Hskip].
    apply list_elem_of_further. apply IH.
    rewrite Hpre, !string_app_length in Hfuel.
    rewrite !string_app_length. simpl in *. lia.
Qed.

Lemma required_iff_placeholder (t : PromptTemplate) (v : string) :
  v ∈ get_required_variables t
  <-> v <> EmptyString /\ all_word v = true /\ occurs (placeholder v) (template t).
Proof.
  unfold get_required_variables. rewrite elem_of_list_to_set. split.
  - apply findall_vars_sound.
  - intros (Hne & Hw & pre & post & Ht). rewrite Ht, placeholder_app.
    apply findall_vars_complete; [done | done |].
    rewrite <- placeholder_app, <- Ht. lia.
Qed.

(** X19.  The required variables of a template are exactly the
    non-empty words whose placeholder, the word between braces, occurs
    in the template. *)
Theorem required_variables_placeholders (t : PromptTemplate) (v : string) :
  v ∈ get_required_variables t
  <-> v <> EmptyString /\ all_word v = true /\ occurs (placeholder v) (template t).
Proof. apply required_iff_placeholder. Qed.

Lemma startswith_app (p s : string) :
  startswith p s = true -> exists post, s = p +:+ post.
Proof.
  revert s. induction p as [|a p IH]; intros s; simpl.
  - intros _. by exists s.
  - destruct s as [|b s]; [done|].
    intros [Hab Hps]%andb_true_iff. apply Ascii.eqb_eq in Hab as ->.
    destruct (IH s Hps) as [post ->]. by exists post.
Qed.

Lemma replace_absent (s old new : string) :
  ~ occurs old s -> replace s old new = s.
Proof.
  unfold replace. induction s as [|c s IH]; intros Hno; simpl; [done|].
  destruct (startswith old (String c s)) eqn:Hst.
  - destruct Hno. destruct (startswith_app _ _ Hst) as [post ->].
    by exists EmptyString, post.
  - rewrite IH; [done|]. intros Hocc. apply Hno. by apply occurs_cons.
Qed.

Lemma fold_replace_absent (t : PromptTemplate) (kwargs : list (string * string)) :
  (forall kv, kv ∈ kwargs ->
     fst kv <> EmptyString /\ all_word (fst kv) = true
     /\ fst kv ∉ get_required_variables t) ->
  fold_left (fun result kv => replace result ("{" +:+ fst kv +:+ "}") (snd kv))
            kwargs (template t)
  = template t.
Proof.
  induction kwargs as [|[k x] kwargs IH]; intros Hkeys; simpl; [done|].
  destruct (Hkeys (k, x) (list_elem_of_here _ _)) as (Hne & Hw & Hreq); simpl in *.
  rewrite replace_absent.
  - apply IH. intros kv Hkv. apply Hkeys. by apply list_elem_of_further.
  - intros Hocc. apply Hreq. by apply required_iff_placeholder.
Qed.

(** X20.  Keyword arguments that the template does not require do not
    change the rendering: with only such keys (non-empty words),
    [render] returns the template as it is, unless one of them is
    [self]: that keyword collides with the method's own parameter and
    [render] raises [TypeError]. *)
Theorem render_ignores_other_keys (t : PromptTemplate) (kwargs : list (string * string)) :
  (forall kv, kv ∈ kwargs ->
     fst kv <> EmptyString /\ all_word (fst kv) = true
     /\ fst kv ∉ get_required_variables t) ->
  if binds_self kwargs
  then exists m, render t kwargs = Raise (TypeError m)
  else render t kwargs = Return (template t).
Proof.
  intros Hkeys. unfold render.
  destruct (binds_self kwargs) eqn:Hself.
  - destruct (keywords_self "render" kwargs Hself) as [m ->]. by exists m.
  - rewrite keywords_plain by done. simpl. by rewrite fold_replace_absent.
Qed.

End TemplateMore.

(** A template that asks for a title, rendered with an author. *)
Lemma render_ignores_other_keys_witness :
  templates.render (templates.mkPromptTemplate "paper" "Title: {title}" "")
    [("author", "Shannon")]
  = Return "Title: {title}".
Proof.
  apply (render_ignores_other_keys
           (templates.mkPromptTemplate "paper" "Title: {title}" "")
           [("author", "Shannon")]).
  intros kv Hkv. apply list_elem_of_singleton in Hkv as ->.
  split; [discriminate|]. split; [reflexivity|].
  vm_compute. discriminate.
Defined.

(** ** More of the extraction service: merging the chunks *)

Section MergeFacts.
Import extractors extraction_service.

Lemma existsb_eqb (k : string) (seen : list string) :
  existsb (String.eqb k) seen = true <-> k ∈ seen.
Proof.
  induction seen as [|x seen IH]; simpl.
  - rewrite elem_of_nil. split; [discriminate | tauto].
  - rewrite orb_true_iff, elem_of_cons, IH, String.eqb_eq. tauto.
Qed.

Lemma deduplicate_pairs_seen (pairs : list (string * pyval)) (seen : list string) :
  (forall k, k ∈ map fst (_deduplicate_pairs pairs seen) -> k ∉ seen)
  /\ NoDup (map fst (_deduplicate_pairs pairs seen))
  /\ (forall k, dict_get (_deduplicate_pairs pairs seen) k
                = if existsb (String.eqb k) seen then None else dict_get pairs k)
  /\ _deduplicate_pairs pairs seen `sublist_of` pairs.
Proof.
  revert seen. induction pairs as [|[key value] pairs IH]; intros seen; simpl.
  - split; [by intros k ?%elem_of_nil|]. split; [constructor|].
    split; [|done]. intros k. by destruct (existsb _ _).
  - destruct (existsb (String.eqb key) seen) eqn:Hseen.
    + destruct (IH seen) as (Hkeys & Hnd & Hget & Hsub).
      split; [done|]. split; [done|]. split; [|by apply sublist_cons].
      intros k. rewrite Hget.
      destruct (existsb (String.eqb k) seen) eqn:Hk; [done|].
      destruct (String.eqb_spec key k) as [->|Hne]; [congruence | done].
    + destruct (IH (key :: seen)) as (Hkeys & Hnd & Hget & Hsub). simpl.
      split; [|split; [|split]].
      * intros k [->|Hin]%elem_of_cons.
        -- intros Hin%existsb_eqb. congruence.
        -- intros Hk. apply (Hkeys k Hin). by apply list_elem_of_further.
      * constructor; [|done]. intros Hin. apply (Hkeys key Hin), list_elem_of_here.
      * intros k. destruct (String.eqb_spec key k) as [->|Hne].
        -- by rewrite Hseen.
        -- rewrite Hget; simpl.
           destruct (String.eqb_spec k key) as [->|_]; [done|]. done.
      * by apply sublist_skip.
Qed.

(** X21.  [_deduplicate_pairs] keeps the first pair of every key and
    drops the later ones: the keys of the result are distinct, every
    key has the value of its first occurrence, and the order of the
    kept pairs is the order of the input. *)
Theorem deduplicate_pairs_first_wins (pairs : list (string * pyval)) :
  NoDup (map fst (_deduplicate_pairs pairs []))
  /\ (forall k, dict_get (_deduplicate_pairs pairs []) k = dict_get pairs k)
  /\ _deduplicate_pairs pairs [] `sublist_of` pairs.
Proof.
  destruct (deduplicate_pairs_seen pairs []) as (_ & Hnd & Hget & Hsub).
  split; [done|]. split; [|done]. intros k. by rewrite Hget.
Qed.

Lemma deduplicate_seen (items : list pyval) (key : string) (seen : list string)
    (r : list pyval) :
  _deduplicate items key seen = Return r ->
  r `sublist_of` items
  /\ NoDup (omap (item_key key) r)
  /\ Forall (fun item => exists s, item_key key item = Some s
                                   /\ s <> EmptyString /\ s ∉ seen) r
  /\ (forall item s, item ∈ items -> item_key key item = Some s ->
        s <> EmptyString -> s ∈ seen \/ s ∈ omap (item_key key) r).
Proof.
  revert seen r. induction items as [|item items IH]; intros seen r; simpl.
  - intros [= <-]. split; [done|]. split; [constructor|]. split; [constructor|].
    by intros item s ?%elem_of_nil.
  - unfold item_key in *.
    destruct (py_get item key (VStr "")) as [v|e] eqn:Hget; simpl; [|discriminate].
    destruct v as [| | |s| |]; try discriminate.
    destruct (negb (String.eqb (lower s) "") && negb (existsb (String.eqb (lower s)) seen))
      eqn:Hnew.
    + apply andb_true_iff in Hnew as [Hne Hnot].
      apply negb_true_iff in Hne, Hnot. apply String.eqb_neq in Hne.
      destruct (_deduplicate items key (lower s :: seen)) as [r'|e] eqn:Hrest;
        simpl; [|discriminate].
      intros [= <-].
      destruct (IH _ _ Hrest) as (Hsub & Hnd & Hall & Hcov).
      split; [by apply sublist_skip|]. simpl. rewrite Hget.
      split; [|split].
      * constructor; [|done]. intros Hin.
        apply list_elem_of_omap in Hin as (it & Hit & Hk).
        rewrite Forall_forall in Hall.
        destruct (Hall it Hit) as (s' & Hs' & _ & Hns). rewrite Hk in Hs'.
        injection Hs' as <-. apply Hns, list_elem_of_here.
      * constructor.
        -- exists (lower s). rewrite Hget. split; [done|]. split; [done|].
           intros Hin%existsb_eqb. congruence.
        -- eapply Forall_impl; [exact Hall|]. intros it (s' & Hs' & Hne' & Hns).
           exists s'. split; [done|]. split; [done|].
           intros Hin. apply Hns. by apply list_elem_of_further.
      * intros it s' [->|Hin]%elem_of_cons Hk Hne'.
        -- rewrite Hget in Hk. injection Hk as <-. right. apply list_elem_of_here.
        -- destruct (Hcov it s' Hin Hk Hne') as [[->|Hs]%elem_of_cons | Hr].
           ++ right. apply list_elem_of_here.
           ++ by left.
           ++ right. by apply list_elem_of_further.
    + intros Hrest.
      destruct (IH _ _ Hrest) as (Hsub & Hnd & Hall & Hcov).
      split; [by apply sublist_cons|]. split; [done|]. split; [done|].
      intros it s' [->|Hin]%elem_of_cons Hk Hne'; [|by apply (Hcov it)].
      rewrite Hget in Hk. injection Hk as <-.
      apply andb_false_iff in Hnew as [Hempty | Hseen].
      * apply negb_false_iff, String.eqb_eq in Hempty. done.
      * apply negb_false_iff, existsb_eqb in Hseen. by left.
Qed.

(** X22.  When [_deduplicate] returns, it has kept, in input order, the
    first item of every non-empty name, names compared in lower case:
    the kept names are distinct and non-empty, and every non-empty name
    of the input is the name of a kept item. *)
Theorem deduplicate_first_of_each_name (items : list pyval) (key : string)
    (r : list pyval) :
  _deduplicate items key [] = Return r ->
  r `sublist_of` items
  /\ NoDup (omap (item_key key) r)
  /\ Forall (fun item => exists s, item_key key item = Some s /\ s <> EmptyString) r
  /\ (forall item s, item ∈ items -> item_key key item = Some s ->
        s <> EmptyString -> s ∈ omap (item_key key) r).
Proof.
  intros Hr. destruct (deduplicate_seen items key [] r Hr) as (Hsub & Hnd & Hall & Hcov).
  split; [done|]. split; [done|]. split.
  - eapply Forall_impl; [exact Hall|]. intros it (s & Hs & Hne & _). by exists s.
  - intros it s Hin Hk Hne. destruct (Hcov it s Hin Hk Hne) as [Hs|Hs]; [|done].
    by apply elem_of_nil in Hs.
Qed.

Lemma seq_offset (a n : nat) :
  map Z.of_nat (seq a n) = map (fun i => Z.of_nat a + Z.of_nat i) (seq 0 n).
Proof.
  revert a. induction n as [|n IH]; intros a; simpl; [done|].
  f_equal; [lia|]. rewrite IH, <- seq_shift, map_map.
  apply map_ext. intros i. lia.
Qed.

Lemma map_category_replicate (cat : string) (l : list Page) :
  Forall (fun p => category p = cat) l ->
  map category l = replicate (length l) cat.
Proof. induction 1 as [|p l Hp _ IH]; simpl; [done|]. by rewrite Hp, IH. Qed.

Lemma section_pages_positions (self : ExtractionService) (sections_data : pyval) :
  map position (section_pages self sections_data)
  = map Z.of_nat (seq 0 (length (section_pages self sections_data)))
  /\ Forall (fun p => category p = "section") (section_pages self sections_data).
Proof.
  unfold section_pages. destruct sections_data as [| | | | |d]; try by split.
  rewrite length_imap.
  enough (Hgen : forall (n : nat),
            map position
              (imap (fun i kv =>
                       mkPage (VStr (str_title (env self) (templates.replace (fst kv) "_" " ")))
                         "section" (Z.of_nat (n + i))
                         (match snd kv with VStr s => VStr s | _ => VStr "" end)) d)
            = map Z.of_nat (seq n (length d))
            /\ Forall (fun p => category p = "section")
                 (imap (fun i kv =>
                       mkPage (VStr (str_title (env self) (templates.replace (fst kv) "_" " ")))
                         "section" (Z.of_nat (n + i))
                         (match snd kv with VStr s => VStr s | _ => VStr "" end)) d))
    by apply (Hgen 0%nat).
  induction d as [|kv d IH]; intros n; simpl; [by split|].
  destruct (IH (S n)) as [IH1 IH2].
  split.
  - rewrite Nat.add_0_r. f_equal. rewrite <- IH1. f_equal.
    apply imap_ext. intros i x _. simpl. do 2 f_equal. lia.
  - constructor; [done|].
    erewrite imap_ext; [exact IH2|]. intros i x _. simpl. do 2 f_equal. lia.
Qed.

Lemma entry_pages_positions (cat dflt field : string) (entries : list pyval)
    (start : Z) (r : list Page) :
  entry_pages cat dflt field entries start = Return r ->
  map position r = map (fun i => start + Z.of_nat i) (seq 0 (length r))
  /\ Forall (fun p => category p = cat) r
  /\ length r = length entries.
Proof.
  revert start r. induction entries as [|entry entries IH]; intros start r; simpl.
  - intros [= <-]. by split.
  - destruct (py_get entry "name" (VStr dflt)) as [nm|e]; simpl; [|discriminate].
    destruct (py_get entry field (VStr "")) as [body|e]; simpl; [|discriminate].
    destruct (entry_pages cat dflt field entries (start + 1)) as [r'|e] eqn:Hrest;
      simpl; [|discriminate].
    intros [= <-]. destruct (IH _ _ Hrest) as (Hpos & Hcat & Hlen). simpl.
    split; [|split; [by constructor | by rewrite Hlen]].
    f_equal; [lia|]. rewrite Hpos, <- seq_shift, map_map.
    apply map_ext. intros i. lia.
Qed.

(** X23.  The suggested pages are numbered 0, 1, 2, ... in the order
    they are listed: first the sections, then the concepts, then the
    algorithms. *)
Theorem page_suggestions_numbered (self : ExtractionService)
    (result : ExtractionResult) (pages : list Page) :
  _generate_page_suggestions self result = Return pages ->
  map position pages = map Z.of_nat (seq 0 (length pages))
  /\ exists a b c,
       map category pages
       = replicate a "section" ++ replicate b "concept" ++ replicate c "algorithm".
Proof.
  unfold _generate_page_suggestions.
  destruct (py_get (data result) "sections" (VDict [])) as [sd|e]; simpl; [|discriminate].
  destruct (py_get (data result) "main_concepts" (VList [])) as [cs|e]; simpl;
    [|discriminate].
  destruct (py_iter cs) as [concepts|e]; simpl; [|discriminate].
  destruct (entry_pages "concept" "Concept" "definition" concepts _) as [cp|e] eqn:Hc;
    simpl; [|discriminate].
  destruct (py_get (data result) "algorithms" (VList [])) as [al|e]; simpl;
    [|discriminate].
  destruct (py_iter al) as [algos|e]; simpl; [|discriminate].
  destruct (entry_pages "algorithm" "Algorithm" "purpose" algos _) as [ap|e] eqn:Ha;
    simpl; [|discriminate].
  intros [= <-].
  destruct (section_pages_positions self sd) as [Hs1 Hs2].
  destruct (entry_pages_positions _ _ _ _ _ _ Hc) as (Hc1 & Hc2 & _).
  destruct (entry_pages_positions _ _ _ _ _ _ Ha) as (Ha1 & Ha2 & _).
  split.
  - rewrite !map_app, !length_app, Hs1, Hc1, Ha1, !seq_app, !map_app; simpl.
    by rewrite (seq_offset (length (section_pages self sd)) (length cp)),
      (seq_offset (length (section_pages self sd) + length cp) (length ap)).
  - exists (length (section_pages self sd)), (length cp), (length ap).
    rewrite !map_app.
    by rewrite (map_category_replicate _ _ Hs2), (map_category_replicate _ _ Hc2),
      (map_category_replicate _ _ Ha2).
Qed.

End MergeFacts.

(** [demo_concepts]: the second Entropy and the unnamed concept go. *)
Lemma deduplicate_first_of_each_name_witness :
  exists r,
    extraction_service._deduplicate demo_concepts "name" [] = Return r
    /\ length r = 2%nat
    /\ NoDup (omap (item_key "name") r)
    /\ "channel" ∈ omap (item_key "name") r.
Proof.
  exists [extractors.VDict [("name", extractors.VStr "Entropy")];
          extractors.VDict [("name", extractors.VStr "Channel")]].
  split; [reflexivity|]. split; [reflexivity|].
  destruct (deduplicate_first_of_each_name demo_concepts "name"
              [extractors.VDict [("name", extractors.VStr "Entropy")];
               extractors.VDict [("name", extractors.VStr "Channel")]]
              eq_refl) as (_ & Hnd & _ & Hcov).
  split; [exact Hnd|].
  apply (Hcov (extractors.VDict [("name", extractors.VStr "Channel")]) "channel");
    [|reflexivity | discriminate].
  unfold demo_concepts. do 3 apply list_elem_of_further. apply list_elem_of_here.
Defined.

(** [demo_result]: one section, one concept, one algorithm. *)
Lemma page_suggestions_numbered_witness :
  exists pages,
    extraction_service._generate_page_suggestions
      (demo_service service_chunker 8192 "") demo_result = Return pages
    /\ map extraction_service.position pages = [0; 1; 2]
    /\ map extraction_service.category pages = ["section"; "concept"; "algorithm"].
Proof.
  eexists. split; [vm_compute; reflexivity|].
  destruct (page_suggestions_numbered (demo_service service_chunker 8192 "")
              demo_result _ ltac:(vm_compute; reflexivity)) as [Hpos _].
  split; [exact Hpos | reflexivity].
Defined.

(** ** The extraction service as it is built *)

Section ServiceRuns.
Import results events types templates llm extractors chunker extraction_service.
Context `{Runtime}.

(** X24.  The service as [__init__] builds it never returns from
    [extract_paper] on a paper of more than 4192 estimated tokens:
    whatever the settings, the configuration, the backend and the
    extractors, once the backend is healthy and the PDF parsed, the
    call publishes the start and the progress events "parsing",
    "analyzing" and "chunking", enters [chunk()] and stays there. *)
Theorem extract_paper_large_never_returns (settings : service_init.Settings)
    (llm_config : option llm_config.LLMConfig) (http : Backend)
    (parts : service_init.ExtractorParts) (env_ : Environment)
    (input_data : PaperExtractionInput) (parsed_text : string)
    (fuel : nat) (w : SWorld) :
  let self := service_init.ExtractionService_init settings llm_config http parts env_ in
  models_status env_ = Return 200 ->
  pdf_exists env_ (pdf_path input_data) = true ->
  pdf_parse env_ (pdf_path input_data) = Return parsed_text ->
  4192 < count_tokens parsed_text ->
  fst (extract_paper self input_data fuel w) = Return None
  /\ published (snd (extract_paper self input_data fuel w))
     = published w
       ++ [ExtractionStartedEvent (paper_id input_data) (extraction_types input_data);
           ExtractionProgressEvent (paper_id input_data) "parsing" (1 # 10)
             "Parsing PDF...";
           ExtractionProgressEvent (paper_id input_data) "analyzing" (2 # 10)
             "Analyzing content...";
           ExtractionProgressEvent (paper_id input_data) "chunking" (3 # 10)
             ("Content too large (" +:+ pretty (count_tokens parsed_text)
              +:+ " tokens), processing in chunks...")].
Proof.
  intros self Hhealth Hpdf Hparse Hbig.
  assert (Hwin : config.context_window (_config self) - 4000 = 4192).
  { subst self; simpl. by rewrite context_window_8192. }
  assert (Hstuck : _extract_chunked self input_data parsed_text 4192 fuel = None).
  { unfold _extract_chunked.
    change (_chunker self) with (mkTextChunker count_tokens default_config).
    unfold chunk; simpl.
    destruct (count_tokens parsed_text <=? 4192) eqn:Hfit; [lia|].
    rewrite chunk_loop_stuck; [done | lia |].
    unfold count_tokens in Hbig.
    pose proof (Z.div_le_upper_bound (len parsed_text) 4 0 ltac:(lia)). lia. }
  unfold extract_paper, extract_body, check_backend_health.
  change (env self) with env_. rewrite Hhealth, Hpdf, Hparse, Hwin, Hstuck.
  destruct (count_tokens parsed_text >? 4192) eqn:Hgt; [|lia].
  unfold try_except, mbind, publish, _publish_progress, publish, ret; simpl.
  split; [done|]. by rewrite <- !app_assoc.
Qed.

End ServiceRuns.

(** The service built from the default settings, on a paper of 16772
    characters. *)
Lemma extract_paper_large_never_returns_witness :
  fst (extraction_service.extract_paper (H := demo_runtime)
         (service_init.ExtractionService_init demo_settings None
            (llm._http answering_client) demo_parts (demo_env long_paper))
         demo_input 1000 demo_sworld)
  = Return None.
Proof.
  apply (extract_paper_large_never_returns (H := demo_runtime) demo_settings None
           (llm._http answering_client) demo_parts (demo_env long_paper)
           demo_input long_paper 1000 demo_sworld).
  - reflexivity.
  - reflexivity.
  - reflexivity.
  - vm_compute. reflexivity.
Defined.

Section ServiceProtocol.
Import results events types templates llm extractors chunker extraction_service.
Context `{Runtime}.

Lemma quiet_ret {A} (a : A) (w : SWorld) : quiet (ret a) w.
Proof. exists []. split; [constructor|]. simpl. by rewrite app_nil_r. Qed.

Lemma quiet_raise {A} (e : exn) (w : SWorld) : quiet (raise (A := A) e) w.
Proof. exists []. split; [constructor|]. simpl. by rewrite app_nil_r. Qed.

Lemma quiet_progress (pid stage : string) (p : Q) (msg : string) (w : SWorld) :
  quiet (_publish_progress pid stage p msg) w.
Proof.
  exists [ExtractionProgressEvent pid stage p msg]. split; [|done].
  by repeat constructor.
Qed.

Lemma quiet_lift {A} (m : M World A) (w : SWorld) : quiet (lift m) w.
Proof.
  exists []. split; [constructor|]. unfold lift.
  destruct (m (llm_world w)) as [r lw]; simpl. by rewrite app_nil_r.
Qed.

Lemma quiet_bind {A B} (m : M SWorld A) (k : A -> M SWorld B) (w : SWorld) :
  quiet m w -> (forall a w', quiet (k a) w') -> quiet (mbind m k) w.
Proof.
  intros (evs & Hall & Hp) Hk. unfold quiet, mbind.
  destruct (m w) as [[a|e] w'] eqn:Hm; simpl in *.
  - destruct (Hk a w') as (evs' & Hall' & Hp').
    exists (evs ++ evs'). split; [by apply Forall_app|].
    by rewrite Hp', Hp, app_assoc.
  - by exists evs.
Qed.

Lemma quiet_of_outcome {A B} (o : outcome A) (k : A -> M SWorld B) (w : SWorld) :
  (forall a w', quiet (k a) w') ->
  quiet (match o with Return a => k a | Raise e => raise e end) w.
Proof. intros Hk. destruct o; [apply Hk | apply quiet_raise]. Qed.

Lemma quiet_chunk_step (self : ExtractionService) (input_data : PaperExtractionInput)
    (n : Z) (acc : list (string * pyval) * list pyval) (i : Z) (c : ChunkInfo)
    (w : SWorld) :
  quiet (chunk_step self input_data n acc i c) w.
Proof.
  unfold chunk_step.
  apply quiet_bind; [apply quiet_progress|]. intros _ w1.
  apply quiet_bind; [apply quiet_lift|]. intros result w2.
  destruct (success result); [|apply quiet_ret].
  destruct (py_get (data result) "sections" (VDict [])); [|apply quiet_raise].
  destruct (py_items _); [|apply quiet_raise].
  destruct (py_get (data result) "concepts" (VList [])); [|apply quiet_raise].
  destruct (py_iter _); [apply quiet_ret | apply quiet_raise].
Qed.

Lemma quiet_chunk_loop (self : ExtractionService) (input_data : PaperExtractionInput)
    (n : Z) (chunks : list ChunkInfo) (acc : list (string * pyval) * list pyval)
    (i : Z) (w : SWorld) :
  quiet (chunk_loop_from self input_data n acc i chunks) w.
Proof.
  revert acc i w. induction chunks as [|c chunks IH]; intros acc i w; simpl.
  - apply quiet_ret.
  - apply quiet_bind; [apply quiet_chunk_step|]. intros acc' w'. apply IH.
Qed.

Lemma quiet_merge_chunks (self : ExtractionService) (input_data : PaperExtractionInput)
    (chunks : list ChunkInfo) (w : SWorld) :
  quiet (merge_chunks self input_data chunks) w.
Proof.
  unfold merge_chunks.
  apply quiet_bind; [apply quiet_chunk_loop|]. intros acc w'.
  destruct (_deduplicate _ _ _); [apply quiet_ret | apply quiet_raise].
Qed.

Lemma closes_quiet (pid : string) (m : M SWorld (option (Result ExtractedPaper exn)))
    (w : SWorld) :
  quiet m w -> closing pid (fst (m w)) = [] -> closes pid m w.
Proof.
  intros (evs & Hall & Hp) Hc. exists evs. split; [done|].
  by rewrite Hc, app_nil_r.
Qed.

Lemma closes_bind {A} (pid : string) (m : M SWorld A)
    (k : A -> M SWorld (option (Result ExtractedPaper exn))) (w : SWorld) :
  quiet m w -> (forall a w', closes pid (k a) w') -> closes pid (mbind m k) w.
Proof.
  intros (evs & Hall & Hp) Hk. unfold closes, mbind.
  destruct (m w) as [[a|e] w'] eqn:Hm; simpl in *.
  - destruct (Hk a w') as (evs' & Hall' & Hp').
    exists (evs ++ evs'). split; [by apply Forall_app|].
    by rewrite Hp', Hp, <- !app_assoc.
  - exists evs. split; [done|]. by rewrite app_nil_r.
Qed.

Lemma closes_finish (self : ExtractionService) (input_data : PaperExtractionInput)
    (result : ExtractionResult) (w : SWorld) :
  closes (paper_id input_data) (finish self input_data result) w.
Proof.
  unfold finish. destruct (negb (success result)).
  - apply closes_quiet; [apply quiet_ret | done].
  - apply closes_bind; [apply quiet_progress|]. intros _ w1.
    destruct (_result_to_model self (title input_data) result) as [extracted|e].
    + apply closes_bind; [apply quiet_progress|]. intros _ w2.
      exists []. split; [constructor|]. done.
    + apply closes_quiet; [apply quiet_raise | done].
Qed.

Lemma closes_extract_body (self : ExtractionService) (input_data : PaperExtractionInput)
    (fuel : nat) (w : SWorld) :
  closes (paper_id input_data) (extract_body self input_data fuel) w.
Proof.
  unfold extract_body.
  destruct (negb (check_backend_health self)).
  { apply closes_quiet; [apply quiet_ret | done]. }
  apply closes_bind; [apply quiet_progress|]. intros _ w1.
  destruct (negb (pdf_exists (env self) (pdf_path input_data))).
  { apply closes_quiet; [apply quiet_ret | done]. }
  destruct (pdf_parse (env self) (pdf_path input_data)) as [parsed_text|e].
  2:{ apply closes_quiet; [apply quiet_raise | done]. }
  apply closes_bind; [apply quiet_progress|]. intros _ w2.
  destruct (count_tokens parsed_text >? _).
  - apply closes_bind; [apply quiet_progress|]. intros _ w3.
    unfold _extract_chunked. destruct (chunk _ _ _ _ _) as [chunks|].
    + apply closes_bind; [apply quiet_merge_chunks|]. intros result w4.
      apply closes_finish.
    + apply closes_quiet; [apply quiet_ret | done].
  - apply closes_bind; [apply quiet_progress|]. intros _ w3.
    apply closes_bind; [apply quiet_lift|]. intros result w4.
    apply closes_finish.
Qed.

(** X25.  [extract_paper] never raises, and its events follow one
    protocol: the start event, then progress events only, then at most
    one completion event, which is the last event of the run.  The
    completion event reports success, with the number of suggested
    pages, exactly when the call returns [Ok]; it reports failure
    exactly when an exception left the [try] body, which the call then
    returns as [Err].  An [Err] the body itself returns (backend not
    available, PDF not found, extraction failed) is followed by no
    completion event. *)
Theorem extract_paper_protocol (self : ExtractionService)
    (input_data : PaperExtractionInput) (fuel : nat) (w : SWorld) :
  let pid := paper_id input_data in
  let started := ExtractionStartedEvent pid (extraction_types input_data) in
  let body := extract_body self input_data fuel
                (mkSWorld (llm_world w) (published w ++ [started])) in
  exists evs last r,
    fst (extract_paper self input_data fuel w) = Return r
    /\ published (snd (extract_paper self input_data fuel w))
       = published w ++ started :: evs ++ last
    /\ Forall is_progress evs
    /\ match fst body with
       | Return (Some (Ok extracted)) =>
           r = Some (Ok extracted)
           /\ last = [ExtractionCompletedEvent pid true
                        (Z.of_nat (length (suggested_pages extracted))) 0]
       | Return other => r = other /\ last = []
       | Raise e =>
           r = Some (Err e) /\ last = [ExtractionCompletedEvent pid false 0 0]
       end.
Proof.
  intros pid started body.
  destruct (closes_extract_body self input_data fuel
              (mkSWorld (llm_world w) (published w ++ [started])))
    as (evs & Hall & Hp).
  fold body in Hp. simpl in Hp.
  unfold extract_paper, mbind, publish, try_except.
  fold pid. fold started. fold body.
  destruct body as [[r|e] w'] eqn:Hbody; simpl in *.
  - exists evs, (closing pid (Return r)), r.
    split; [done|]. split; [by rewrite Hp, <- app_assoc|]. split; [done|].
    destruct r as [[extracted|e]|]; by split.
  - exists evs, [ExtractionCompletedEvent pid false 0 0], (Some (Err e)).
    split; [done|]. rewrite app_nil_r in Hp.
    split; [by rewrite Hp, <- !app_assoc|]. by split.
Qed.

End ServiceProtocol.

(** ** More of the paper scraper *)

Section ScraperMore.
Import chunker util.

Lemma lower_app (a b : string) : lower (a +:+ b) = lower a +:+ lower b.
Proof.
  induction a as [|c a IH]; [done|].
  rewrite string_app_cons. simpl. by rewrite IH.
Qed.

(** A literal matched without regard to case is a prefix that lowers
    to the lowered literal. *)
Lemma expect_ci_prefix (lit s r : string) :
  expect_ci lit s = Some r ->
  exists pre, s = pre +:+ r /\ lower pre = lower lit.
Proof.
  revert s. induction lit as [|a lit IH]; intros s; simpl.
  - intros [= <-]. by exists EmptyString.
  - destruct s as [|b s]; [done|].
    destruct (Ascii.eqb_spec (lower_char a) (lower_char b)) as [Hab|]; [|done].
    intros (pre & -> & Hpre)%IH. exists (String b pre). simpl.
    by rewrite Hpre, Hab.
Qed.

Lemma url_shape_scheme (tok : string) :
  url_shape tok = true ->
  exists scheme rest,
    tok = scheme +:+ rest
    /\ (lower scheme = "http://" \/ lower scheme = "https://")
    /\ rest <> EmptyString.
Proof.
  unfold url_shape.
  destruct (expect_ci "http" tok) as [r|] eqn:Hhttp; [|done].
  apply expect_ci_prefix in Hhttp as (p1 & -> & Hp1).
  assert (Hplain : match expect_ci "://" r with
                   | Some (String _ _) => true
                   | _ => false
                   end = true ->
                   exists scheme rest,
                     p1 +:+ r = scheme +:+ rest
                     /\ (lower scheme = "http://" \/ lower scheme = "https://")
                     /\ rest <> EmptyString).
  { destruct (expect_ci "://" r) as [[|c rest]|] eqn:Hsep; try done.
    apply expect_ci_prefix in Hsep as (p2 & -> & Hp2). intros _.
    exists (p1 +:+ p2), (String c rest).
    split; [by rewrite string_app_assoc|]. split; [|done].
    left. by rewrite lower_app, Hp1, Hp2. }
  destruct (expect_ci "s" r) as [r'|] eqn:Hs; [|exact Hplain].
  intros [Hsecure|Hr]%orb_true_iff; [|by apply Hplain].
  apply expect_ci_prefix in Hs as (ps & -> & Hps).
  destruct (expect_ci "://" r') as [[|c rest]|] eqn:Hsep; try done.
  apply expect_ci_prefix in Hsep as (p2 & -> & Hp2).
  exists (p1 +:+ ps +:+ p2), (String c rest).
  split; [by rewrite !string_app_assoc|]. split; [|done].
  right. by rewrite !lower_app, Hp1, Hps, Hp2.
Qed.

Lemma span_nonspace_no_space (s : string) :
  no_space (fst (span_nonspace s)) = true.
Proof.
  induction s as [|c s IH]; simpl; [done|].
  destruct (is_space c) eqn:Hc; [done|].
  destruct (span_nonspace s) as [w r]; simpl in *. by rewrite Hc.
Qed.

Lemma match_here_url (s u : string) :
  match_here s = Some u -> url_shape u = true /\ no_space u = true.
Proof.
  unfold match_here.
  destruct (expect_ci "link" (skip_ws s)) as [s2|]; [|done].
  destruct (skip_ws s2) as [|c s4]; [done|].
  destruct (Ascii.eqb c ":"); [|done].
  pose proof (span_nonspace_no_space (skip_ws s4)) as Hns.
  destruct (span_nonspace (skip_ws s4)) as [tok rest]; simpl in Hns.
  destruct (url_shape tok) eqn:Hshape; [|done].
  destruct (at_eol_after_ws rest); [|done].
  by intros [= <-].
Qed.

Lemma search_from_match (bol : bool) (s u : string) :
  search_from bol s = Some u -> exists s', match_here s' = Some u.
Proof.
  revert bol. induction s as [|c s IH]; intros bol; simpl.
  - destruct bol; [|done].
    destruct (match_here EmptyString) eqn:Hm; [|done].
    intros [= <-]. by exists EmptyString.
  - destruct bol.
    + destruct (match_here (String c s)) as [u'|] eqn:Hm.
      * intros [= <-]. by eexists.
      * apply IH.
    + apply IH.
Qed.

(** X26.  Whatever [Paper.md] holds, the link computed from it is the
    sentinel or a well-formed address: it starts with [http://] or
    [https://] in any mix of cases, something follows the scheme, and
    it holds no white space. *)
Theorem link_is_sentinel_or_url (content : string) :
  link_of (Return content) = "NO LINK FOUND"
  \/ (no_space (link_of (Return content)) = true
      /\ exists scheme rest,
           link_of (Return content) = scheme +:+ rest
           /\ (lower scheme = "http://" \/ lower scheme = "https://")
           /\ rest <> EmptyString).
Proof.
  unfold link_of, search.
  destruct (search_from true content) as [u|] eqn:Hs; [|by left].
  right. apply search_from_match in Hs as (s' & Hm).
  apply match_here_url in Hm as [Hshape Hns].
  split; [done|]. by apply url_shape_scheme.
Qed.

Lemma search_some_line (ls : list string) (u : string) :
  Forall (fun l => no_lf l = true) ls ->
  first_line_url ls = Some u ->
  exists u', search_from true (join ls) = Some u'.
Proof.
  induction ls as [|l ls IH]; [done|]. intros Hlf Hfirst.
  inversion Hlf as [|? ? Hl Hlf']; subst.
  destruct ls as [|l' ls'].
  - simpl in *. destruct (search_line l Hl) as [-> _].
    destruct (match_here l) as [u0|]; [by exists u0 | done].
  - change (join (l :: l' :: ls')) with (l +:+ String "010" (join (l' :: ls'))).
    change (first_line_url (l :: l' :: ls'))
      with (match match_here l with
            | Some u => Some u
            | None => first_line_url (l' :: ls')
            end) in Hfirst.
    destruct (search_line l Hl) as [_ ->].
    destruct (match_here (l +:+ String "010" (join (l' :: ls')))) as [u0|] eqn:Hm;
      [by exists u0|].
    destruct (match_here l) as [u1|] eqn:Hl1.
    + destruct (match_here_line l u1 Hl1) as [Hblank Hd].
      rewrite match_here_app in Hm; [congruence | done | right; by eexists | done | done].
    + by apply IH.
Qed.

(** X27.  A [Paper.md] with a line that matches the pattern alone
    never yields the sentinel: some link is found, by that line or by
    an earlier match that runs over line ends. *)
Theorem matching_line_gives_link (content u : string) :
  first_line_url (lines content) = Some u ->
  exists u', search content = Some u'
             /\ link_of (Return content) = u'
             /\ u' <> "NO LINK FOUND".
Proof.
  intros Hfirst. unfold link_of, search.
  destruct (search_some_line (lines content) u (lines_no_lf content) Hfirst)
    as [u' Hs].
  rewrite join_lines in Hs. rewrite Hs. exists u'. split; [done|]. split; [done|].
  apply search_from_match in Hs as (s' & Hm).
  apply match_here_url in Hm as [_ Hns]. intros ->. by vm_compute in Hns.
Qed.

End ScraperMore.

(** A link line behind a heading. *)
Lemma matching_line_gives_link_witness :
  exists u', util.search ("# Title" +:+ chunker.LF +:+ "link: http://a.b") = Some u'
             /\ u' <> "NO LINK FOUND".
Proof.
  destruct (matching_line_gives_link
              ("# Title" +:+ chunker.LF +:+ "link: http://a.b") "http://a.b"
              ltac:(vm_compute; reflexivity)) as (u' & Hs & _ & Hne).
  by exists u'.
Defined.

(** ** More of the extractors *)

Section ExtractMore.
Import types config templates llm extractors.
Context `{Runtime}.

Lemma fraction_bounds (p n : nat) :
  (p <= n)%nat -> (0 < n)%nat ->
  (0 <= inject_Z (Z.of_nat p) / inject_Z (Z.of_nat n) <= 1)%Q.
Proof.
  intros Hp Hn.
  assert (Hn0 : (0 < inject_Z (Z.of_nat n))%Q).
  { change 0%Q with (inject_Z 0). rewrite <- Zlt_Qlt. lia. }
  split.
  - apply Qle_shift_div_l; [done|]. rewrite Qmult_0_l.
    change 0%Q with (inject_Z 0). rewrite <- Zle_Qle. lia.
  - apply Qle_shift_div_r; [done|]. rewrite Qmult_1_l.
    rewrite <- Zle_Qle. lia.
Qed.

(** The confidence is a fraction of the expected keys. *)
Lemma calculate_confidence_bounds (self : Extractor) (data : pyval) (c : Q) :
  _calculate_confidence self data = Return c -> (0 <= c <= 1)%Q.
Proof.
  unfold _calculate_confidence.
  destruct (negb (truthy data)); [intros [= <-]; split; discriminate|].
  destruct data as [| | | | |d]; try discriminate.
  destruct (truthy (default VNone (dict_get d "parse_error")));
    [intros [= <-]; split; discriminate|].
  destruct (_get_expected_keys self) as [|k ks] eqn:Hkeys;
    [intros [= <-]; split; discriminate|].
  intros [= <-].
  apply (fraction_bounds
           (length (List.filter (fun k0 => truthy (default VNone (dict_get d k0)))
                                (k :: ks)))
           (length (k :: ks)));
    [apply List.filter_length_le | simpl; lia].
Qed.

(** X28.  [extract] raises only for a context with the key [self],
    which collides with the parameter of the template's methods: then
    it raises [TypeError] and leaves the world as it was.  For every
    other context it returns, and what it returns is one of two
    shapes.  A failure has empty data, confidence 0, no raw response,
    no usage and exactly one error message, and never passes
    [validate]; a success has no error message and a confidence
    between 0 and 1. *)
Theorem extract_result_shape (self : Extractor) (content : string)
    (context : option (list (string * string))) (w : World) :
  if binds_self (default [] context)
  then exists m, extract self content context w = (Raise (TypeError m), w)
  else
    exists result,
      fst (extract self content context w) = Return result
      /\ extraction_type result = x_extraction_type self
      /\ if success result
         then errors result = [] /\ (0 <= confidence result <= 1)%Q
         else data result = VDict [] /\ confidence result = 0%Q
              /\ raw_response result = EmptyString /\ result_usage result = None
              /\ (exists msg, errors result = [msg])
              /\ extractor_checks.validate result = false.
Proof.
  destruct (binds_self (default [] context)) eqn:Hself;
    [by apply extract_binds_self|].
  assert (Hvars : binds_self (dict_update [("content", content)] (default [] context))
                  = false) by (by rewrite binds_self_template_vars).
  unfold extract, validate_variables, render.
  rewrite !keywords_plain by done. cbn [bind].
  destruct (elements _) as [|m ms].
  - unfold try_except, mbind.
    destruct (complete _ _ _ _ _ w) as [[response|e] w1]; simpl.
    + destruct (_process_response self (r_content response)) as [d|e]; simpl.
      * destruct (_calculate_confidence self d) as [c|e] eqn:Hc; simpl.
        -- eexists. split; [done|]. split; [done|]. simpl. split; [done|].
           by apply (calculate_confidence_bounds self d).
        -- eexists. split; [done|]. split; [done|]. simpl.
           repeat split; try done. by eexists.
      * eexists. split; [done|]. split; [done|]. simpl.
        repeat split; try done. by eexists.
    + eexists. split; [done|]. split; [done|]. simpl.
      repeat split; try done. by eexists.
  - eexists. split; [done|]. split; [done|]. simpl.
    repeat split; try done. by eexists.
Qed.

End ExtractMore.

(** ** Markdown answers and the section extractor *)

Section MarkdownFacts.
Import chunker util templates extractors markdown.

Lemma rstrip_idem (s : string) : rstrip (rstrip s) = rstrip s.
Proof.
  induction s as [|c t IH]; simpl; [done|].
  destruct (rstrip t) as [|c' t'] eqn:Ht.
  - destruct (is_space c) eqn:Hc; simpl; [done | by rewrite Hc].
  - change (rstrip (String c (String c' t')))
      with (match rstrip (String c' t') with
            | EmptyString => if is_space c then EmptyString else String c EmptyString
            | String c0 t0 => String c (String c0 t0)
            end).
    by rewrite IH.
Qed.

Lemma rstrip_head (c : ascii) (t : string) :
  is_space c = false -> exists t', rstrip (String c t) = String c t'.
Proof.
  intros Hc. simpl. destruct (rstrip t); rewrite ?Hc; by eexists.
Qed.

Lemma skip_ws_head (s : string) :
  skip_ws s = EmptyString
  \/ exists c t, skip_ws s = String c t /\ is_space c = false.
Proof.
  induction s as [|c t IH]; simpl; [by left|].
  destruct (is_space c) eqn:Hc; [exact IH|]. right. by exists c, t.
Qed.

(** Stripping twice is stripping once. *)
Lemma strip_idem (s : string) : strip (strip s) = strip s.
Proof.
  unfold strip. destruct (skip_ws_head s) as [-> | (c & t & -> & Hc)]; [done|].
  destruct (rstrip_head c t Hc) as [t' Ht']. rewrite Ht'. simpl. rewrite Hc.
  rewrite <- Ht'. apply rstrip_idem.
Qed.

Lemma replace_blank_cons (c : ascii) (t : string) :
  replace_from " " "_" (String c t) 0
  = if Ascii.eqb " " c then String "_" (replace_from " " "_" t 0)
    else String c (replace_from " " "_" t 0).
Proof.
  change (replace_from " " "_" (String c t) 0)
    with (if (Ascii.eqb " " c && true)%bool
          then "_" +:+ replace_from " " "_" t 0
          else String c (replace_from " " "_" t 0)).
  rewrite andb_true_r. by destruct (Ascii.eqb " " c).
Qed.

Lemma replace_blank (s : string) : no_blank (replace s " " "_") = true.
Proof.
  unfold replace. induction s as [|c t IH]; [done|].
  rewrite replace_blank_cons.
  destruct (Ascii.eqb_spec " " c) as [<-|Hc]; [exact IH|].
  change (negb (Ascii.eqb c " ") && no_blank (replace_from " " "_" t 0) = true).
  rewrite IH. destruct (Ascii.eqb_spec c " ") as [->|_]; done.
Qed.

Lemma dict_set_NoDup {A} (d : list (string * A)) (k : string) (v : A) :
  NoDup (map fst d) -> NoDup (map fst (dict_set d k v)).
Proof.
  induction d as [|[k' v'] d IH]; simpl; intros Hnd.
  - by apply NoDup_singleton.
  - apply NoDup_cons in Hnd as [Hk' Hnd].
    destruct (String.eqb_spec k' k) as [->|Hne]; simpl.
    + by apply NoDup_cons.
    + apply NoDup_cons. split; [|by apply IH].
      rewrite dict_set_keys. intros [Hin | ->]; done.
Qed.

Lemma dict_set_Forall {A} (P : string * A -> Prop) (d : list (string * A))
    (k : string) (v : A) :
  Forall P d -> P (k, v) -> Forall P (dict_set d k v).
Proof.
  induction 1 as [|[k' v'] d Hkv Hd IH]; simpl; intros Hnew.
  - by constructor.
  - destruct (String.eqb k' k); constructor; auto.
Qed.

Lemma store_inv (st : ParseState) :
  parse_inv st -> NoDup (map fst (store st)) /\ Forall section_ok (store st).
Proof.
  intros (Hnd & Hall & Hname). unfold store.
  destruct (current_section st) as [name|]; [|done].
  destruct (String.eqb_spec name "") as [->|Hne]; [done|].
  split; [by apply dict_set_NoDup|].
  apply dict_set_Forall; [done|].
  split; [done|]. split; [by apply Hname | apply strip_idem].
Qed.

Lemma parse_line_inv (st : ParseState) (line : string) :
  parse_inv st -> parse_inv (parse_line st line).
Proof.
  intros Hinv. unfold parse_line.
  destruct (startswith "## " line).
  - destruct (store_inv st Hinv) as [Hnd Hall].
    split; [done|]. split; [done|]. simpl. intros name [= <-]. apply replace_blank.
  - destruct (current_section st) as [name|] eqn:Hcur; [|exact Hinv].
    destruct (String.eqb name ""); [exact Hinv|].
    destruct Hinv as (Hnd & Hall & Hname).
    split; [done|]. split; [done|]. simpl. intros name0 [= <-]. by apply Hname.
Qed.

Lemma fold_parse_inv (ls : list string) (st : ParseState) :
  parse_inv st -> parse_inv (fold_left parse_line ls st).
Proof.
  revert st. induction ls as [|l ls IH]; intros st Hinv; simpl; [done|].
  by apply IH, parse_line_inv.
Qed.

Lemma fold_parse_no_header (ls : list string) (st : ParseState) :
  Forall (fun l => startswith "## " l = false) ls ->
  current_section st = None ->
  fold_left parse_line ls st = st.
Proof.
  revert st. induction ls as [|l ls IH]; intros st Hls Hcur; simpl; [done|].
  apply Forall_cons in Hls as [Hl Hls].
  unfold parse_line at 2. rewrite Hl, Hcur. by apply IH.
Qed.

(** X29.  [_parse_markdown_response] returns one entry per distinct
    heading name: the keys are distinct, none is empty or holds a
    blank, and every value is stripped of surrounding white space.  A
    response without a line that starts with ["## "] gives the empty
    dict, whatever its text. *)
Theorem parse_markdown_sections (response : string) :
  NoDup (map fst (_parse_markdown_response response))
  /\ Forall (fun kv => fst kv <> EmptyString
                       /\ no_blank (fst kv) = true
                       /\ strip (snd kv) = snd kv)
            (_parse_markdown_response response)
  /\ (Forall (fun l => startswith "## " l = false) (lines response) ->
      _parse_markdown_response response = []).
Proof.
  unfold _parse_markdown_response.
  assert (Hinit : parse_inv (mkParseState [] None [])).
  { split; [constructor|]. split; [constructor|]. done. }
  destruct (store_inv _ (fold_parse_inv (lines response) _ Hinit)) as [Hnd Hall].
  split; [done|]. split; [exact Hall|].
  intros Hno. by rewrite fold_parse_no_header.
Qed.

(** X30.  The confidence of a section extraction is 0, 1/2 or 1: one
    half for a non-empty [summary] section and one half for at least
    one bullet in the [key_points] section.  So a section result passes
    [validate] exactly when the answer has both. *)
Theorem section_confidence (parts : service_init.ExtractorParts)
    (client : llm.LLMClient) (response : string) :
  let sections := _parse_markdown_response response in
  let summary := default EmptyString (dict_get sections "summary") in
  let key_points :=
    _extract_list (default EmptyString (dict_get sections "key_points")) in
  let points (b : bool) : Z := if b then 1 else 0 in
  let result c :=
    mkExtractionResult "section" true
      (_process_response (service_init._extract_formulas parts) response)
      c response None [] in
  exists c,
    _calculate_confidence (service_init.SectionExtractor_init parts client)
      (_process_response (service_init._extract_formulas parts) response)
    = Return c
    /\ (c == inject_Z (points (negb (String.eqb summary ""))
                       + points (bool_decide (key_points <> [])))
             / inject_Z 2)%Q
    /\ (extractor_checks.validate (result c) = true
        <-> summary <> EmptyString /\ key_points <> []).
Proof.
  intros sections summary key_points points result.
  unfold _calculate_confidence, _process_response.
  fold sections. fold summary. fold key_points.
  subst result points. unfold extractor_checks.validate.
  clearbody summary key_points sections.
  destruct summary as [|a summary], key_points as [|kp key_points];
    cbn; (eexists; split; [reflexivity|]; split; [reflexivity|]);
    split; try discriminate; try (by intros [? ?]); done.
Qed.

End MarkdownFacts.
